(** * LokerPuller: a shallow embedding of the ingestion and query core

    The development follows the Python sources:
    - [lokerpuller/utils/constants.py]   ([SEA_COUNTRIES],
      [SEA_SCRAPING_CONFIG], [MEMORY_OPTIMIZED_CONFIG]),
    - [lokerpuller/utils/validation.py]  ([validate_sea_country],
      [get_sea_location_for_scraping], [validate_search_params],
      [sanitize_job_data]),
    - [lokerpuller/database/manager.py]  ([insert_jobs], [search_jobs],
      [get_statistics], [cleanup_old_jobs], [get_filter_options]),
    - [lokerpuller/core/scraper.py]      ([scrape_site_with_logging],
      [scrape_jobs]),
    - [lokerpuller/core/scheduler.py]    ([run_scraping_job],
      [run_daily_scraping]),
    - [lokerpuller/api/app.py]           (the pagination of [get_jobs]).

    Python dictionaries are finite maps from strings to Python values,
    exceptions are an explicit error result, the SQLite table is a list of
    rows in rowid order, and an IEEE double is a [spec_float] of precision
    53 and maximal exponent 1024.  Strings are byte strings restricted to
    ASCII: [lower], [upper] and [strip] act on ASCII letters and ASCII
    white space only. *)

From Stdlib Require Import ZArith String Ascii List Bool Lia Sorted.
From Stdlib Require Import Floats.SpecFloat.
From stdpp Require Import base gmap strings list pretty.

(** ** Python exceptions and results *)

Inductive exn : Type :=
| ValueError (msg : string)
| TypeError
| AttributeError
| OverflowError
| ZeroDivisionError
| SqliteError.

Inductive result (A : Type) : Type :=
| Ok (a : A)
| Raise (e : exn).

Arguments Ok {A} a.
Arguments Raise {A} e.

#[export] Instance exn_eq_dec : EqDecision exn.
Proof. solve_decision. Defined.

#[export] Instance result_eq_dec {A : Type} `{EqDecision A} : EqDecision (result A).
Proof. solve_decision. Defined.

#[export] Instance result_ret : MRet result := λ A a, Ok a.
#[export] Instance result_bind : MBind result :=
  λ A B f m, match m with Ok a => f a | Raise e => Raise e end.

(** [for x in l: s = body(s, x)], where the body may raise. *)
Fixpoint for_each {S A : Type} (body : S → A → result S) (l : list A) (s : S)
  : result S :=
  match l with
  | [] => Ok s
  | x :: l' => s' ← body s x; for_each body l' s'
  end.

(** ** IEEE doubles *)

Definition prec : Z := 53.
Definition emax : Z := 1024.

(** The double nearest to an integer (ties to even); an infinity when the
    integer is out of range. *)
Definition float_of_Z (z : Z) : spec_float := binary_normalize prec emax z 0 false.

Definition is_nan (f : spec_float) : bool :=
  match f with S754_nan => true | _ => false end.

Definition is_infinite (f : spec_float) : bool :=
  match f with S754_infinity _ => true | _ => false end.

Definition is_zero (f : spec_float) : bool :=
  match f with S754_zero _ => true | _ => false end.

Definition float_div (a b : spec_float) : spec_float := SFdiv prec emax a b.
Definition float_mul (a b : spec_float) : spec_float := SFmul prec emax a b.

(** Truncation towards zero of a finite double. *)
Definition trunc_float (f : spec_float) : option Z :=
  match f with
  | S754_zero _ => Some 0%Z
  | S754_finite s m e =>
      let a := if (0 <=? e)%Z then (Z.pos m * 2 ^ e)%Z
               else (Z.pos m / 2 ^ (- e))%Z in
      Some (if s then (- a)%Z else a)
  | _ => None
  end.

#[export] Instance spec_float_eq_dec : EqDecision spec_float.
Proof. solve_decision. Defined.

(** ** Python values *)

Inductive pyval : Type :=
| PyNone
| PyBool (b : bool)
| PyInt (z : Z)
| PyFloat (f : spec_float)
| PyStr (s : string)
| PyObj (repr : string).
(** [PyObj repr] stands for a value of any other type (a date, a list with
    elements, ...): it is true in a condition, [str] of it is [repr], it has
    no [lower] method and [float] rejects it with a [TypeError]. *)

#[export] Instance pyval_eq_dec : EqDecision pyval.
Proof. solve_decision. Defined.

(** What the model takes from the Python runtime and from SQLite without
    defining it: conversions between text and doubles, decimal rounding, the
    clock, and SQLite's floating-point average. *)
Class Runtime : Type := {
  (** [float(s)] on a string; [None] when it raises [ValueError]. *)
  float_of_str : string → option spec_float;
  (** [str(x)] on a float. *)
  str_of_float : spec_float → string;
  (** [int(s)] on a string; [None] when it raises [ValueError]. *)
  int_of_str : string → option Z;
  (** [round(x, ndigits)] on a float. *)
  py_round : spec_float → Z → spec_float;
  (** [(datetime.now() - timedelta(days=n)).strftime('%Y-%m-%d %H:%M:%S')];
      [None] when the date arithmetic raises [OverflowError]. *)
  cutoff_date : Z → option string;
  (** SQLite's [AVG] over a non-empty list of doubles. *)
  sql_avg : list spec_float → spec_float;
  (** SQLite's conversion of a REAL to TEXT. *)
  sql_text_of_real : spec_float → string
}.

(** *** ASCII strings: [lower], [upper], [strip], [in] *)

Definition lower_ascii (c : ascii) : ascii :=
  let n := N_of_ascii c in
  if ((65 <=? n) && (n <=? 90))%N then ascii_of_N (n + 32) else c.

Definition upper_ascii (c : ascii) : ascii :=
  let n := N_of_ascii c in
  if ((97 <=? n) && (n <=? 122))%N then ascii_of_N (n - 32) else c.

Fixpoint lower (s : string) : string :=
  match s with
  | EmptyString => EmptyString
  | String c s' => String (lower_ascii c) (lower s')
  end.

Fixpoint upper (s : string) : string :=
  match s with
  | EmptyString => EmptyString
  | String c s' => String (upper_ascii c) (upper s')
  end.

(** White space as [str.strip()] sees it in the ASCII range. *)
Definition is_space (c : ascii) : bool :=
  let n := N_of_ascii c in
  (((9 <=? n) && (n <=? 13)) || ((28 <=? n) && (n <=? 32)))%N.

Definition str_empty (s : string) : bool :=
  match s with EmptyString => true | _ => false end.

Fixpoint lstrip (s : string) : string :=
  match s with
  | EmptyString => EmptyString
  | String c s' => if is_space c then lstrip s' else s
  end.

Fixpoint rstrip (s : string) : string :=
  match s with
  | EmptyString => EmptyString
  | String c s' =>
      let r := rstrip s' in
      if is_space c && str_empty r then EmptyString else String c r
  end.

Definition strip (s : string) : string := rstrip (lstrip s).

Fixpoint startswith (p s : string) : bool :=
  match p, s with
  | EmptyString, _ => true
  | String _ _, EmptyString => false
  | String a p', String b s' => Ascii.eqb a b && startswith p' s'
  end.

(** [needle in hay] on strings. *)
Fixpoint str_in (needle hay : string) : bool :=
  startswith needle hay
  || match hay with
     | EmptyString => false
     | String _ hay' => str_in needle hay'
     end.

(** [', '.join(l)] and friends. *)
Fixpoint join (sep : string) (l : list string) : string :=
  match l with
  | [] => EmptyString
  | [x] => x
  | x :: l' => x +:+ sep +:+ join sep l'
  end.

(** *** Truth value, [str], [float], [int] *)

Definition py_truthy (v : pyval) : bool :=
  match v with
  | PyNone => false
  | PyBool b => b
  | PyInt z => negb (z =? 0)%Z
  | PyFloat f => negb (is_zero f)
  | PyStr s => negb (str_empty s)
  | PyObj _ => true
  end.

Section PythonBuiltins.
Context `{Runtime}.

Definition py_str (v : pyval) : string :=
  match v with
  | PyNone => "None"
  | PyBool true => "True"
  | PyBool false => "False"
  | PyInt z => pretty z
  | PyFloat f => str_of_float f
  | PyStr s => s
  | PyObj repr => repr
  end.

(** [float(v)].  An integer too large for a double raises [OverflowError]. *)
Definition py_float (v : pyval) : result spec_float :=
  match v with
  | PyNone => Raise TypeError
  | PyBool b => Ok (float_of_Z (if b then 1 else 0))
  | PyInt z =>
      let f := float_of_Z z in
      if is_infinite f then Raise OverflowError else Ok f
  | PyFloat f => Ok f
  | PyStr s =>
      match float_of_str s with
      | Some f => Ok f
      | None => Raise (ValueError ("could not convert string to float: " +:+ s))
      end
  | PyObj _ => Raise TypeError
  end.

(** [int(v)]. *)
Definition py_int (v : pyval) : result Z :=
  match v with
  | PyNone => Raise TypeError
  | PyBool b => Ok (if b then 1 else 0)%Z
  | PyInt z => Ok z
  | PyFloat f =>
      match trunc_float f with
      | Some z => Ok z
      | None =>
          if is_nan f then Raise (ValueError "cannot convert float NaN to integer")
          else Raise OverflowError
      end
  | PyStr s =>
      match int_of_str s with
      | Some z => Ok z
      | None => Raise (ValueError ("invalid literal for int() with base 10: " +:+ s))
      end
  | PyObj _ => Raise TypeError
  end.

End PythonBuiltins.

(** [d.get(k)]: the value, or [None] for a missing key. *)
Definition dict_get (d : gmap string pyval) (k : string) : pyval :=
  default PyNone (d !! k).

(** [d.get(k, dflt)]. *)
Definition dict_get_default (d : gmap string pyval) (k : string) (dflt : pyval) : pyval :=
  default dflt (d !! k).

(** ** [utils/constants.py] *)

(** The dictionary literal [SEA_COUNTRIES], in insertion order. *)
Definition SEA_COUNTRIES : list (string * list string) :=
  [ ("Indonesia", ["Indonesia"; "Jakarta"; "Surabaya"; "Bandung"; "Medan"]);
    ("Malaysia", ["Malaysia"; "Kuala Lumpur"; "Penang"; "Johor Bahru"; "Selangor"]);
    ("Thailand", ["Thailand"; "Bangkok"; "Chiang Mai"; "Phuket"; "Pattaya"]);
    ("Vietnam", ["Vietnam"; "Ho Chi Minh City"; "Hanoi"; "Da Nang"; "Hue"]);
    ("Singapore", ["Singapore"]) ].

(** [SEA_COUNTRIES.keys()]. *)
Definition SEA_COUNTRIES_keys : list string := fst <$> SEA_COUNTRIES.

(** ** [utils/validation.py] *)

(** [validate_sea_country(location)].  The argument is whatever a job
    dictionary holds under ['location']: a true value that is not a string
    has no [lower] method, and the call raises [AttributeError]. *)
Definition validate_sea_country (location : pyval) : result bool :=
  if negb (py_truthy location) then Ok false
  else
    match location with
    | PyStr s =>
        let location_lower := lower s in
        Ok (existsb
              (λ entry : string * list string,
                 existsb (λ city, str_in (lower city) location_lower) (snd entry))
              SEA_COUNTRIES)
    | _ => Raise AttributeError
    end.

(** [validate_search_params(search_term, location, results)], on arguments
    of the annotated types. *)
Definition validate_search_params (search_term location : string) (results : Z)
  : bool * string :=
  if str_empty search_term || str_empty (strip search_term) then
    (false, "Search term cannot be empty")
  else if str_empty location || str_empty (strip location) then
    (false, "Location cannot be empty")
  else if (results <=? 0)%Z then
    (false, "Results must be greater than 0")
  else if (200 <? results)%Z then
    (false, "Results cannot exceed 200")
  else if negb (existsb (λ country, str_in (lower country) (lower location))
                  SEA_COUNTRIES_keys) then
    (false, "Location must be in Southeast Asia: " +:+ join ", " SEA_COUNTRIES_keys)
  else (true, "").

Definition string_fields : list string :=
  [ "job_url_direct"; "company_name"; "location"; "job_type"; "date_posted";
    "interval"; "currency"; "job_level"; "job_function"; "company_industry";
    "listing_type"; "emails"; "description"; "company_url"; "company_url_direct";
    "company_addresses"; "company_num_employees"; "company_revenue";
    "company_description"; "logo_photo_url"; "banner_photo_url"; "ceo_name";
    "ceo_photo_url"; "compensation_interval"; "salary_source"; "skills";
    "experience_range" ].

Definition numeric_fields : list string :=
  [ "min_amount"; "max_amount"; "company_rating" ].

Section Sanitizer.
Context `{Runtime}.

(** The body of the loop over [string_fields]. *)
Definition sanitize_string (value : pyval) : pyval :=
  match value with
  | PyNone => PyNone
  | _ => PyStr (strip (py_str value))
  end.

(** The body of the loop over [numeric_fields]: [float(value)] under
    [except (ValueError, TypeError)]; any other exception propagates. *)
Definition sanitize_numeric (value : pyval) : result pyval :=
  match value with
  | PyNone => Ok PyNone
  | _ =>
      match py_float value with
      | Ok f => Ok (PyFloat f)
      | Raise (ValueError _) => Ok PyNone
      | Raise TypeError => Ok PyNone
      | Raise e => Raise e
      end
  end.

(** The [is_remote] cascade of [isinstance] tests. *)
Definition sanitize_is_remote (is_remote : pyval) : pyval :=
  match is_remote with
  | PyBool b => PyInt (if b then 1 else 0)
  | PyInt _ | PyStr _ =>
      let text := lower (py_str is_remote) in
      PyInt (if bool_decide (text ∈ ["true"; "1"; "yes"]) then 1 else 0)
  | _ => PyInt 0
  end.

(** [sanitize_job_data(job_data)]. *)
Definition sanitize_job_data (job_data : gmap string pyval)
  : result (gmap string pyval) :=
  let sanitized : gmap string pyval := ∅ in
  let sanitized :=
    <["site" := PyStr (strip (py_str (dict_get_default job_data "site" (PyStr ""))))]> sanitized in
  let sanitized :=
    <["job_url" := PyStr (strip (py_str (dict_get_default job_data "job_url" (PyStr ""))))]> sanitized in
  let sanitized :=
    <["title" := PyStr (strip (py_str (dict_get_default job_data "title" (PyStr ""))))]> sanitized in
  let sanitized :=
    foldl (λ (acc : gmap string pyval) field,
             <[field := sanitize_string (dict_get job_data field)]> acc)
          sanitized string_fields in
  sanitized ←
    for_each (λ (acc : gmap string pyval) field,
                v ← sanitize_numeric (dict_get job_data field);
                Ok (<[field := v]> acc))
             numeric_fields sanitized;
  Ok (<["is_remote" := sanitize_is_remote (dict_get job_data "is_remote")]> sanitized).

End Sanitizer.

(** ** The SQLite side: values, comparison, [LIKE], [LIMIT]/[OFFSET] *)

Inductive sqlval : Type :=
| SqlNull
| SqlInt (z : Z)
| SqlReal (f : spec_float)
| SqlText (s : string).

#[export] Instance sqlval_eq_dec : EqDecision sqlval.
Proof. solve_decision. Defined.

(** A row of the [jobs] table (and a [dict(row)] of a result set): column
    name to value. *)
Abbreviation row := (gmap string sqlval).

(** [row[c]]; a column that the row does not mention is NULL. *)
Definition col (r : row) (c : string) : sqlval := default SqlNull (r !! c).

Definition is_null (v : sqlval) : bool :=
  match v with SqlNull => true | _ => false end.

Definition in_int64 (z : Z) : bool :=
  ((- 2 ^ 63 <=? z) && (z <? 2 ^ 63))%Z.

(** Binding a Python value to a [?] placeholder.  A NaN is stored as NULL;
    an integer outside 64 bits raises [OverflowError]; a value of an
    unsupported type is refused by the [sqlite3] module. *)
Definition sql_bind (v : pyval) : result sqlval :=
  match v with
  | PyNone => Ok SqlNull
  | PyBool b => Ok (SqlInt (if b then 1 else 0))
  | PyInt z => if in_int64 z then Ok (SqlInt z) else Raise OverflowError
  | PyFloat f => Ok (if is_nan f then SqlNull else SqlReal f)
  | PyStr s => Ok (SqlText s)
  | PyObj _ => Raise SqliteError
  end.

(** Comparison of two doubles that are not NaN. *)
Definition float_compare (a b : spec_float) : comparison :=
  default Eq (SFcompare a b).

(** Comparison of two values that are not NULL: numbers sort before text,
    numbers by value, text by bytes (the BINARY collation). *)
Definition sql_compare (a b : sqlval) : option comparison :=
  match a, b with
  | SqlNull, _ | _, SqlNull => None
  | SqlInt x, SqlInt y => Some (x ?= y)%Z
  | SqlInt x, SqlReal g => Some (float_compare (float_of_Z x) g)
  | SqlReal f, SqlInt y => Some (float_compare f (float_of_Z y))
  | SqlReal f, SqlReal g => Some (float_compare f g)
  | SqlText s, SqlText t => Some (String.compare s t)
  | SqlText _, _ => Some Gt
  | _, SqlText _ => Some Lt
  end.

(** The SQL operators [=], [>=], [<=]: NULL ([None]) when an operand is. *)
Definition sql_eq (a b : sqlval) : option bool :=
  c ← sql_compare a b; Some (match c with Eq => true | _ => false end).

Definition sql_ge (a b : sqlval) : option bool :=
  c ← sql_compare a b; Some (match c with Lt => false | _ => true end).

Definition sql_le (a b : sqlval) : option bool :=
  c ← sql_compare a b; Some (match c with Gt => false | _ => true end).

(** The SQL [OR] of three-valued logic. *)
Definition sql_or (a b : option bool) : option bool :=
  match a, b with
  | Some true, _ | _, Some true => Some true
  | Some false, Some false => Some false
  | _, _ => None
  end.

(** The order of [ORDER BY]: NULL first, then [sql_compare]. *)
Definition order_compare (a b : sqlval) : comparison :=
  match a, b with
  | SqlNull, SqlNull => Eq
  | SqlNull, _ => Lt
  | _, SqlNull => Gt
  | _, _ => default Eq (sql_compare a b)
  end.

(** [text LIKE pattern]: [%] matches any run of characters, [_] any single
    character, and ASCII letters match without regard to case. *)
Fixpoint like_match (pattern text : string) : bool :=
  match pattern with
  | EmptyString => str_empty text
  | String p pattern' =>
      if Ascii.eqb p "%" then
        (fix any_suffix (t : string) : bool :=
           like_match pattern' t
           || match t with
              | EmptyString => false
              | String _ t' => any_suffix t'
              end) text
      else
        match text with
        | EmptyString => false
        | String c text' =>
            (Ascii.eqb p "_" || Ascii.eqb (lower_ascii p) (lower_ascii c))
            && like_match pattern' text'
        end
  end.

(** [LIMIT limit OFFSET offset]: a negative limit is no limit, a negative
    offset is no offset. *)
Definition limit_offset {A : Type} (limit offset : Z) (l : list A) : list A :=
  let l' := drop (Z.to_nat offset) l in
  if (limit <? 0)%Z then l' else take (Z.to_nat limit) l'.

(** A stable sort: what [ORDER BY] does to rows taken in rowid order. *)
Fixpoint insert_sorted {A : Type} (le : A → A → bool) (x : A) (l : list A) : list A :=
  match l with
  | [] => [x]
  | y :: l' => if le x y then x :: l else y :: insert_sorted le x l'
  end.

Definition sort_with {A : Type} (le : A → A → bool) (l : list A) : list A :=
  foldr (insert_sorted le) [] l.

(** ** [database/manager.py]: the [jobs] table *)

(** The table: its rows in rowid order, and the largest rowid ever given
    out (the AUTOINCREMENT counter). *)
Record table : Type := Table {
  rows : list row;
  last_rowid : Z
}.

Definition empty_table : table := Table [] 0.

(** The columns that the INSERT statement lists, in its order. *)
Definition insert_columns : list string :=
  [ "site"; "job_url"; "job_url_direct"; "title"; "company_name"; "location";
    "job_type"; "date_posted"; "interval"; "min_amount"; "max_amount"; "currency";
    "is_remote"; "job_level"; "job_function"; "company_industry"; "listing_type";
    "emails"; "description"; "company_url"; "company_url_direct"; "company_addresses";
    "company_num_employees"; "company_revenue"; "company_description";
    "logo_photo_url"; "banner_photo_url"; "ceo_name"; "ceo_photo_url";
    "compensation_interval"; "salary_source"; "company_rating"; "skills";
    "experience_range" ].

(** [UNIQUE(job_url, site)]: two rows collide when both columns are equal
    (and therefore not NULL) in the sense of SQL. *)
Definition unique_conflict (new old : row) : bool :=
  bool_decide (sql_eq (col new "job_url") (col old "job_url") = Some true)
  && bool_decide (sql_eq (col new "site") (col old "site") = Some true).

(** [site TEXT NOT NULL], [job_url TEXT NOT NULL]. *)
Definition not_null_violation (new : row) : bool :=
  is_null (col new "site") || is_null (col new "job_url").

(** [INSERT OR IGNORE INTO jobs (...) VALUES (...)]: the new table and
    [cursor.rowcount].  [clock id] is CURRENT_TIMESTAMP when the row with
    rowid [id] is created. *)
Definition insert_or_ignore (clock : Z → string) (values : row) (t : table)
  : table * Z :=
  if not_null_violation values || existsb (unique_conflict values) (rows t)
  then (t, 0%Z)
  else
    let id := (last_rowid t + 1)%Z in
    let new := <["id" := SqlInt id]> (<["scraped_at" := SqlText (clock id)]> values) in
    (Table (rows t ++ [new]) id, 1%Z).

(** [range(0, len(l), size)] with the slices [l[i:i + size]]. *)
Fixpoint batches_upto {A : Type} (fuel size : nat) (l : list A) : list (list A) :=
  match fuel, l with
  | S fuel', _ :: _ => take size l :: batches_upto fuel' size (drop size l)
  | _, _ => []
  end.

Definition batches {A : Type} (size : nat) (l : list A) : list (list A) :=
  batches_upto (length l) size l.

(** The local variables of [insert_jobs] that its loop updates. *)
Record insert_state : Type := InsertState {
  jobs_table : table;
  inserted_count : Z;
  skipped_count : Z
}.

Section InsertJobs.
Context `{Runtime}.

(** The tuple of parameters of the INSERT, by column. *)
Definition insert_parameters (sanitized_job : gmap string pyval) : result row :=
  for_each (λ (acc : row) column,
              v ← sql_bind (dict_get sanitized_job column);
              Ok (<[column := v]> acc))
           insert_columns ∅.

(** The body of [for job_data in batch], with its [try]/[except Exception]:
    when anything in the body raises, the record is passed over and the
    counters keep their values. *)
Definition insert_job (clock : Z → string) (s : insert_state)
    (job_data : gmap string pyval) : insert_state :=
  let attempt : result insert_state :=
    let location := dict_get job_data "location" in
    outside ← (if py_truthy location
               then ok ← validate_sea_country location; Ok (negb ok)
               else Ok false);
    if (outside : bool) then
      Ok (InsertState (jobs_table s) (inserted_count s) (skipped_count s + 1))
    else
      sanitized_job ← sanitize_job_data job_data;
      values ← insert_parameters sanitized_job;
      let '(t, rowcount) := insert_or_ignore clock values (jobs_table s) in
      if (0 <? rowcount)%Z
      then Ok (InsertState t (inserted_count s + 1) (skipped_count s))
      else Ok (InsertState t (inserted_count s) (skipped_count s))
  in
  match attempt with
  | Ok s' => s'
  | Raise _ => s
  end.

(** The two nested loops of [insert_jobs]; [conn.commit()] and
    [gc.collect()] after each batch leave the state as it is. *)
Definition insert_loop (clock : Z → string) (jobs_data : list (gmap string pyval))
    (t : table) : insert_state :=
  foldl (λ s batch, foldl (insert_job clock) s batch)
        (InsertState t 0 0) (batches 50 jobs_data).

(** [DatabaseManager.insert_jobs(jobs_data)]: the table afterwards and the
    returned number of inserted rows. *)
Definition insert_jobs (clock : Z → string) (jobs_data : list (gmap string pyval))
    (t : table) : table * Z :=
  match jobs_data with
  | [] => (t, 0%Z)
  | _ =>
      let s := insert_loop clock jobs_data t in
      (jobs_table s, inserted_count s)
  end.

End InsertJobs.

(** ** [database/manager.py]: [search_jobs] *)

(** The conditions that [search_jobs] puts in its WHERE clause, over
    parameters of type [P]: Python values when the clause is built, SQL
    values once the statement is executed. *)
Inductive sqlexpr (P : Type) : Type :=
| ELike (column : string) (param : P)
| EEq (column : string) (param : P)
| EGe (column : string) (param : P)
| ELe (column : string) (param : P)
| EOr (a b : sqlexpr P).

Arguments ELike {P} column param.
Arguments EEq {P} column param.
Arguments EGe {P} column param.
Arguments ELe {P} column param.
Arguments EOr {P} a b.

(** The columns declared TEXT in [DEFAULT_DB_SCHEMA]; the others are
    [id] and [is_remote] (INTEGER), [min_amount], [max_amount] and
    [company_rating] (REAL) and [scraped_at] (TIMESTAMP). *)
Definition text_columns : list string :=
  "site" :: "job_url" :: "title" :: string_fields.

Definition valid_sort_fields : list string :=
  [ "title"; "company_name"; "location"; "min_amount"; "max_amount";
    "date_posted"; "scraped_at" ].

Fixpoint bind_expr (e : sqlexpr pyval) : result (sqlexpr sqlval) :=
  match e with
  | ELike c p => v ← sql_bind p; Ok (ELike c v)
  | EEq c p => v ← sql_bind p; Ok (EEq c v)
  | EGe c p => v ← sql_bind p; Ok (EGe c v)
  | ELe c p => v ← sql_bind p; Ok (ELe c v)
  | EOr a b => a' ← bind_expr a; b' ← bind_expr b; Ok (EOr a' b')
  end.

(** Binding the parameters of the whole clause, left to right. *)
Definition bind_where (conditions : list (sqlexpr pyval))
  : result (list (sqlexpr sqlval)) :=
  for_each (λ acc e, e' ← bind_expr e; Ok (acc ++ [e'])) conditions [].

(** [filters.get(key)] under [if]: the value when it is true. *)
Definition filter_value (filters : gmap string pyval) (key : string) : option pyval :=
  let v := dict_get filters key in
  if py_truthy v then Some v else None.

Section SearchJobs.
Context `{Runtime}.

(** A number becomes text when it meets a column of TEXT affinity, or
    [LIKE]. *)
Definition sql_to_text (v : sqlval) : sqlval :=
  match v with
  | SqlInt z => SqlText (pretty z)
  | SqlReal f => SqlText (sql_text_of_real f)
  | _ => v
  end.

(** The parameter as the comparison with column [c] sees it.  The numeric
    columns are compared with numbers and with time stamps only, which
    their affinity leaves as they are. *)
Definition with_affinity (c : string) (param : sqlval) : sqlval :=
  if bool_decide (c ∈ text_columns) then sql_to_text param else param.

Fixpoint eval_expr (e : sqlexpr sqlval) (r : row) : option bool :=
  match e with
  | ELike c p =>
      match sql_to_text (col r c), sql_to_text p with
      | SqlText text, SqlText pattern => Some (like_match pattern text)
      | _, _ => None
      end
  | EEq c p => sql_eq (col r c) (with_affinity c p)
  | EGe c p => sql_ge (col r c) (with_affinity c p)
  | ELe c p => sql_le (col r c) (with_affinity c p)
  | EOr a b => sql_or (eval_expr a r) (eval_expr b r)
  end.

(** The conditions joined by AND select a row when each of them is true;
    no condition at all is the clause [1=1]. *)
Definition where_holds (conditions : list (sqlexpr sqlval)) (r : row) : bool :=
  forallb (λ e, bool_decide (eval_expr e r = Some true)) conditions.

(** One [if filters.get(key): where_conditions.append(...)] step. *)
Definition add_condition (filters : gmap string pyval) (key : string)
    (make : pyval → result (list (sqlexpr pyval)))
    (where_conditions : list (sqlexpr pyval)) : result (list (sqlexpr pyval)) :=
  match filter_value filters key with
  | Some v => new ← make v; Ok (where_conditions ++ new)
  | None => Ok where_conditions
  end.

Definition like_parameter (v : pyval) : pyval :=
  PyStr ("%" +:+ py_str v +:+ "%").

(** The part of [search_jobs] that builds [where_conditions] and
    [params]. *)
Definition build_where (filters : gmap string pyval) : result (list (sqlexpr pyval)) :=
  w ← add_condition filters "title"
        (λ v, Ok [ELike "title" (like_parameter v)]) [];
  w ← add_condition filters "company"
        (λ v, Ok [ELike "company_name" (like_parameter v)]) w;
  w ← add_condition filters "location"
        (λ v, Ok [ELike "location" (like_parameter v)]) w;
  w ← add_condition filters "country"
        (λ v, Ok [ELike "location" (like_parameter v)]) w;
  w ← add_condition filters "job_type" (λ v, Ok [EEq "job_type" v]) w;
  w ← add_condition filters "site" (λ v, Ok [EEq "site" v]) w;
  w ← add_condition filters "is_remote"
        (λ v, Ok [EEq "is_remote"
                    (PyInt (if String.eqb (lower (py_str v)) "true" then 1 else 0))]) w;
  w ← add_condition filters "min_salary"
        (λ v, f ← py_float v;
              Ok [EOr (EGe "min_amount" (PyFloat f)) (EGe "max_amount" (PyFloat f))]) w;
  w ← add_condition filters "max_salary"
        (λ v, f ← py_float v;
              Ok [EOr (ELe "min_amount" (PyFloat f)) (ELe "max_amount" (PyFloat f))]) w;
  add_condition filters "days_old"
        (λ v, n ← py_int v;
              match cutoff_date n with
              | Some text => Ok [EGe "scraped_at" (PyStr text)]
              | None => Raise OverflowError
              end) w.

(** [s.upper()] on whatever the dictionary holds. *)
Definition py_upper (v : pyval) : result string :=
  match v with
  | PyStr s => Ok (upper s)
  | _ => Raise AttributeError
  end.

(** [sort_by] after the test against [valid_sort_fields]. *)
Definition resolve_sort_by (sort_by : pyval) : string :=
  match sort_by with
  | PyStr s => if bool_decide (s ∈ valid_sort_fields) then s else "scraped_at"
  | _ => "scraped_at"
  end.

Definition resolve_sort_order (sort_order : string) : string :=
  if bool_decide (sort_order ∈ ["ASC"; "DESC"]) then sort_order else "DESC".

(** [a] may come before [b] under [ORDER BY sort_by sort_order]. *)
Definition order_le (sort_by sort_order : string) (a b : row) : bool :=
  if String.eqb sort_order "ASC"
  then match order_compare (col a sort_by) (col b sort_by) with Gt => false | _ => true end
  else match order_compare (col b sort_by) (col a sort_by) with Gt => false | _ => true end.

Definition order_by (sort_by sort_order : string) (l : list row) : list row :=
  sort_with (order_le sort_by sort_order) l.

(** [DatabaseManager.search_jobs(filters, page, per_page)]: the page of
    rows and [total_count]. *)
Definition search_jobs (filters : gmap string pyval) (page per_page : Z) (t : table)
  : result (list row * Z) :=
  where_conditions ← build_where filters;
  let sort_by := dict_get_default filters "sort_by" (PyStr "scraped_at") in
  sort_order ← py_upper (dict_get_default filters "sort_order" (PyStr "desc"));
  let sort_by := resolve_sort_by sort_by in
  let sort_order := resolve_sort_order sort_order in
  params ← bind_where where_conditions;
  let selected := List.filter (where_holds params) (rows t) in
  let total_count := Z.of_nat (length selected) in
  let offset := ((page - 1) * per_page)%Z in
  _ ← sql_bind (PyInt per_page);
  _ ← sql_bind (PyInt offset);
  Ok (limit_offset per_page offset (order_by sort_by sort_order selected), total_count).

End SearchJobs.

(** ** [database/manager.py]: [get_statistics] *)

(** The dictionary under ['salary_stats']. *)
Record salary_stats : Type := SalaryStats {
  avg_min_salary : pyval;
  avg_max_salary : pyval;
  min_salary : pyval;
  max_salary : pyval;
  jobs_with_salary : Z;
  percentage_with_salary : pyval
}.

(** The dictionary that [get_statistics] returns. *)
Record statistics : Type := Statistics {
  total_jobs : Z;
  jobs_by_country : list (string * Z);
  jobs_by_site : list (sqlval * Z);
  remote_percentage : pyval;
  salary : salary_stats
}.

(** [a / b] on integers: [ZeroDivisionError] for a zero divisor, else the
    quotient as a double. *)
Definition py_truediv (a b : Z) : result spec_float :=
  if (b =? 0)%Z then Raise ZeroDivisionError
  else Ok (float_div (float_of_Z a) (float_of_Z b)).

(** A value of a result row as Python receives it. *)
Definition py_of_sql (v : sqlval) : pyval :=
  match v with
  | SqlNull => PyNone
  | SqlInt z => PyInt z
  | SqlReal f => PyFloat f
  | SqlText s => PyStr s
  end.

(** The numbers that an aggregate over a REAL column takes in: the values
    that are not NULL. *)
Definition column_numbers (c : string) (l : list row) : list spec_float :=
  omap (λ r : row,
          match col r c with
          | SqlReal f => Some f
          | SqlInt z => Some (float_of_Z z)
          | _ => None
          end) l.

(** [MIN] and [MAX] of a list of doubles; NULL when it is empty. *)
Definition sql_min (l : list spec_float) : sqlval :=
  match l with
  | [] => SqlNull
  | x :: l' =>
      SqlReal (foldl (λ m y, match float_compare y m with Lt => y | _ => m end) x l')
  end.

Definition sql_max (l : list spec_float) : sqlval :=
  match l with
  | [] => SqlNull
  | x :: l' =>
      SqlReal (foldl (λ m y, match float_compare y m with Gt => y | _ => m end) x l')
  end.

(** The number of elements of [l] equal to [x]. *)
Definition count_eq {A : Type} `{EqDecision A} (x : A) (l : list A) : Z :=
  Z.of_nat (length (List.filter (λ y, bool_decide (y = x)) l)).

(** [SELECT key, COUNT( * ) ... GROUP BY key ORDER BY COUNT( * ) DESC] over the
    keys of the rows: the groups come in key order and are then sorted by
    falling count. *)
Definition group_counts {A : Type} `{EqDecision A} (key_le : A → A → bool)
    (keys : list A) : list (A * Z) :=
  sort_with (λ a b : A * Z, (snd b <=? snd a)%Z)
    ((λ k, (k, count_eq k keys)) <$> remove_dups (sort_with key_le keys)).

Section GetStatistics.
Context `{Runtime}.

Definition location_like (pattern : string) (r : row) : bool :=
  bool_decide (eval_expr (ELike "location" (SqlText pattern)) r = Some true).

(** The CASE expression that derives the country of a row. *)
Definition country_bucket (r : row) : string :=
  if location_like "%Singapore%" r then "Singapore"
  else if location_like "%Indonesia%" r || location_like "%Jakarta%" r then "Indonesia"
  else if location_like "%Malaysia%" r || location_like "%Kuala Lumpur%" r then "Malaysia"
  else if location_like "%Thailand%" r || location_like "%Bangkok%" r then "Thailand"
  else if location_like "%Vietnam%" r || location_like "%Ho Chi Minh%" r
          || location_like "%Hanoi%" r then "Vietnam"
  else "Other".

(** [round(x or 0, ndigits)] on a value of an aggregate. *)
Definition round_or_zero (x : pyval) (ndigits : Z) : pyval :=
  match (if py_truthy x then x else PyInt 0) with
  | PyFloat f => PyFloat (py_round f ndigits)
  | v => v
  end.

(** A double that SQLite hands back: a NaN comes back as NULL. *)
Definition sql_real (f : spec_float) : sqlval :=
  if is_nan f then SqlNull else SqlReal f.

Definition sql_avg_column (c : string) (l : list row) : sqlval :=
  match column_numbers c l with
  | [] => SqlNull
  | numbers => sql_real (sql_avg numbers)
  end.

Definition has_salary (r : row) : bool :=
  negb (is_null (col r "min_amount")) || negb (is_null (col r "max_amount")).

(** [DatabaseManager.get_statistics()]. *)
Definition get_statistics (t : table) : result statistics :=
  let total_jobs := Z.of_nat (length (rows t)) in
  let jobs_by_country :=
    group_counts String.leb (country_bucket <$> rows t) in
  let jobs_by_site :=
    group_counts (λ a b, match order_compare a b with Gt => false | _ => true end)
                 ((λ r : row, col r "site") <$> rows t) in
  let remote_count :=
    Z.of_nat (length (List.filter
      (λ r, bool_decide (eval_expr (EEq "is_remote" (SqlInt 1)) r = Some true))
      (rows t))) in
  remote_percentage ←
    (if (0 <? total_jobs)%Z
     then q ← py_truediv remote_count total_jobs;
          Ok (PyFloat (float_mul q (float_of_Z 100)))
     else Ok (PyInt 0));
  let with_salary := List.filter has_salary (rows t) in
  let salary_row :=
    ( sql_avg_column "min_amount" with_salary,
      sql_avg_column "max_amount" with_salary,
      sql_min (column_numbers "min_amount" with_salary),
      sql_max (column_numbers "max_amount" with_salary),
      Z.of_nat (length with_salary) ) in
  let '(avg_min, avg_max, min_s, max_s, n) := salary_row in
  salary_stats ←
    (if (0 <? n)%Z then
       percentage ←
         (if (0 <? total_jobs)%Z
          then q ← py_truediv n total_jobs;
               Ok (PyFloat (py_round (float_mul q (float_of_Z 100)) 1))
          else Ok (PyInt 0));
       Ok (SalaryStats (round_or_zero (py_of_sql avg_min) 2)
                       (round_or_zero (py_of_sql avg_max) 2)
                       (py_of_sql min_s) (py_of_sql max_s) n percentage)
     else
       Ok (SalaryStats (PyInt 0) (PyInt 0) (PyInt 0) (PyInt 0) 0 (PyInt 0)));
  Ok (Statistics total_jobs jobs_by_country jobs_by_site remote_percentage salary_stats).

End GetStatistics.

(** ** [core/scraper.py] *)

(** One call of the external [jobspy.scrape_jobs]. *)
Record scrape_call : Type := ScrapeCall {
  call_site : string;
  call_search_term : string;
  call_location : string;
  call_results_wanted : Z;
  call_job_type : option string;
  call_hours_old : option Z;
  call_country_indeed : option string
}.

Section JobScraper.
Context `{Runtime}.

(** The external scraping library: for a call, the records of the data
    frame it returns ([jobs_df.to_dict('records')], empty for [None] and for
    an empty frame), or the exception it raises. *)
Variable jobspy_scrape_jobs : scrape_call → result (list (gmap string pyval)).

(** [JobScraper.scrape_site_with_logging]: the records kept, and the
    external calls made. *)
Definition scrape_site_with_logging (site search_term location : string)
    (results_wanted : Z) (job_type : option string) (hours_old : option Z)
  : list (gmap string pyval) * list scrape_call :=
  let call :=
    ScrapeCall site search_term location results_wanted job_type hours_old
      (if str_in "singapore" (lower location) then Some "Singapore" else None) in
  let attempt : result (list (gmap string pyval)) :=
    jobs_list ← jobspy_scrape_jobs call;
    match jobs_list with
    | [] => Ok []
    | _ =>
        for_each (λ sea_jobs job,
                    let location := dict_get job "location" in
                    keep ← (if py_truthy location
                            then validate_sea_country location
                            else Ok false);
                    Ok (if (keep : bool) then sea_jobs ++ [job] else sea_jobs))
                 jobs_list []
    end
  in
  (match attempt with Ok sea_jobs => sea_jobs | Raise _ => [] end, [call]).

(** The local variables of the loop over [sites]. *)
Definition scrape_sites (search_term location : string) (results_per_site : Z)
    (sites : list string) (job_type : option string) (hours_old : option Z)
  : list (gmap string pyval) * list scrape_call :=
  foldl (λ (acc : list (gmap string pyval) * list scrape_call) site,
           let '(site_jobs, calls) :=
             scrape_site_with_logging site search_term location results_per_site
               job_type hours_old in
           (fst acc ++ site_jobs, snd acc ++ calls))
        ([], []) sites.

(** [JobScraper.scrape_jobs]: what the call returns or raises, the table
    afterwards, and the external calls it made, in order.  The pauses
    between sites and the log lines are left out, except for the average
    per site, whose division by [len(sites)] can raise. *)
Definition scrape_jobs (clock : Z → string) (search_term location : string)
    (results_per_site : Z) (sites : option (list string))
    (job_type : option string) (hours_old : option Z) (t : table)
  : result Z * table * list scrape_call :=
  let sites := default ["indeed"; "linkedin"] sites in
  let '(is_valid, error_msg) :=
    validate_search_params search_term location results_per_site in
  if negb is_valid then (Raise (ValueError error_msg), t, [])
  else
    let '(all_jobs, calls) :=
      scrape_sites search_term location results_per_site sites job_type hours_old in
    match sites with
    | [] => (Raise ZeroDivisionError, t, calls)
    | _ =>
        match all_jobs with
        | [] => (Ok 0%Z, t, calls)
        | _ =>
            let '(t', inserted_count) := insert_jobs clock all_jobs t in
            (Ok inserted_count, t', calls)
        end
    end.

End JobScraper.

(** ** [api/app.py]: the query side of [get_jobs] *)

(** The ['pagination'] dictionary of the response. *)
Record pagination : Type := Pagination {
  pg_page : Z;
  pg_per_page : Z;
  pg_total_count : Z;
  pg_total_pages : Z;
  pg_has_next : bool;
  pg_has_prev : bool
}.

#[export] Instance pagination_eq_dec : EqDecision pagination.
Proof. solve_decision. Defined.

Definition filter_keys : list string :=
  [ "title"; "company"; "location"; "country"; "job_type"; "site"; "is_remote";
    "min_salary"; "max_salary"; "days_old" ].

Section Api.
Context `{Runtime}.

(** [int(request.args.get(key, dflt))]. *)
Definition int_arg (args : gmap string string) (key : string) (dflt : Z) : result Z :=
  match args !! key with
  | Some text => py_int (PyStr text)
  | None => Ok dflt
  end.

(** The dictionary [filters] of [get_jobs] once the [None] values are
    removed: the query arguments that are present, and the two sort keys
    with their defaults. *)
Definition request_filters (args : gmap string string) : gmap string pyval :=
  <["sort_order" := PyStr (default "desc" (args !! "sort_order"))]>
    (<["sort_by" := PyStr (default "scraped_at" (args !! "sort_by"))]>
       (foldl (λ (acc : gmap string pyval) key,
                 match args !! key with
                 | Some text => <[key := PyStr text]> acc
                 | None => acc
                 end) ∅ filter_keys)).

(** [get_jobs]: the rows and the pagination of the JSON answer; [Raise]
    is the answer with status 500.  The display strings that the handler
    adds to every row are not modelled. *)
Definition get_jobs (max_results_per_request : Z) (args : gmap string string)
    (t : table) : result (list row * pagination) :=
  let filters := request_filters args in
  page ← int_arg args "page" 1;
  requested ← int_arg args "per_page" 20;
  let per_page := Z.min requested max_results_per_request in
  '(jobs, total_count) ← search_jobs filters page per_page t;
  total_pages ←
    (if (per_page =? 0)%Z then Raise ZeroDivisionError
     else Ok ((total_count + per_page - 1) / per_page)%Z);
  Ok (jobs, Pagination page per_page total_count total_pages
              (page <? total_pages)%Z (1 <? page)%Z).

End Api.

(** ** Notions of the specification *)

(** Two characters that are the same letter up to case: equal, or an
    upper-case ASCII letter and its lower-case form. *)
Definition is_upper_letter (c : ascii) : Prop :=
  (65 <= N_of_ascii c <= 90)%N.

Definition same_letter (c d : ascii) : Prop :=
  c = d
  ∨ (is_upper_letter c ∧ N_of_ascii d = N_of_ascii c + 32)%N
  ∨ (is_upper_letter d ∧ N_of_ascii c = N_of_ascii d + 32)%N.

(** Equality of strings up to the case of letters. *)
Inductive eq_nocase : string → string → Prop :=
| eq_nocase_empty : eq_nocase EmptyString EmptyString
| eq_nocase_cons c d s t :
    same_letter c d → eq_nocase s t → eq_nocase (String c s) (String d t).

(** [word] occurs in [text] as a substring, up to the case of letters. *)
Definition contains_nocase (word text : string) : Prop :=
  ∃ before middle after,
    text = before +:+ middle +:+ after ∧ eq_nocase middle word.

(** [alias] is in the alias table of one of the recognised countries. *)
Definition is_alias (alias : string) : Prop :=
  ∃ country cities, (country, cities) ∈ SEA_COUNTRIES ∧ alias ∈ cities.

(** The location names one of the five countries, up to case. *)
Definition names_country (location : string) : Prop :=
  ∃ country,
    country ∈ ["Indonesia"; "Malaysia"; "Thailand"; "Vietnam"; "Singapore"]
    ∧ contains_nocase country location.

(** A string that is empty or made of white space only. *)
Fixpoint blank (s : string) : Prop :=
  match s with
  | EmptyString => True
  | String c s' => is_space c = true ∧ blank s'
  end.

(** The (job_url, site) pair of a row. *)
Definition row_key (r : row) : sqlval * sqlval := (col r "job_url", col r "site").

(** The guarantees of the schema that matter for uniqueness: [job_url] and
    [site] hold text in every row, and no pair occurs twice. *)
Definition table_unique (t : table) : Prop :=
  Forall (λ r : row, ∃ url site, row_key r = (SqlText url, SqlText site)) (rows t)
  ∧ NoDup (row_key <$> rows t).

(** ** A runtime for closed examples

    Numerals are read as decimal integers only, doubles print as a fixed
    word, rounding is the identity and the clock stands still.  The
    examples below that name this runtime do not depend on these choices
    beyond what their statements show. *)

Definition digit_value (c : ascii) : option Z :=
  let n := N_of_ascii c in
  if ((48 <=? n) && (n <=? 57))%N then Some (Z.of_N (n - 48)) else None.

Fixpoint read_digits (acc : Z) (s : string) : option Z :=
  match s with
  | EmptyString => Some acc
  | String c s' => d ← digit_value c; read_digits (10 * acc + d) s'
  end.

Definition read_integer (s : string) : option Z :=
  match strip s with
  | EmptyString => None
  | String "-" (String c s') => Z.opp <$> read_digits 0 (String c s')
  | String c s' => read_digits 0 (String c s')
  end.

Definition example_runtime : Runtime := {|
  float_of_str := λ s, float_of_Z <$> read_integer s;
  str_of_float := λ _, "float";
  int_of_str := read_integer;
  py_round := λ f _, f;
  cutoff_date := λ _, Some "2024-01-01 00:00:00";
  sql_avg := λ l, default (S754_zero false) (head l);
  sql_text_of_real := λ _, "real"
|}.

Definition example_clock : Z → string := λ _, "2024-06-01 12:00:00".

(** ** Auxiliary notions of the proofs *)

(** The one way for [float] to leave [sanitize_numeric] with an exception:
    an integer beyond the range of a double. *)
Definition float_overflows (v : pyval) : bool :=
  match v with
  | PyInt z => is_infinite (float_of_Z z)
  | _ => false
  end.

(** What the body of the loop of [insert_jobs] decides about a record
    before it looks at the table. *)
Inductive job_plan : Type :=
| PlanSkip
| PlanFail
| PlanInsert (values : row).

(** The INSERT does nothing for these values in this table. *)
Definition blocked (values : row) (t : table) : bool :=
  not_null_violation values || existsb (unique_conflict values) (rows t).

(** The row that the INSERT creates with rowid [id]. *)
Definition stamped (clock : Z → string) (id : Z) (values : row) : row :=
  <["id" := SqlInt id]> (<["scraped_at" := SqlText (clock id)]> values).

(** The record has a location that the classifier rejects. *)
Definition outside_sea (job_data : gmap string pyval) : bool :=
  py_truthy (dict_get job_data "location")
  && match validate_sea_country (dict_get job_data "location") with
     | Ok false => true
     | _ => false
     end.


Section Plan.
Context `{Runtime}.

Definition plan_job (job_data : gmap string pyval) : job_plan :=
  let location := dict_get job_data "location" in
  match (if py_truthy location
         then ok ← validate_sea_country location; Ok (negb ok)
         else Ok false) with
  | Raise _ => PlanFail
  | Ok true => PlanSkip
  | Ok false =>
      match sanitize_job_data job_data ≫= insert_parameters with
      | Ok values => PlanInsert values
      | Raise _ => PlanFail
      end
  end.

End Plan.

(** The amount is a number that is at least (at most) [s]. *)
Definition amount_at_least (amount : sqlval) (s : spec_float) : Prop :=
  ∃ a, amount = SqlReal a ∧ SFleb s a = true.

Definition amount_at_most (amount : sqlval) (s : spec_float) : Prop :=
  ∃ a, amount = SqlReal a ∧ SFleb a s = true.

(** What a REAL column holds after an insertion: NULL, or a double that
    is not a NaN. *)
Definition stored_amount (v : sqlval) : Prop :=
  v = SqlNull ∨ ∃ a, v = SqlReal a ∧ is_nan a = false.

(** [a] may come before [b] in a result ordered by [field]. *)
Definition ordered_by (field : string) (descending : bool) (a b : row) : Prop :=
  if descending then order_compare (col b field) (col a field) ≠ Gt
  else order_compare (col a field) (col b field) ≠ Gt.

Section SearchPlan.
Context `{Runtime}.

(** What [search_jobs] works out from the filters before it runs its two
    queries: the bound conditions, the column and the direction of the
    order. *)
Definition search_plan (filters : gmap string pyval)
  : result (list (sqlexpr sqlval) * string * string) :=
  where_conditions ← build_where filters;
  sort_order ← py_upper (dict_get_default filters "sort_order" (PyStr "desc"));
  params ← bind_where where_conditions;
  Ok (params,
      resolve_sort_by (dict_get_default filters "sort_by" (PyStr "scraped_at")),
      resolve_sort_order sort_order).

(** All the rows that the filters select, in the order asked for. *)
Definition search_ordered (filters : gmap string pyval) (t : table)
  : result (list row) :=
  '(params, sort_by, sort_order) ← search_plan filters;
  Ok (order_by sort_by sort_order (List.filter (where_holds params) (rows t))).

End SearchPlan.

(** The parameter that a float of a salary filter is bound to. *)
Definition salary_parameter (s : spec_float) : sqlval :=
  if is_nan s then SqlNull else SqlReal s.

(** The salary statistics of a table without salary data. *)
Definition zero_salary_stats : salary_stats :=
  SalaryStats (PyInt 0) (PyInt 0) (PyInt 0) (PyInt 0) 0 (PyInt 0).

(** ** Example data *)

Definition job_singapore : gmap string pyval :=
  {[ "site" := PyStr "indeed"; "job_url" := PyStr "https://example.com/jobs/1";
     "title" := PyStr "Developer"; "location" := PyStr "Singapore" ]}.

Definition job_new_york : gmap string pyval :=
  {[ "site" := PyStr "indeed"; "job_url" := PyStr "https://example.com/jobs/2";
     "title" := PyStr "Developer"; "location" := PyStr "New York" ]}.


(** A stored row with a salary of 1000 to 2000. *)
Definition row_zeta : row :=
  {[ "id" := SqlInt 1; "site" := SqlText "indeed";
     "job_url" := SqlText "https://example.com/jobs/1";
     "title" := SqlText "Developer"; "company_name" := SqlText "Zeta";
     "location" := SqlText "Singapore";
     "min_amount" := SqlReal (float_of_Z 1000);
     "max_amount" := SqlReal (float_of_Z 2000);
     "is_remote" := SqlInt 0; "scraped_at" := SqlText "2024-05-01 08:00:00" ]}.

(** A stored row without salary data, scraped a day later. *)
Definition row_alpha : row :=
  {[ "id" := SqlInt 2; "site" := SqlText "linkedin";
     "job_url" := SqlText "https://example.com/jobs/2";
     "title" := SqlText "Analyst"; "company_name" := SqlText "Alpha";
     "location" := SqlText "Jakarta, Indonesia";
     "is_remote" := SqlInt 0; "scraped_at" := SqlText "2024-05-02 08:00:00" ]}.

Definition two_rows : table := Table [row_zeta; row_alpha] 2.

(** ** [utils/validation.py]: [get_sea_location_for_scraping] *)

(** The dictionary literal [location_map]. *)
Definition location_map : gmap string string :=
  {[ "Indonesia" := "Jakarta, Indonesia";
     "Malaysia" := "Kuala Lumpur, Malaysia";
     "Thailand" := "Bangkok, Thailand";
     "Vietnam" := "Ho Chi Minh City, Vietnam";
     "Singapore" := "Singapore" ]}.

(** [get_sea_location_for_scraping(country)]:
    [location_map.get(country, country)]. *)
Definition get_sea_location_for_scraping (country : string) : string :=
  default country (location_map !! country).

(** ** [utils/constants.py]: the scraping configuration *)

(** An entry of [SEA_SCRAPING_CONFIG]. *)
Record country_config : Type := CountryConfig {
  config_location : string;
  config_search_terms : list string;
  config_sites : list string
}.

(** The dictionary literal [SEA_SCRAPING_CONFIG], in insertion order. *)
Definition SEA_SCRAPING_CONFIG : list (string * country_config) :=
  [ ("Indonesia",
     CountryConfig "Jakarta, Indonesia"
       ["software engineer"; "developer"; "data analyst"] ["indeed"; "linkedin"]);
    ("Malaysia",
     CountryConfig "Kuala Lumpur, Malaysia"
       ["software engineer"; "developer"; "data analyst"] ["indeed"; "linkedin"]);
    ("Thailand",
     CountryConfig "Bangkok, Thailand"
       ["software engineer"; "developer"; "data analyst"] ["indeed"; "linkedin"]);
    ("Vietnam",
     CountryConfig "Ho Chi Minh City, Vietnam"
       ["software engineer"; "developer"; "data analyst"] ["indeed"; "linkedin"]);
    ("Singapore",
     CountryConfig "Singapore"
       ["software engineer"; "developer"; "data analyst"; "product manager"]
       ["indeed"; "linkedin"]) ].

(** [MEMORY_OPTIMIZED_CONFIG['max_results_per_site']]. *)
Definition max_results_per_site : Z := 25.

(** [SEA_SCRAPING_CONFIG[country]], when the key is there. *)
Fixpoint config_of (config : list (string * country_config)) (country : string)
  : option country_config :=
  match config with
  | [] => None
  | (name, entry) :: config' =>
      if String.eqb name country then Some entry else config_of config' country
  end.

(** ** [database/manager.py]: [cleanup_old_jobs] and [get_filter_options] *)

#[export] Instance table_eq_dec : EqDecision table.
Proof. solve_decision. Defined.

(** The SQL operator [<]. *)
Definition sql_lt (a b : sqlval) : option bool :=
  c ← sql_compare a b; Some (match c with Lt => true | _ => false end).

(** The dictionary that [get_filter_options] returns. *)
Record filter_options : Type := FilterOptions {
  companies : list sqlval;
  locations : list sqlval;
  job_types : list sqlval;
  sites : list sqlval
}.

(** [a] sorts before [b] or with it, under [ORDER BY]. *)
Definition order_leb (a b : sqlval) : bool :=
  match order_compare a b with Gt => false | _ => true end.

(** [SELECT DISTINCT]: of the values that compare equal, the first is
    kept. *)
Fixpoint sql_distinct (l : list sqlval) : list sqlval :=
  match l with
  | [] => []
  | x :: l' =>
      x :: List.filter
             (λ y, match order_compare x y with Eq => false | _ => true end)
             (sql_distinct l')
  end.

(** [SELECT DISTINCT c FROM jobs \[WHERE c IS NOT NULL\] ORDER BY c
    \[LIMIT n\]]. *)
Definition distinct_column (c : string) (not_null : bool) (limit : option nat)
    (l : list row) : list sqlval :=
  let values := (λ r : row, col r c) <$> l in
  let values := if not_null then List.filter (λ v, negb (is_null v)) values
                else values in
  let ordered := sort_with order_leb (sql_distinct values) in
  match limit with
  | Some n => take n ordered
  | None => ordered
  end.

(** [DatabaseManager.get_filter_options()]. *)
Definition get_filter_options (t : table) : filter_options :=
  FilterOptions
    (distinct_column "company_name" true (Some 100) (rows t))
    (distinct_column "location" true (Some 50) (rows t))
    (distinct_column "job_type" true None (rows t))
    (distinct_column "site" false None (rows t)).

Section CleanupOldJobs.
Context `{Runtime}.

(** The row is deleted by [DELETE FROM jobs WHERE scraped_at < ?]. *)
Definition older_than (cutoff : sqlval) (r : row) : bool :=
  bool_decide (sql_lt (col r "scraped_at") (with_affinity "scraped_at" cutoff)
               = Some true).

(** [DatabaseManager.cleanup_old_jobs(days)]: the table afterwards and the
    number of rows deleted.  The rowid counter of the table stays: a rowid
    is never given out twice. *)
Definition cleanup_old_jobs (days : Z) (t : table) : result (table * Z) :=
  match cutoff_date days with
  | None => Raise OverflowError
  | Some text =>
      cutoff ← sql_bind (PyStr text);
      let kept := List.filter (λ r, negb (older_than cutoff r)) (rows t) in
      Ok (Table kept (last_rowid t),
          Z.of_nat (length (List.filter (older_than cutoff) (rows t))))
  end.

End CleanupOldJobs.

(** ** [core/scheduler.py] *)

(** The dictionary that [run_daily_scraping] returns, without the elapsed
    time. *)
Record daily_summary : Type := DailySummary {
  daily_total_jobs : Z;
  daily_successful_jobs : Z;
  daily_failed_jobs : Z;
  daily_success_rate : pyval
}.

(** The local variables of [run_daily_scraping] that its loops update,
    with the table and the external calls made so far. *)
Record daily_state : Type := DailyState {
  daily_table : table;
  daily_calls : list scrape_call;
  successful_jobs : Z;
  failed_jobs : Z;
  scheduled_jobs : Z
}.

Section JobScheduler.
Context `{Runtime}.
Variable jobspy_scrape_jobs : scrape_call → result (list (gmap string pyval)).

(** [JobScheduler.run_scraping_job]: the returned flag, the table
    afterwards and the external calls made. *)
Definition run_scraping_job (clock : Z → string) (country search_term : string)
    (sites : list string) (max_results : Z) (t : table)
  : bool * table * list scrape_call :=
  match config_of SEA_SCRAPING_CONFIG country with
  | None => (false, t, [])
  | Some config =>
      let location := config_location config in
      let '(outcome, t', calls) :=
        scrape_jobs jobspy_scrape_jobs clock search_term location max_results
          (Some sites) None (Some 336%Z) t in
      match outcome with
      | Ok inserted_count => ((0 <=? inserted_count)%Z, t', calls)
      | Raise _ => (false, t', calls)
      end
  end.

(** The body of the loop over the search terms of a country. *)
Definition daily_step (clock : Z → string) (country : string)
    (config : country_config) (s : daily_state) (search_term : string)
  : daily_state :=
  let '(success, t, calls) :=
    run_scraping_job clock country search_term (config_sites config)
      max_results_per_site (daily_table s) in
  DailyState t (daily_calls s ++ calls)
    (if success then successful_jobs s + 1 else successful_jobs s)
    (if success then failed_jobs s else failed_jobs s + 1)
    (scheduled_jobs s + 1).

(** The two nested loops of [run_daily_scraping]. *)
Definition daily_loop (clock : Z → string)
    (config : list (string * country_config)) (s : daily_state) : daily_state :=
  foldl (λ s entry,
           foldl (daily_step clock (fst entry) (snd entry)) s
                 (config_search_terms (snd entry)))
        s config.

(** [JobScheduler.run_daily_scraping]: the summary, the table afterwards
    and the external calls.  The pauses, the memory clean-up and the log
    lines are left out, except for the success rate of the final log line,
    whose division by [total_jobs] can raise; the statistics read at the
    end sit in a [try] and change nothing. *)
Definition run_daily_scraping (clock : Z → string) (t : table)
  : result daily_summary * table * list scrape_call :=
  let s := daily_loop clock SEA_SCRAPING_CONFIG (DailyState t [] 0 0 0) in
  let summary : result daily_summary :=
    _ ← py_truediv (successful_jobs s) (scheduled_jobs s);
    success_rate ←
      (if (0 <? scheduled_jobs s)%Z
       then q ← py_truediv (successful_jobs s) (scheduled_jobs s);
            Ok (PyFloat (float_mul q (float_of_Z 100)))
       else Ok (PyInt 0));
    Ok (DailySummary (scheduled_jobs s) (successful_jobs s) (failed_jobs s)
          success_rate)
  in
  (summary, daily_table s, daily_calls s).

End JobScheduler.

(** ** Further notions of the proofs *)

(** The [id] of a row that has one. *)
Definition row_id (r : row) : Z :=
  match col r "id" with SqlInt id => id | _ => 0%Z end.

(** The primary key: every row has an integer [id], none is beyond the
    AUTOINCREMENT counter, and the ids grow along the table. *)
Definition table_ids (t : table) : Prop :=
  Forall (λ r : row, ∃ id, col r "id" = SqlInt id ∧ (id ≤ last_rowid t)%Z) (rows t)
  ∧ StronglySorted (λ a b : row, (row_id a < row_id b)%Z) (rows t).

(** The record is passed over because the body of the loop raises. *)
Definition record_fails `{Runtime} (job_data : gmap string pyval) : bool :=
  match plan_job job_data with PlanFail => true | _ => false end.

(** Text without white space at either end. *)
Definition stripped (s : string) : Prop := strip s = s.

(** What the INSERT statement of [insert_jobs] is given for a column, by
    the declared type of the column: stripped text in the three required
    columns, stripped text or NULL in the other TEXT columns, a double that
    is not a NaN or NULL in the REAL columns, 0 or 1 in [is_remote]. *)
Definition values_typed (r : row) : Prop :=
  (∀ c, c ∈ ["site"; "job_url"; "title"] →
        ∃ s, col r c = SqlText s ∧ stripped s)
  ∧ (∀ c, c ∈ string_fields →
          col r c = SqlNull ∨ ∃ s, col r c = SqlText s ∧ stripped s)
  ∧ (∀ c, c ∈ numeric_fields → stored_amount (col r c))
  ∧ (col r "is_remote" = SqlInt 0 ∨ col r "is_remote" = SqlInt 1).

(** A row as [insert_jobs] leaves it: typed values, an integer [id] and a
    text time stamp. *)
Definition row_typed (r : row) : Prop :=
  values_typed r
  ∧ (∃ id, col r "id" = SqlInt id)
  ∧ (∃ stamp, col r "scraped_at" = SqlText stamp).

(** [isinstance(v, str)]. *)
Definition is_str (v : pyval) : bool :=
  match v with PyStr _ => true | _ => false end.

(** A second record for the posting of [job_singapore], with another
    title. *)
Definition job_singapore_again : gmap string pyval :=
  <["title" := PyStr "Engineer"]> job_singapore.

(** The call of the external capability that [scrape_site_with_logging]
    makes for a site. *)
Definition site_call (site search_term location : string) (results_wanted : Z)
    (job_type : option string) (hours_old : option Z) : scrape_call :=
  ScrapeCall site search_term location results_wanted job_type hours_old
    (if str_in "singapore" (lower location) then Some "Singapore" else None).

(** The record has a location that the classifier accepts. *)
Definition sea_job (job : gmap string pyval) : bool :=
  py_truthy (dict_get job "location")
  && match validate_sea_country (dict_get job "location") with
     | Ok true => true
     | _ => false
     end.

(** The record has a location on which the classifier raises: a true
    value that is not a string. *)
Definition location_raises (job : gmap string pyval) : bool :=
  py_truthy (dict_get job "location") && negb (is_str (dict_get job "location")).

(** The text of the column holds a location of the region. *)
Definition sea_location (v : sqlval) : Prop :=
  ∃ s, v = SqlText s ∧ validate_sea_country (PyStr s) = Ok true.

(** The string begins with a character that is not white space. *)
Definition first_char_ok (s : string) : bool :=
  match s with
  | EmptyString => false
  | String c _ => negb (is_space c)
  end.

(** The string ends with a character that is not white space. *)
Fixpoint last_char_ok (s : string) : bool :=
  match s with
  | EmptyString => false
  | String c EmptyString => negb (is_space c)
  | String _ s' => last_char_ok s'
  end.

(** [t'] is [t] with rows added at its end, each with a location of the
    region, and without a second row for a (job_url, site) pair if [t] had
    none. *)
Definition table_extends (t t' : table) : Prop :=
  (∃ extra, rows t' = rows t ++ extra
            ∧ Forall (λ r : row, sea_location (col r "location")) extra)
  ∧ (table_unique t → table_unique t').

(** The calls of the external capability that the daily run of a
    configuration makes when every job goes through: for each country in
    turn, for each of its search terms, for each of its sites. *)
Definition daily_calls_of (config : list (string * country_config))
  : list scrape_call :=
  entry ← config;
  search_term ← config_search_terms (snd entry);
  site ← config_sites (snd entry);
  [site_call site search_term (config_location (snd entry))
     max_results_per_site None (Some 336%Z)].

(** The number of scraping jobs of a configuration: one for each search
    term of each country. *)
Definition daily_jobs_of (config : list (string * country_config)) : Z :=
  Z.of_nat (length (entry ← config; config_search_terms (snd entry))).

(** The entry of a configuration is one that [run_scraping_job] can work
    with: it is the entry that the configuration has for its country, the
    validation of [scrape_jobs] accepts each of its search terms with its
    location, and it has a site. *)
Definition entry_ready (entry : string * country_config) : Prop :=
  config_of SEA_SCRAPING_CONFIG (fst entry) = Some (snd entry)
  ∧ Forall (λ search_term,
              fst (validate_search_params search_term
                     (config_location (snd entry)) max_results_per_site) = true)
           (config_search_terms (snd entry))
  ∧ config_sites (snd entry) ≠ [].

(** A table with a row of November 2023 and a row of May 2024. *)
Definition row_old : row :=
  {[ "id" := SqlInt 1; "site" := SqlText "indeed";
     "job_url" := SqlText "https://example.com/jobs/0";
     "title" := SqlText "Tester"; "company_name" := SqlText "Omega";
     "location" := SqlText "Bangkok, Thailand";
     "is_remote" := SqlInt 0; "scraped_at" := SqlText "2023-11-30 08:00:00" ]}.

Definition old_and_new : table := Table [row_old; row_alpha] 2.

(** A list of options for column [c] of the rows [l]: no value twice, in
    ascending order, and every value taken from the column. *)
Definition options_of (c : string) (l : list row) (options : list sqlval) : Prop :=
  NoDup options
  ∧ Sorted (λ a b, order_compare a b ≠ Gt) options
  ∧ ∀ v, v ∈ options → ∃ r, r ∈ l ∧ col r c = v.

(** The sum of the counts of a breakdown. *)
Definition sum_counts {A : Type} (l : list (A * Z)) : Z :=
  foldr (λ p acc, (snd p + acc)%Z) 0%Z l.

(** A breakdown of [total] rows by a key: the counts add up to the total,
    no key comes twice, no count is 0, and the larger counts come
    first. *)
Definition breakdown {A : Type} (total : Z) (l : list (A * Z)) : Prop :=
  sum_counts l = total
  ∧ NoDup (fst <$> l)
  ∧ Forall (λ p : A * Z, (0 < snd p)%Z) l
  ∧ Sorted (λ a b : A * Z, (snd b ≤ snd a)%Z) l.

(** The text has no wildcard of [LIKE]. *)
Fixpoint plain_text (s : string) : bool :=
  match s with
  | EmptyString => true
  | String c s' =>
      negb (Ascii.eqb c "%") && negb (Ascii.eqb c "_") && plain_text s'
  end.

(** The filters that [search_jobs] turns into a [LIKE] condition, each
    with the column that it looks at. *)
Definition text_filters : list (string * string) :=
  [ ("title", "title"); ("company", "company_name"); ("location", "location");
    ("country", "location") ].


(** The string does not begin with white space. *)
Definition no_leading_space (s : string) : Prop :=
  match s with
  | EmptyString => True
  | String c _ => is_space c = false
  end.

(** * Proofs *)

(** ** Strings *)

Lemma N_of_ascii_bound c : (N_of_ascii c < 256)%N.
Proof. apply N_ascii_bounded. Qed.

Lemma lower_ascii_eq_iff c d :
  lower_ascii c = lower_ascii d ↔ same_letter c d.
Proof.
  unfold lower_ascii, same_letter, is_upper_letter.
  pose proof (N_of_ascii_bound c) as Hc. pose proof (N_of_ascii_bound d) as Hd.
  assert (Hinj : ∀ a b, N_of_ascii a = N_of_ascii b → a = b).
  { intros a b Hab. rewrite <- (ascii_N_embedding a), <- (ascii_N_embedding b).
    by rewrite Hab. }
  assert (Hemb : ∀ n, (n < 256)%N → N_of_ascii (ascii_of_N n) = n).
  { intros n Hn. by apply N_ascii_embedding. }
  assert (Hup : ∀ n, ((65 <=? n) && (n <=? 90))%N = true ↔ (65 ≤ n ≤ 90)%N).
  { intros n. by rewrite andb_true_iff, !N.leb_le. }
  destruct ((65 <=? N_of_ascii c) && (N_of_ascii c <=? 90))%N eqn:Ec;
    [apply Hup in Ec | apply not_true_iff_false in Ec; rewrite Hup in Ec];
    (destruct ((65 <=? N_of_ascii d) && (N_of_ascii d <=? 90))%N eqn:Ed;
     [apply Hup in Ed | apply not_true_iff_false in Ed; rewrite Hup in Ed]).
  - split.
    + intros Heq. left. apply Hinj.
      apply (f_equal N_of_ascii) in Heq. rewrite !Hemb in Heq by lia. lia.
    + intros [-> | [[_ Hx] | [_ Hx]]]; [done | lia | lia].
  - split.
    + intros Heq. right. left. split; [lia|].
      apply (f_equal N_of_ascii) in Heq. rewrite Hemb in Heq by lia. lia.
    + intros [-> | [[_ Hx] | [Hy Hx]]]; [lia | | lia].
      apply Hinj. rewrite Hemb by lia. lia.
  - split.
    + intros Heq. right. right. split; [lia|].
      apply (f_equal N_of_ascii) in Heq. rewrite Hemb in Heq by lia. lia.
    + intros [-> | [[Hy Hx] | [_ Hx]]]; [lia | lia |].
      apply Hinj. rewrite Hemb by lia. lia.
  - split.
    + intros ->. by left.
    + intros [-> | [[Hy Hx] | [Hy Hx]]]; [done | lia | lia].
Qed.

Lemma lower_eq_iff s t : lower s = lower t ↔ eq_nocase s t.
Proof.
  split.
  - revert t. induction s as [|c s IH]; intros [|d t] Heq; simplify_eq/=.
    + constructor.
    + constructor; [by apply lower_ascii_eq_iff | by apply IH].
  - induction 1 as [|c d s t Hcd _ IH]; [done|].
    simpl. f_equal; [by apply lower_ascii_eq_iff | done].
Qed.

Lemma append_String c s t : String c s +:+ t = String c (s +:+ t).
Proof. reflexivity. Qed.

Lemma append_empty s : EmptyString +:+ s = s.
Proof. reflexivity. Qed.

Lemma lower_app s t : lower (s +:+ t) = lower s +:+ lower t.
Proof.
  induction s as [|c s IH]; [done|].
  rewrite append_String. simpl. by rewrite IH.
Qed.

Lemma lower_app_inv s a b :
  lower s = a +:+ b → ∃ s1 s2, s = s1 +:+ s2 ∧ lower s1 = a ∧ lower s2 = b.
Proof.
  revert s. induction a as [|c a IH]; intros s Heq.
  - by exists EmptyString, s.
  - rewrite append_String in Heq. destruct s as [|d s]; simplify_eq/=.
    destruct (IH s) as (s1 & s2 & -> & <- & <-); [done|].
    by exists (String d s1), s2.
Qed.

Lemma startswith_spec p s : startswith p s = true ↔ ∃ t, s = p +:+ t.
Proof.
  revert s. induction p as [|a p IH]; intros s; simpl.
  - split; [by exists s | done].
  - destruct s as [|b s].
    + split; [done | by intros [t Ht]].
    + rewrite andb_true_iff, Ascii.eqb_eq, IH. split.
      * intros [-> [t ->]]. by exists t.
      * intros [t Ht]. rewrite append_String in Ht. simplify_eq.
        split; [done | by exists t].
Qed.

Lemma str_in_spec needle hay :
  str_in needle hay = true ↔ ∃ before after, hay = before +:+ needle +:+ after.
Proof.
  induction hay as [|c hay IH]; simpl.
  - rewrite orb_false_r, startswith_spec. split.
    + intros [t ->]. by exists EmptyString, t.
    + intros ([|b before] & after & Heq); [|by rewrite append_String in Heq].
      rewrite append_empty in Heq. by exists after.
  - rewrite orb_true_iff, startswith_spec, IH. split.
    + intros [[t ->] | (before & after & ->)].
      * by exists EmptyString, t.
      * by exists (String c before), after.
    + intros ([|b before] & after & Heq).
      * left. by exists after.
      * right. rewrite append_String in Heq. simplify_eq. by exists before, after.
Qed.

Lemma str_in_lower_spec word text :
  str_in (lower word) (lower text) = true ↔ contains_nocase word text.
Proof.
  rewrite str_in_spec. unfold contains_nocase. split.
  - intros (a & b & Heq).
    apply lower_app_inv in Heq as (s1 & s2 & -> & <- & Heq).
    apply lower_app_inv in Heq as (s3 & s4 & -> & Hw & <-).
    exists s1, s3, s4. split; [done | by apply lower_eq_iff].
  - intros (before & middle & after & -> & Hm).
    exists (lower before), (lower after).
    apply lower_eq_iff in Hm. by rewrite !lower_app, Hm.
Qed.

Lemma lstrip_blank s : str_empty (lstrip s) = true ↔ blank s.
Proof.
  induction s as [|c s IH]; simpl; [done|].
  destruct (is_space c); simpl; [rewrite IH; tauto | intuition discriminate].
Qed.

Lemma rstrip_blank s : str_empty (rstrip s) = true ↔ blank s.
Proof.
  induction s as [|c s IH]; simpl; [done|].
  destruct (is_space c); simpl; [|intuition discriminate].
  destruct (str_empty (rstrip s)); simpl; intuition discriminate.
Qed.

Lemma lstrip_blank_keep s : blank (lstrip s) ↔ blank s.
Proof.
  induction s as [|c s IH]; simpl; [done|].
  destruct (is_space c) eqn:E; simpl; [rewrite IH; tauto | rewrite E; tauto].
Qed.

Lemma strip_blank s : str_empty s || str_empty (strip s) = true ↔ blank s.
Proof.
  unfold strip. rewrite orb_true_iff, rstrip_blank, lstrip_blank_keep.
  split; [|by right]. intros [Hs | Hs]; [|done]. by destruct s.
Qed.

(** ** The Location Classifier *)

Lemma existsb_elem_of {A : Type} (f : A → bool) (l : list A) :
  existsb f l = true ↔ ∃ x, x ∈ l ∧ f x = true.
Proof.
  rewrite existsb_exists. split; intros (x & Hx & Hf); exists x; split; try done;
    by apply list_elem_of_In.
Qed.

Lemma contains_nocase_empty_text word :
  contains_nocase word EmptyString → word = EmptyString.
Proof.
  intros (before & middle & after & Heq & Hm).
  destruct before; [|done]. rewrite append_empty in Heq.
  destruct middle; [|done]. by inversion Hm.
Qed.

Lemma is_alias_nonempty alias : is_alias alias → alias ≠ EmptyString.
Proof.
  intros (country & cities & Hc & Ha) ->.
  unfold SEA_COUNTRIES in Hc.
  repeat (apply elem_of_cons in Hc as [Hc | Hc];
          [simplify_eq; by repeat (apply elem_of_cons in Ha as [Ha | Ha]; [done|]);
                       apply elem_of_nil in Ha |]).
  by apply elem_of_nil in Hc.
Qed.

Lemma validate_sea_country_str (location : string) :
  validate_sea_country (PyStr location)
  = Ok (negb (str_empty location)
        && existsb (λ entry : string * list string,
                      existsb (λ city, str_in (lower city) (lower location)) (snd entry))
                   SEA_COUNTRIES).
Proof. unfold validate_sea_country. simpl. by destruct location. Qed.

Lemma alias_scan_spec (location : string) :
  existsb (λ entry : string * list string,
             existsb (λ city, str_in (lower city) (lower location)) (snd entry))
          SEA_COUNTRIES = true
  ↔ ∃ alias, is_alias alias ∧ contains_nocase alias location.
Proof.
  rewrite existsb_elem_of. split.
  - intros ([country cities] & Hin & Hex). simpl in Hex.
    apply existsb_elem_of in Hex as (city & Hcity & Hfound).
    exists city. split; [by exists country, cities | by apply str_in_lower_spec].
  - intros (alias & (country & cities & Hin & Hcity) & Hfound).
    exists (country, cities). split; [done|]. simpl.
    apply existsb_elem_of. exists alias. split; [done | by apply str_in_lower_spec].
Qed.

(** C3: on a string, the classifier answers, and answers true exactly when
    the string contains, up to the case of letters, an alias of the table
    of one of the five countries; on the empty string and on [None] it
    answers false. *)
Theorem validate_sea_country_spec :
  (∀ location : string, ∃ b : bool,
      validate_sea_country (PyStr location) = Ok b
      ∧ (b = true ↔ ∃ alias, is_alias alias ∧ contains_nocase alias location))
  ∧ validate_sea_country (PyStr "") = Ok false
  ∧ validate_sea_country PyNone = Ok false.
Proof.
  split; [|done]. intros location. eexists. split; [apply validate_sea_country_str|].
  rewrite andb_true_iff, alias_scan_spec. split; [tauto|].
  intros (alias & Ha & Hc). split; [|by exists alias].
  destruct location; [|done].
  apply contains_nocase_empty_text in Hc. by apply is_alias_nonempty in Ha.
Qed.

(** The classifier on the aliases themselves, in any case. *)
Example validate_sea_country_examples :
  validate_sea_country (PyStr "Jakarta Selatan, INDONESIA") = Ok true
  ∧ validate_sea_country (PyStr "kuala lumpur") = Ok true
  ∧ validate_sea_country (PyStr "New York, NY") = Ok false
  ∧ validate_sea_country (PyFloat S754_nan) = Raise AttributeError.
Proof. by vm_compute. Qed.

(** ** The Ingestion Orchestrator: validation *)

Lemma country_scan_spec (location : string) :
  existsb (λ country, str_in (lower country) (lower location)) SEA_COUNTRIES_keys = true
  ↔ names_country location.
Proof.
  rewrite existsb_elem_of. unfold names_country.
  split; intros (country & Hin & Hc); exists country; split; try done;
    by apply str_in_lower_spec.
Qed.

Lemma validate_search_params_spec (search_term location : string) (results : Z) :
  fst (validate_search_params search_term location results) = true
  ↔ ¬ blank search_term ∧ ¬ blank location ∧ (0 < results ≤ 200)%Z
    ∧ names_country location.
Proof.
  unfold validate_search_params.
  rewrite <- !strip_blank, <- country_scan_spec.
  generalize (existsb (λ country, str_in (lower country) (lower location))
                SEA_COUNTRIES_keys) as found.
  generalize (join ", " SEA_COUNTRIES_keys) as names.
  intros names found.
  destruct (str_empty search_term || str_empty (strip search_term)); simpl;
    [intuition congruence|].
  destruct (str_empty location || str_empty (strip location)); simpl;
    [intuition congruence|].
  destruct (Z.leb_spec results 0); simpl; [intuition (try congruence; lia)|].
  destruct (Z.ltb_spec 200 results); simpl; [intuition (try congruence; lia)|].
  destruct found; simpl.
  - split; [intros _ | done]. repeat split; (congruence || lia).
  - split; [congruence|]. intros (_ & _ & _ & ?). congruence.
Qed.

Section ScrapeJobsValidation.
Context `{Runtime}.
Variable jobspy_scrape_jobs : scrape_call → result (list (gmap string pyval)).

(** C8: a search term or a location that is empty or white space, a number
    of results outside (0, 200], or a location that names none of the five
    countries makes [scrape_jobs] raise [ValueError]; the external scrape
    capability is called for no site and the table is as before. *)
Theorem scrape_jobs_rejects_bad_parameters (clock : Z → string)
    (search_term location : string) (results_per_site : Z)
    (sites : option (list string)) (job_type : option string)
    (hours_old : option Z) (t : table) :
  blank search_term ∨ blank location ∨ ¬ (0 < results_per_site ≤ 200)%Z
    ∨ ¬ names_country location →
  ∃ msg,
    scrape_jobs jobspy_scrape_jobs clock search_term location results_per_site
      sites job_type hours_old t
    = (Raise (ValueError msg), t, []).
Proof.
  intros Hbad. unfold scrape_jobs.
  pose proof (validate_search_params_spec search_term location results_per_site) as Hv.
  destruct (validate_search_params search_term location results_per_site)
    as [is_valid error_msg]; simpl in *.
  destruct is_valid; simpl; [|by exists error_msg].
  exfalso. destruct Hv as [Hv _]. specialize (Hv eq_refl). tauto.
Qed.

(** When the parameters are accepted, the capability is called once for
    each site, in order. *)
Lemma scrape_sites_calls (search_term location : string) (results_per_site : Z)
    (sites : list string) (job_type : option string) (hours_old : option Z) :
  call_site <$> snd (scrape_sites jobspy_scrape_jobs search_term location
                       results_per_site sites job_type hours_old)
  = sites.
Proof.
  unfold scrape_sites.
  set (step := λ (acc : list (gmap string pyval) * list scrape_call) site, _).
  assert (Hgen : ∀ acc, call_site <$> snd (foldl step acc sites)
                         = (call_site <$> snd acc) ++ sites).
  { induction sites as [|site sites IH]; intros acc; simpl.
    - by rewrite app_nil_r.
    - rewrite IH. unfold step. simpl. rewrite fmap_app. simpl.
      by rewrite <- app_assoc. }
  by rewrite Hgen.
Qed.

End ScrapeJobsValidation.

Lemma scrape_jobs_rejects_bad_parameters_witness :
  ∃ msg,
    scrape_jobs (H := example_runtime) (λ _, Ok []) example_clock "   " "Singapore" 25
      None None None empty_table
    = (Raise (ValueError msg), empty_table, []).
Proof.
  apply (scrape_jobs_rejects_bad_parameters (H := example_runtime)).
  left. by vm_compute.
Defined.

(** ** Loops that fill a dictionary *)

Lemma foldl_insert_lookup {V : Type} (g : string → V) (keys : list string)
    (init : gmap string V) (k : string) :
  foldl (λ (acc : gmap string V) key, <[key := g key]> acc) init keys !! k
  = if decide (k ∈ keys) then Some (g k) else init !! k.
Proof.
  revert init. induction keys as [|key keys IH]; intros init.
  - by rewrite decide_False by apply not_elem_of_nil.
  - cbn [foldl]. rewrite IH. destruct (decide (k ∈ keys)) as [Hin | Hnin].
    + rewrite decide_True; [done | by right].
    + destruct (decide (k = key)) as [-> | Hne].
      * rewrite decide_True by left. by rewrite lookup_insert_eq.
      * rewrite decide_False by (intros [? | ?]%elem_of_cons; done).
        by rewrite lookup_insert_ne.
Qed.

Lemma for_each_insert_ok {V : Type} (g : string → result V) (keys : list string)
    (init m : gmap string V) :
  for_each (λ (acc : gmap string V) key, v ← g key; Ok (<[key := v]> acc)) keys init
  = Ok m →
  ∀ k, if decide (k ∈ keys) then ∃ v, g k = Ok v ∧ m !! k = Some v
       else m !! k = init !! k.
Proof.
  revert init. induction keys as [|key keys IH]; intros init Hrun k; simpl in Hrun.
  - rewrite decide_False by apply not_elem_of_nil. by simplify_eq.
  - destruct (g key) as [v | e] eqn:Hg; simpl in Hrun; [|done].
    specialize (IH _ Hrun k).
    destruct (decide (k ∈ keys)) as [Hin | Hnin].
    + rewrite decide_True; [done | by right].
    + destruct (decide (k = key)) as [-> | Hne].
      * rewrite decide_True by left. exists v. by rewrite IH, lookup_insert_eq.
      * rewrite decide_False by (intros [? | ?]%elem_of_cons; done).
        by rewrite IH, lookup_insert_ne.
Qed.

Lemma for_each_insert_raise {V : Type} (g : string → result V) (keys : list string)
    (init : gmap string V) (e : exn) :
  for_each (λ (acc : gmap string V) key, v ← g key; Ok (<[key := v]> acc)) keys init
  = Raise e →
  ∃ k, k ∈ keys ∧ g k = Raise e.
Proof.
  revert init. induction keys as [|key keys IH]; intros init Hrun; simpl in Hrun;
    [done|].
  destruct (g key) as [v | e'] eqn:Hg; simpl in Hrun.
  - destruct (IH _ Hrun) as (k & Hk & Hgk). exists k. split; [by right | done].
  - simplify_eq. exists key. split; [by left | done].
Qed.

Lemma for_each_insert_total {V : Type} (g : string → result V) (keys : list string)
    (init : gmap string V) :
  (∀ k, k ∈ keys → ∃ v, g k = Ok v) →
  ∃ m, for_each (λ (acc : gmap string V) key, v ← g key; Ok (<[key := v]> acc))
         keys init = Ok m.
Proof.
  intros Hok.
  destruct (for_each _ keys init) as [m | e] eqn:Hrun; [by exists m|].
  apply for_each_insert_raise in Hrun as (k & Hk & Hgk).
  destruct (Hok k Hk) as [v Hv]. congruence.
Qed.

(** ** The Sanitizer *)

Section SanitizerFacts.
Context `{Runtime}.

Lemma sanitize_numeric_spec (value : pyval) :
  if float_overflows value then sanitize_numeric value = Raise OverflowError
  else sanitize_numeric value
       = Ok (match py_float value with Ok f => PyFloat f | Raise _ => PyNone end).
Proof.
  destruct value as [|b|z|f|s|repr]; simpl; try done.
  - destruct (is_infinite (float_of_Z z)); done.
  - destruct (float_of_str s); done.
Qed.

Lemma sanitize_numeric_absent : sanitize_numeric PyNone = Ok PyNone.
Proof. done. Qed.

(** The fields are told apart by name. *)
Lemma string_fields_apart :
  Forall (λ k, (k ∉ numeric_fields) ∧ k ≠ "is_remote"
               ∧ (k ∉ ["site"; "job_url"; "title"])) string_fields.
Proof. apply (bool_decide_unpack _). by vm_compute. Qed.

Lemma required_fields_apart :
  Forall (λ k, (k ∉ numeric_fields) ∧ k ≠ "is_remote" ∧ (k ∉ string_fields))
         ["site"; "job_url"; "title"].
Proof. apply (bool_decide_unpack _). by vm_compute. Qed.

Lemma numeric_fields_apart :
  Forall (λ k, k ≠ "is_remote") numeric_fields.
Proof. apply (bool_decide_unpack _). by vm_compute. Qed.

Lemma numeric_not_required :
  Forall (λ k, k ∉ ["site"; "job_url"; "title"]) numeric_fields.
Proof. apply (bool_decide_unpack _). by vm_compute. Qed.

(** The entries of the dictionary that the Sanitizer returns. *)
Lemma sanitize_job_data_lookup (job_data sanitized : gmap string pyval) :
  sanitize_job_data job_data = Ok sanitized →
  (∀ k, k ∈ ["site"; "job_url"; "title"] →
        sanitized !! k
        = Some (PyStr (strip (py_str (dict_get_default job_data k (PyStr ""))))))
  ∧ (∀ k, k ∈ string_fields →
          sanitized !! k = Some (sanitize_string (dict_get job_data k)))
  ∧ (∀ k, k ∈ numeric_fields →
          ∃ v, sanitize_numeric (dict_get job_data k) = Ok v
               ∧ sanitized !! k = Some v)
  ∧ sanitized !! "is_remote"
    = Some (sanitize_is_remote (dict_get job_data "is_remote")).
Proof.
  unfold sanitize_job_data. intros Hrun.
  match type of Hrun with
  | (for_each ?body numeric_fields ?init ≫= _) = _ =>
      destruct (for_each body numeric_fields init) as [m | e] eqn:Hnum;
      simpl in Hrun; [|done];
      pose proof (for_each_insert_ok
                    (λ field, sanitize_numeric (dict_get job_data field))
                    _ _ _ Hnum) as Hm;
      clear Hnum
  end.
  simplify_eq. repeat split.
  - intros k Hk.
    pose proof (proj1 (Forall_forall _ _) required_fields_apart k Hk)
      as (Hnum & Hrem & Hstr).
    rewrite lookup_insert_ne by done.
    specialize (Hm k). rewrite decide_False in Hm by done. rewrite Hm.
    rewrite foldl_insert_lookup, decide_False by done.
    repeat (apply elem_of_cons in Hk as [-> | Hk]; [done|]).
    by apply elem_of_nil in Hk.
  - intros k Hk.
    pose proof (proj1 (Forall_forall _ _) string_fields_apart k Hk)
      as (Hnum & Hrem & Hreq).
    rewrite lookup_insert_ne by done.
    specialize (Hm k). rewrite decide_False in Hm by done. rewrite Hm.
    by rewrite foldl_insert_lookup, decide_True by done.
  - intros k Hk.
    pose proof (proj1 (Forall_forall _ _) numeric_fields_apart k Hk) as Hrem.
    rewrite lookup_insert_ne by done.
    specialize (Hm k). by rewrite decide_True in Hm by done.
  - by rewrite lookup_insert_eq.
Qed.

(** The Sanitizer raises only when a numeric field holds an integer
    beyond the range of a double, and then it raises [OverflowError]. *)
Lemma sanitize_job_data_raises (job_data : gmap string pyval) (e : exn) :
  sanitize_job_data job_data = Raise e ↔
  e = OverflowError
  ∧ ∃ k, k ∈ numeric_fields ∧ float_overflows (dict_get job_data k) = true.
Proof.
  unfold sanitize_job_data.
  match goal with
  | |- (for_each ?body numeric_fields ?init ≫= _) = _ ↔ _ =>
      destruct (for_each body numeric_fields init) as [m | e'] eqn:Hnum; simpl
  end.
  - split; [done|]. intros (_ & k & Hk & Hover).
    pose proof (for_each_insert_ok
                  (λ field, sanitize_numeric (dict_get job_data field))
                  _ _ _ Hnum k) as Hm.
    rewrite decide_True in Hm by done. destruct Hm as (v & Hv & _).
    pose proof (sanitize_numeric_spec (dict_get job_data k)) as Hspec.
    rewrite Hover in Hspec. congruence.
  - apply (for_each_insert_raise
             (λ field, sanitize_numeric (dict_get job_data field))) in Hnum
      as (k & Hk & Hraise).
    pose proof (sanitize_numeric_spec (dict_get job_data k)) as Hspec.
    destruct (float_overflows (dict_get job_data k)) eqn:Hover; [|congruence].
    split.
    + intros ?. simplify_eq. split; [congruence | by exists k].
    + intros [-> _]. congruence.
Qed.

(** Without such an integer the Sanitizer returns. *)
Lemma sanitize_job_data_returns (job_data : gmap string pyval) :
  (∀ k, k ∈ numeric_fields → float_overflows (dict_get job_data k) = false) →
  ∃ sanitized, sanitize_job_data job_data = Ok sanitized.
Proof.
  intros Hfits.
  destruct (sanitize_job_data job_data) as [sanitized | e] eqn:Hrun; [by eexists|].
  apply sanitize_job_data_raises in Hrun as (_ & k & Hk & Hover).
  rewrite (Hfits k Hk) in Hover. done.
Qed.

(** A record with the required fields and nothing else: every optional
    string field and every numeric field is [None], [is_remote] is 0. *)
Lemma sanitize_job_data_required_only (site job_url title : string) :
  ∃ sanitized,
    sanitize_job_data {[ "site" := PyStr site; "job_url" := PyStr job_url;
                         "title" := PyStr title ]} = Ok sanitized
    ∧ sanitized !! "site" = Some (PyStr (strip site))
    ∧ sanitized !! "job_url" = Some (PyStr (strip job_url))
    ∧ sanitized !! "title" = Some (PyStr (strip title))
    ∧ (∀ k, k ∈ string_fields ++ numeric_fields → sanitized !! k = Some PyNone)
    ∧ sanitized !! "is_remote" = Some (PyInt 0).
Proof.
  set (job_data := ({[ "site" := PyStr site; "job_url" := PyStr job_url;
                       "title" := PyStr title ]} : gmap string pyval)).
  assert (Hget : ∀ k, k ∉ ["site"; "job_url"; "title"] → dict_get job_data k = PyNone).
  { intros k Hk. unfold dict_get, job_data.
    assert (k ≠ "site" ∧ k ≠ "job_url" ∧ k ≠ "title") as (? & ? & ?)
      by (repeat split; intros ->; apply Hk; repeat constructor).
    by rewrite !lookup_insert_ne, lookup_singleton_ne. }
  destruct (sanitize_job_data job_data) as [sanitized | e] eqn:Hrun.
  - exists sanitized. split; [done|].
    destruct (sanitize_job_data_lookup _ _ Hrun) as (Hreq & Hstr & Hnum & Hrem).
    rewrite !Hreq by repeat constructor. repeat split.
    + intros k [Hk | Hk]%elem_of_app.
      * rewrite Hstr by done.
        pose proof (proj1 (Forall_forall _ _) string_fields_apart k Hk) as (_ & _ & ?).
        by rewrite Hget.
      * destruct (Hnum k Hk) as (v & Hv & ->).
        rewrite Hget in Hv; [by simplify_eq/= |].
        by apply (proj1 (Forall_forall _ _) numeric_not_required k).
    + rewrite Hrem, Hget; [done|]. apply (bool_decide_unpack _). by vm_compute.
  - apply sanitize_job_data_raises in Hrun as (_ & k & Hk & Hover).
    rewrite Hget in Hover; [done|].
    by apply (proj1 (Forall_forall _ _) numeric_not_required k).
Qed.

End SanitizerFacts.

(** C9: the Sanitizer raises on a record that is well formed: an integer
    salary too large for a double makes [float] raise [OverflowError],
    which the handler for [ValueError] and [TypeError] lets through.  This
    holds for every runtime. *)
Theorem sanitize_job_data_overflow :
  ∀ R : Runtime,
    sanitize_job_data (H := R)
      {[ "site" := PyStr "indeed"; "job_url" := PyStr "https://example.com/1";
         "title" := PyStr "Developer"; "min_amount" := PyInt (2 ^ 1024) ]}
    = Raise OverflowError.
Proof.
  intros R. apply sanitize_job_data_raises. split; [done|].
  exists "min_amount". split; [repeat constructor | by vm_compute].
Qed.

(** ** Batches *)

Lemma batches_upto_concat {A : Type} (fuel size : nat) (l : list A) :
  0 < size → length l ≤ fuel → concat (batches_upto fuel size l) = l.
Proof.
  intros Hsize. revert l. induction fuel as [|fuel IH]; intros l Hlen.
  - destruct l; [done | simpl in Hlen; lia].
  - destruct l as [|x l]; [done|].
    cbn [batches_upto concat]. rewrite IH.
    + apply take_drop.
    + rewrite length_drop. simpl in *. lia.
Qed.

Lemma batches_concat {A : Type} (size : nat) (l : list A) :
  0 < size → concat (batches size l) = l.
Proof. intros Hsize. by apply batches_upto_concat. Qed.

Lemma foldl_concat {S A : Type} (f : S → A → S) (ls : list (list A)) (s : S) :
  foldl (λ s batch, foldl f s batch) s ls = foldl f s (concat ls).
Proof.
  revert s. induction ls as [|l ls IH]; intros s; simpl; [done|].
  by rewrite foldl_app, IH.
Qed.

Section InsertFacts.
Context `{Runtime}.

Lemma insert_loop_flat clock jobs_data t :
  insert_loop clock jobs_data t = foldl (insert_job clock) (InsertState t 0 0) jobs_data.
Proof.
  unfold insert_loop. rewrite foldl_concat, batches_concat; [done | lia].
Qed.

Lemma insert_jobs_loop clock jobs_data t :
  insert_jobs clock jobs_data t
  = (jobs_table (insert_loop clock jobs_data t),
     inserted_count (insert_loop clock jobs_data t)).
Proof. by destruct jobs_data. Qed.

Lemma insert_or_ignore_eq clock values t :
  insert_or_ignore clock values t
  = if blocked values t then (t, 0%Z)
    else (Table (rows t ++ [stamped clock (last_rowid t + 1) values])
                (last_rowid t + 1), 1%Z).
Proof. done. Qed.

(** One turn of the loop, by the plan for the record. *)
Lemma insert_job_eq clock s job_data :
  insert_job clock s job_data
  = match plan_job job_data with
    | PlanSkip =>
        InsertState (jobs_table s) (inserted_count s) (skipped_count s + 1)
    | PlanFail => s
    | PlanInsert values =>
        if blocked values (jobs_table s) then s
        else InsertState
               (Table (rows (jobs_table s)
                       ++ [stamped clock (last_rowid (jobs_table s) + 1) values])
                      (last_rowid (jobs_table s) + 1))
               (inserted_count s + 1) (skipped_count s)
    end.
Proof.
  unfold insert_job, plan_job.
  destruct (if py_truthy (dict_get job_data "location") then _ else _)
    as [[|] | e]; simpl; try done.
  destruct (sanitize_job_data job_data) as [sanitized | e]; simpl; [|done].
  destruct (insert_parameters sanitized) as [values | e]; simpl; [|done].
  rewrite insert_or_ignore_eq.
  destruct (blocked values (jobs_table s)); simpl; [by destruct s | done].
Qed.

Lemma plan_skip_iff job_data :
  plan_job job_data = PlanSkip ↔ outside_sea job_data = true.
Proof.
  unfold plan_job, outside_sea.
  destruct (py_truthy (dict_get job_data "location")); simpl.
  - destruct (validate_sea_country (dict_get job_data "location")) as [[|] | e];
      simpl; try done.
    destruct (sanitize_job_data job_data ≫= insert_parameters); done.
  - destruct (sanitize_job_data job_data ≫= insert_parameters); done.
Qed.


(** The values of an INSERT that goes ahead have text in the two key
    columns. *)
Lemma plan_insert_text_key job_data values :
  plan_job job_data = PlanInsert values →
  ∃ url site, row_key values = (SqlText url, SqlText site).
Proof.
  unfold plan_job.
  destruct (if py_truthy (dict_get job_data "location") then _ else _)
    as [[|] | e]; try done.
  destruct (sanitize_job_data job_data) as [sanitized | e] eqn:Hsan; simpl; [|done].
  destruct (insert_parameters sanitized) as [values' | e] eqn:Hpar; simpl; [|done].
  intros ?. simplify_eq.
  destruct (sanitize_job_data_lookup _ _ Hsan) as (Hreq & _).
  pose proof (for_each_insert_ok (λ column, sql_bind (dict_get sanitized column))
                _ _ _ Hpar) as Hval.
  pose proof (Hval "job_url") as Hurl. pose proof (Hval "site") as Hsite.
  rewrite decide_True in Hurl by (apply (bool_decide_unpack _); by vm_compute).
  rewrite decide_True in Hsite by (apply (bool_decide_unpack _); by vm_compute).
  destruct Hurl as (u & Hu & Hlu). destruct Hsite as (w & Hw & Hlw).
  unfold dict_get in Hu, Hw.
  rewrite Hreq in Hu by repeat constructor. rewrite Hreq in Hw by repeat constructor.
  simpl in Hu, Hw. simplify_eq.
  unfold row_key, col. rewrite Hlu, Hlw. simpl. eauto.
Qed.

Lemma row_key_stamped clock id values :
  row_key (stamped clock id values) = row_key values.
Proof. unfold row_key, col, stamped. by rewrite !lookup_insert_ne. Qed.

Lemma string_compare_refl s : String.compare s s = Eq.
Proof.
  pose proof (String.compare_antisym s s) as Ha.
  destruct (String.compare s s); done.
Qed.

Lemma sql_eq_text_refl s : sql_eq (SqlText s) (SqlText s) = Some true.
Proof. unfold sql_eq, sql_compare. by rewrite string_compare_refl. Qed.

Lemma sql_eq_text_true s t : sql_eq (SqlText s) (SqlText t) = Some true ↔ s = t.
Proof.
  split; [|intros ->; apply sql_eq_text_refl].
  unfold sql_eq, sql_compare. destruct (String.compare s t) eqn:Hc; [|done..].
  intros _. by apply String.compare_eq_iff.
Qed.

Lemma unique_conflict_keys new old url site :
  row_key new = (SqlText url, SqlText site) →
  unique_conflict new old = true ↔ row_key old = row_key new.
Proof.
  unfold unique_conflict, row_key. intros Hnew.
  inversion Hnew as [[Hu Hs]]. rewrite Hu, Hs.
  rewrite andb_true_iff, !bool_decide_eq_true. split.
  - intros [Hcu Hcs].
    destruct (col old "job_url") as [| | |u]; try done.
    destruct (col old "site") as [| | |w]; try done.
    apply sql_eq_text_true in Hcu, Hcs. by subst.
  - intros Hold. inversion Hold as [[Hou Hos]].
    by rewrite ?Hou, ?Hos, !sql_eq_text_refl.
Qed.

Lemma blocked_iff values t url site :
  row_key values = (SqlText url, SqlText site) →
  blocked values t = true ↔ row_key values ∈ row_key <$> rows t.
Proof.
  intros Hkey. unfold blocked, not_null_violation.
  pose proof Hkey as Hkey'. unfold row_key in Hkey'. inversion Hkey' as [[Hu Hs]].
  rewrite Hu, Hs. simpl.
  rewrite existsb_exists, list_elem_of_fmap. split.
  - intros (old & Hin & Hc). exists old.
    apply list_elem_of_In in Hin. split; [|done].
    symmetry. by apply (unique_conflict_keys values old url site).
  - intros (old & Heq & Hin). exists old.
    split; [by apply list_elem_of_In|].
    by apply (unique_conflict_keys values old url site).
Qed.

End InsertFacts.

Section InsertTheorems.
Context `{Runtime}.

Lemma blocked_grows values t t' extra :
  rows t' = rows t ++ extra → blocked values t = true → blocked values t' = true.
Proof.
  unfold blocked. intros ->. rewrite existsb_app, !orb_true_iff. tauto.
Qed.

Lemma table_unique_snoc t id r url site :
  row_key r = (SqlText url, SqlText site) →
  row_key r ∉ row_key <$> rows t →
  table_unique t → table_unique (Table (rows t ++ [r]) id).
Proof.
  intros Hkey Hfresh [Htext Hnodup]. split; simpl.
  - apply Forall_app. split; [done|]. apply Forall_singleton. eauto.
  - rewrite fmap_app. apply NoDup_app. repeat split; [done | | apply NoDup_singleton].
    intros k Hk Hk'. apply list_elem_of_singleton in Hk'. by subst.
Qed.

Lemma nothing_added {A : Type} (l : list A) (n : Z) (P : A → Prop) :
  ∃ extra, l = l ++ extra ∧ n = (n + Z.of_nat (length extra))%Z
           ∧ ∀ r, r ∈ extra → P r.
Proof.
  exists []. rewrite app_nil_r. simpl. repeat split; [lia|].
  by intros r ?%elem_of_nil.
Qed.

(** What one turn of the loop does to the state. *)
Lemma insert_job_step clock s job_data :
  let s' := insert_job clock s job_data in
  (∃ extra,
      rows (jobs_table s') = rows (jobs_table s) ++ extra
      ∧ inserted_count s' = (inserted_count s + Z.of_nat (length extra))%Z
      ∧ ∀ r, r ∈ extra →
             ∃ id values, plan_job job_data = PlanInsert values
                          ∧ r = stamped clock id values)
  ∧ skipped_count s' = (skipped_count s + if outside_sea job_data then 1 else 0)%Z
  ∧ (∀ values, plan_job job_data = PlanInsert values →
               blocked values (jobs_table s') = true)
  ∧ (table_unique (jobs_table s) → table_unique (jobs_table s')).
Proof.
  simpl. rewrite insert_job_eq.
  pose proof (plan_skip_iff job_data) as Hskip.
  destruct (plan_job job_data) as [| |values] eqn:Hplan.
  - rewrite (proj1 Hskip eq_refl). simpl.
    split; [apply nothing_added|]. by split; [|split].
  - destruct (outside_sea job_data); [by destruct Hskip as [_ Hs]; specialize (Hs eq_refl)|].
    split; [apply nothing_added|]. split; [lia|]. by split.
  - destruct (outside_sea job_data); [by destruct Hskip as [_ Hs]; specialize (Hs eq_refl)|].
    destruct (plan_insert_text_key _ _ Hplan) as (url & site & Hkey).
    destruct (blocked values (jobs_table s)) eqn:Hblocked.
    + split; [apply nothing_added|]. split; [lia|]. split; [|done].
      by intros ? [= <-].
    + simpl. split; [|split; [lia|split]].
      * eexists. split; [done|]. split; [simpl; lia|].
        intros r ->%list_elem_of_singleton. eauto.
      * intros ? [= <-]. apply (blocked_iff _ _ url site Hkey). simpl.
        rewrite fmap_app. apply elem_of_app. right. simpl.
        rewrite row_key_stamped. by left.
      * apply (table_unique_snoc _ _ _ url site).
        -- by rewrite row_key_stamped.
        -- rewrite row_key_stamped. intros Hin.
           apply (blocked_iff _ _ url site Hkey) in Hin. congruence.
Qed.

(** What the whole loop does to the state. *)
Lemma insert_run clock jobs_data s :
  let s' := foldl (insert_job clock) s jobs_data in
  (∃ extra,
      rows (jobs_table s') = rows (jobs_table s) ++ extra
      ∧ inserted_count s' = (inserted_count s + Z.of_nat (length extra))%Z
      ∧ ∀ r, r ∈ extra →
             ∃ job_data id values,
               job_data ∈ jobs_data ∧ plan_job job_data = PlanInsert values
               ∧ r = stamped clock id values)
  ∧ skipped_count s'
    = (skipped_count s + Z.of_nat (length (List.filter outside_sea jobs_data)))%Z
  ∧ (∀ job_data values,
        job_data ∈ jobs_data → plan_job job_data = PlanInsert values →
        blocked values (jobs_table s') = true)
  ∧ (table_unique (jobs_table s) → table_unique (jobs_table s')).
Proof.
  revert s. induction jobs_data as [|job_data jobs_data IH]; intros s.
  - simpl. split; [apply nothing_added|]. split; [lia|]. split; [|done].
    by intros ? ? ?%elem_of_nil.
  - cbn [foldl]. cbv zeta in IH.
    destruct (insert_job_step clock s job_data)
      as ((extra1 & Hrows1 & Hcount1 & Hfrom1) & Hskip1 & Hblocked1 & Huniq1).
    destruct (IH (insert_job clock s job_data))
      as ((extra2 & Hrows2 & Hcount2 & Hfrom2) & Hskip2 & Hblocked2 & Huniq2).
    split; [|split; [|split]].
    + exists (extra1 ++ extra2). split; [|split].
      * by rewrite Hrows2, Hrows1, app_assoc.
      * rewrite Hcount2, Hcount1, length_app. lia.
      * intros r [Hr | Hr]%elem_of_app.
        -- destruct (Hfrom1 r Hr) as (id & values & Hplan & ->).
           exists job_data, id, values. by split; [left|].
        -- destruct (Hfrom2 r Hr) as (j & id & values & Hj & Hplan & ->).
           exists j, id, values. by split; [right|].
    + rewrite Hskip2, Hskip1. simpl. destruct (outside_sea job_data); simpl; lia.
    + intros j values [-> | Hj]%elem_of_cons Hplan.
      * eapply blocked_grows; [exact Hrows2 | by apply Hblocked1].
      * by eapply Hblocked2.
    + intros Hu. by apply Huniq2, Huniq1.
Qed.




End InsertTheorems.

(** ** Comparison *)

Lemma SFcompare_antisym (a b : spec_float) :
  SFcompare b a = CompOpp <$> SFcompare a b.
Proof.
  destruct a as [sa|sa| |sa ma ea], b as [sb|sb| |sb mb eb]; simpl; try done;
    try (by destruct sa); try (by destruct sb); try (by destruct sa, sb).
  destruct sa, sb; simpl; try done.
  - rewrite (Z.compare_antisym ea eb).
    destruct (ea ?= eb)%Z; simpl; try done.
    by rewrite (ZC4 mb ma).
  - rewrite (Z.compare_antisym ea eb).
    destruct (ea ?= eb)%Z; simpl; try done.
    by rewrite (ZC4 mb ma).
Qed.

Lemma float_compare_antisym (a b : spec_float) :
  float_compare b a = CompOpp (float_compare a b).
Proof.
  unfold float_compare. rewrite (SFcompare_antisym a b).
  by destruct (SFcompare a b).
Qed.

Lemma sql_compare_antisym (a b : sqlval) :
  sql_compare b a = CompOpp <$> sql_compare a b.
Proof.
  destruct a as [|x|f|s], b as [|y|g|t]; simpl; try done.
  - by rewrite (Z.compare_antisym x y).
  - by rewrite float_compare_antisym.
  - by rewrite float_compare_antisym.
  - by rewrite float_compare_antisym.
  - by rewrite (String.compare_antisym s t), CompOpp_involutive.
Qed.

Lemma order_compare_antisym (a b : sqlval) :
  order_compare b a = CompOpp (order_compare a b).
Proof.
  unfold order_compare.
  destruct a as [|x|f|s], b as [|y|g|t]; try done;
    rewrite sql_compare_antisym;
    match goal with |- context [sql_compare ?u ?v] => by destruct (sql_compare u v) end.
Qed.

Lemma order_le_total (sort_by sort_order : string) (a b : row) :
  order_le sort_by sort_order a b = true ∨ order_le sort_by sort_order b a = true.
Proof.
  unfold order_le. destruct (String.eqb sort_order "ASC").
  - rewrite (order_compare_antisym (col a sort_by) (col b sort_by)).
    destruct (order_compare (col a sort_by) (col b sort_by)); simpl; auto.
  - rewrite (order_compare_antisym (col b sort_by) (col a sort_by)).
    destruct (order_compare (col b sort_by) (col a sort_by)); simpl; auto.
Qed.

(** ** The stable sort *)

Section Sorting.
Context {A : Type} (le : A → A → bool).
Hypothesis le_total : ∀ a b, le a b = true ∨ le b a = true.

Lemma insert_sorted_perm (x : A) (l : list A) : insert_sorted le x l ≡ₚ x :: l.
Proof.
  induction l as [|y l IH]; simpl; [done|].
  destruct (le x y); [done|]. by rewrite IH, Permutation_swap.
Qed.

Lemma sort_with_perm (l : list A) : sort_with le l ≡ₚ l.
Proof.
  induction l as [|x l IH]; simpl; [done|].
  unfold sort_with in *. simpl. by rewrite insert_sorted_perm, IH.
Qed.

Lemma sort_with_length (l : list A) : length (sort_with le l) = length l.
Proof. by rewrite sort_with_perm. Qed.

Lemma insert_sorted_hd (R := λ a b, le a b = true) (z x : A) (l : list A) :
  R z x → HdRel R z l → HdRel R z (insert_sorted le x l).
Proof.
  intros Hzx Hzl. destruct l as [|y l]; simpl; [by constructor|].
  destruct (le x y); constructor; [done|]. by inversion Hzl.
Qed.

Lemma insert_sorted_sorted (R := λ a b, le a b = true) (x : A) (l : list A) :
  Sorted R l → Sorted R (insert_sorted le x l).
Proof.
  induction 1 as [|y l Hsorted IH Hhd]; simpl; [by repeat constructor|].
  destruct (le x y) eqn:Hxy.
  - by repeat constructor.
  - constructor; [done|]. apply insert_sorted_hd; [|done].
    destruct (le_total x y); [congruence | done].
Qed.

Lemma sort_with_sorted (l : list A) :
  Sorted (λ a b, le a b = true) (sort_with le l).
Proof.
  induction l as [|x l IH]; [constructor|].
  unfold sort_with in *. simpl. by apply insert_sorted_sorted.
Qed.

End Sorting.

Lemma Sorted_drop {A : Type} (R : A → A → Prop) (n : nat) (l : list A) :
  Sorted R l → Sorted R (drop n l).
Proof.
  revert l. induction n as [|n IH]; intros l Hl; [by rewrite drop_0|].
  destruct l as [|x l]; [done|]. simpl. apply IH. by inversion Hl.
Qed.

Lemma Sorted_take {A : Type} (R : A → A → Prop) (n : nat) (l : list A) :
  Sorted R l → Sorted R (take n l).
Proof.
  intros Hl. revert n. induction Hl as [|x l Hl IH Hhd]; intros n.
  - by rewrite take_nil.
  - destruct n as [|n]; simpl; [constructor|].
    constructor; [apply IH|].
    destruct Hhd as [|y l Hxy]; [by rewrite take_nil|].
    destruct n; simpl; by constructor.
Qed.

Lemma limit_offset_sorted {A : Type} (R : A → A → Prop) (limit offset : Z) (l : list A) :
  Sorted R l → Sorted R (limit_offset limit offset l).
Proof.
  intros Hl. unfold limit_offset.
  destruct (limit <? 0)%Z; [|apply Sorted_take]; by apply Sorted_drop.
Qed.

Lemma limit_offset_length {A : Type} (limit offset : Z) (l : list A) :
  (0 ≤ limit)%Z → (Z.of_nat (length (limit_offset limit offset l)) ≤ limit)%Z.
Proof.
  intros Hlimit. unfold limit_offset.
  destruct (Z.ltb_spec limit 0); [lia|]. rewrite length_take. lia.
Qed.

Section SearchFacts.
Context `{Runtime}.

Lemma search_jobs_eq filters page per_page t :
  search_jobs filters page per_page t
  = '(params, sort_by, sort_order) ← search_plan filters;
    _ ← sql_bind (PyInt per_page);
    _ ← sql_bind (PyInt ((page - 1) * per_page));
    Ok (limit_offset per_page ((page - 1) * per_page)
          (order_by sort_by sort_order (List.filter (where_holds params) (rows t))),
        Z.of_nat (length (List.filter (where_holds params) (rows t)))).
Proof.
  unfold search_jobs, search_plan.
  destruct (build_where filters) as [w | e]; simpl; [|done].
  destruct (py_upper _) as [o | e]; simpl; [|done].
  by destruct (bind_where w) as [p | e].
Qed.

(** A successful search, taken apart. *)
Lemma search_jobs_ok filters page per_page t rs n :
  search_jobs filters page per_page t = Ok (rs, n) ↔
  ∃ params sort_by sort_order,
    search_plan filters = Ok (params, sort_by, sort_order)
    ∧ in_int64 per_page = true ∧ in_int64 ((page - 1) * per_page) = true
    ∧ rs = limit_offset per_page ((page - 1) * per_page)
             (order_by sort_by sort_order (List.filter (where_holds params) (rows t)))
    ∧ n = Z.of_nat (length (List.filter (where_holds params) (rows t))).
Proof.
  rewrite search_jobs_eq.
  destruct (search_plan filters) as [[[params sort_by] sort_order] | e]; simpl.
  - unfold sql_bind.
    destruct (in_int64 per_page); simpl;
      [|split; [done | by intros (? & ? & ? & ? & ? & _)]].
    destruct (in_int64 ((page - 1) * per_page)); simpl;
      [|split; [done | by intros (? & ? & ? & ? & ? & ? & _)]].
    split.
    + intros [= <- <-]. by exists params, sort_by, sort_order.
    + intros (? & ? & ? & [= <- <- <-] & _ & _ & -> & ->). done.
  - split; [done | by intros (? & ? & ? & ? & _)].
Qed.

(** The plan looks at a filter only through its value when true. *)
Lemma build_where_ext (f g : gmap string pyval) :
  (∀ key, key ∈ filter_keys → filter_value f key = filter_value g key) →
  build_where f = build_where g.
Proof.
  intros Hext. unfold build_where, add_condition.
  by rewrite !Hext by (apply (bool_decide_unpack _); by vm_compute).
Qed.

Lemma search_plan_ext (f g : gmap string pyval) :
  (∀ key, key ∈ filter_keys → filter_value f key = filter_value g key) →
  f !! "sort_by" = g !! "sort_by" → f !! "sort_order" = g !! "sort_order" →
  search_plan f = search_plan g.
Proof.
  intros Hext Hby Horder. unfold search_plan, dict_get_default.
  by rewrite (build_where_ext f g Hext), Hby, Horder.
Qed.

Lemma search_jobs_ext (f g : gmap string pyval) page per_page t :
  search_plan f = search_plan g →
  search_jobs f page per_page t = search_jobs g page per_page t.
Proof. intros Heq. by rewrite !search_jobs_eq, Heq. Qed.

Lemma filter_value_falsy (f : gmap string pyval) (key key' : string) (v : pyval) :
  py_truthy v = false →
  filter_value (<[key := v]> f) key' = filter_value (delete key f) key'.
Proof.
  intros Hv. unfold filter_value, dict_get.
  destruct (decide (key = key')) as [-> | Hne].
  - rewrite lookup_insert_eq, lookup_delete_eq. simpl. by rewrite Hv.
  - by rewrite lookup_insert_ne, lookup_delete_ne.
Qed.

(** C10: a filter whose value is false in a condition ([None], the empty
    string, 0, [False]) changes nothing: the search returns what it
    returns when the key is not there at all. *)
Theorem falsy_filter_is_absent (filters : gmap string pyval) (key : string)
    (v : pyval) (page per_page : Z) (t : table) :
  key ∈ filter_keys → py_truthy v = false →
  search_jobs (<[key := v]> filters) page per_page t
  = search_jobs (delete key filters) page per_page t.
Proof.
  intros Hkey Hv. apply search_jobs_ext, search_plan_ext.
  - intros key' _. by apply filter_value_falsy.
  - assert (key ≠ "sort_by") as Hne.
    { intros ->. revert Hkey. apply (bool_decide_unpack _). by vm_compute. }
    by rewrite lookup_insert_ne, lookup_delete_ne.
  - assert (key ≠ "sort_order") as Hne.
    { intros ->. revert Hkey. apply (bool_decide_unpack _). by vm_compute. }
    by rewrite lookup_insert_ne, lookup_delete_ne.
Qed.

End SearchFacts.

Lemma Sorted_impl {A : Type} (R R' : A → A → Prop) (l : list A) :
  (∀ a b, R a b → R' a b) → Sorted R l → Sorted R' l.
Proof.
  intros Himpl. induction 1 as [|x l Hl IH Hhd]; constructor; [done|].
  destruct Hhd; constructor. by apply Himpl.
Qed.

Lemma sql_or_true (a b : option bool) :
  sql_or a b = Some true ↔ a = Some true ∨ b = Some true.
Proof. destruct a as [[|]|], b as [[|]|]; simpl; intuition congruence. Qed.

Lemma SFcompare_not_nan (a b : spec_float) :
  is_nan a = false → is_nan b = false → ∃ c, SFcompare a b = Some c.
Proof. destruct a, b; simpl; try done; eauto. Qed.

Lemma sql_ge_real (a s : spec_float) :
  is_nan a = false → is_nan s = false →
  sql_ge (SqlReal a) (SqlReal s) = Some true ↔ SFleb s a = true.
Proof.
  intros Ha Hs. destruct (SFcompare_not_nan a s Ha Hs) as [c Hc].
  unfold sql_ge, sql_compare, float_compare, SFleb.
  rewrite (SFcompare_antisym a s), Hc. simpl. by destruct c.
Qed.

Lemma sql_le_real (a s : spec_float) :
  is_nan a = false → is_nan s = false →
  sql_le (SqlReal a) (SqlReal s) = Some true ↔ SFleb a s = true.
Proof.
  intros Ha Hs. destruct (SFcompare_not_nan a s Ha Hs) as [c Hc].
  unfold sql_le, sql_compare, float_compare, SFleb.
  rewrite Hc. simpl. by destruct c.
Qed.

Lemma SFleb_nan_r (a s : spec_float) : is_nan s = true → SFleb a s = false.
Proof. intros Hs. by destruct s, a. Qed.

Lemma SFleb_nan_l (a s : spec_float) : is_nan s = true → SFleb s a = false.
Proof. intros Hs. by destruct s. Qed.

Lemma sql_ge_amount (amount : sqlval) (s : spec_float) :
  stored_amount amount →
  sql_ge amount (salary_parameter s) = Some true ↔ amount_at_least amount s.
Proof.
  unfold amount_at_least, salary_parameter.
  intros [-> | (a & -> & Ha)].
  - split; [by destruct (is_nan s) | by intros (a & ? & _)].
  - destruct (is_nan s) eqn:Hs.
    + split; [done|]. intros (a' & [= <-] & Hle).
      by rewrite SFleb_nan_l in Hle.
    + rewrite (sql_ge_real a s Ha Hs). split; [by exists a|].
      by intros (a' & [= <-] & Hle).
Qed.

Lemma sql_le_amount (amount : sqlval) (s : spec_float) :
  stored_amount amount →
  sql_le amount (salary_parameter s) = Some true ↔ amount_at_most amount s.
Proof.
  unfold amount_at_most, salary_parameter.
  intros [-> | (a & -> & Ha)].
  - split; [by destruct (is_nan s) | by intros (a & ? & _)].
  - destruct (is_nan s) eqn:Hs.
    + split; [done|]. intros (a' & [= <-] & Hle).
      by rewrite SFleb_nan_r in Hle.
    + rewrite (sql_le_real a s Ha Hs). split; [by exists a|].
      by intros (a' & [= <-] & Hle).
Qed.

Section SalaryFilters.
Context `{Runtime}.

Lemma filter_value_singleton (key key' : string) (v : pyval) :
  filter_value {[ key := v ]} key'
  = if decide (key = key') then (if py_truthy v then Some v else None) else None.
Proof.
  unfold filter_value, dict_get. case_decide as Hk.
  - subst. by rewrite lookup_singleton_eq.
  - by rewrite lookup_singleton_ne.
Qed.

Lemma build_where_min_salary (v : pyval) (s : spec_float) :
  py_truthy v = true → py_float v = Ok s →
  build_where {[ "min_salary" := v ]}
  = Ok [EOr (EGe "min_amount" (PyFloat s)) (EGe "max_amount" (PyFloat s))].
Proof.
  intros Hv Hs. unfold build_where, add_condition.
  rewrite !filter_value_singleton, Hv.
  repeat (rewrite decide_False by done). rewrite decide_True by done.
  simpl. by rewrite Hs.
Qed.

Lemma build_where_max_salary (v : pyval) (s : spec_float) :
  py_truthy v = true → py_float v = Ok s →
  build_where {[ "max_salary" := v ]}
  = Ok [EOr (ELe "min_amount" (PyFloat s)) (ELe "max_amount" (PyFloat s))].
Proof.
  intros Hv Hs. unfold build_where, add_condition.
  rewrite !filter_value_singleton, Hv.
  repeat (rewrite decide_False by done). rewrite decide_True by done.
  simpl. by rewrite Hs.
Qed.

(** C4, as the code has it: for a filter value that is true in a
    condition and converts to the number [s], the rows selected by a
    [min_salary] filter are those whose [min_amount] or [max_amount] is at
    least [s], and the rows selected by a [max_salary] filter are those
    whose [min_amount] or [max_amount] is at most [s]. *)
Theorem salary_filters_select (v : pyval) (s : spec_float) :
  py_truthy v = true → py_float v = Ok s →
  (∃ params,
      build_where {[ "min_salary" := v ]} ≫= bind_where = Ok params
      ∧ ∀ r : row,
          stored_amount (col r "min_amount") → stored_amount (col r "max_amount") →
          (where_holds params r = true
           ↔ amount_at_least (col r "min_amount") s
             ∨ amount_at_least (col r "max_amount") s))
  ∧ (∃ params,
        build_where {[ "max_salary" := v ]} ≫= bind_where = Ok params
        ∧ ∀ r : row,
            stored_amount (col r "min_amount") → stored_amount (col r "max_amount") →
            (where_holds params r = true
             ↔ amount_at_most (col r "min_amount") s
               ∨ amount_at_most (col r "max_amount") s)).
Proof.
  intros Hv Hs. split.
  - rewrite (build_where_min_salary v s Hv Hs). eexists. split; [done|].
    intros r Hmin Hmax. unfold where_holds. simpl.
    rewrite andb_true_r, bool_decide_eq_true, sql_or_true.
    change (with_affinity "min_amount" ?p) with p.
    change (with_affinity "max_amount" ?p) with p.
    fold (salary_parameter s). by rewrite !sql_ge_amount.
  - rewrite (build_where_max_salary v s Hv Hs). eexists. split; [done|].
    intros r Hmin Hmax. unfold where_holds. simpl.
    rewrite andb_true_r, bool_decide_eq_true, sql_or_true.
    change (with_affinity "min_amount" ?p) with p.
    change (with_affinity "max_amount" ?p) with p.
    fold (salary_parameter s). by rewrite !sql_le_amount.
Qed.

End SalaryFilters.

Section SearchTheorems.
Context `{Runtime}.

Lemma order_le_ordered_by (field sort_order : string) (a b : row) :
  order_le field sort_order a b = true
  → ordered_by field (negb (String.eqb sort_order "ASC")) a b.
Proof.
  unfold order_le, ordered_by. destruct (String.eqb sort_order "ASC"); simpl.
  - by destruct (order_compare (col a field) (col b field)).
  - by destruct (order_compare (col b field) (col a field)).
Qed.

Lemma resolve_sort_order_asc (sort_order : string) :
  String.eqb (resolve_sort_order sort_order) "ASC" = String.eqb sort_order "ASC".
Proof.
  unfold resolve_sort_order. case_bool_decide as Hin; [done|].
  destruct (String.eqb_spec sort_order "ASC") as [-> | Hne]; [|done].
  exfalso. apply Hin. by left.
Qed.

Lemma resolve_sort_by_valid (field : string) :
  field ∈ valid_sort_fields → resolve_sort_by (PyStr field) = field.
Proof. intros Hin. unfold resolve_sort_by. by rewrite bool_decide_eq_true_2. Qed.

Lemma resolve_sort_by_other (v : pyval) :
  (∀ field, field ∈ valid_sort_fields → v ≠ PyStr field) →
  resolve_sort_by v = "scraped_at".
Proof.
  intros Hout. destruct v as [| | | |s|]; try done. simpl.
  case_bool_decide as Hin; [|done]. by destruct (Hout s Hin).
Qed.

Lemma search_plan_sort_by (f : gmap string pyval) (v w : pyval) :
  resolve_sort_by v = resolve_sort_by w →
  search_plan (<["sort_by" := v]> f) = search_plan (<["sort_by" := w]> f).
Proof.
  intros Heq. unfold search_plan, dict_get_default.
  rewrite !lookup_insert_eq, !lookup_insert_ne by done. simpl. rewrite Heq.
  by rewrite (build_where_ext (<["sort_by" := v]> f) (<["sort_by" := w]> f))
    by (intros key Hkey; unfold filter_value, dict_get;
        rewrite !lookup_insert_ne; [done | intros <-; revert Hkey;
          apply (bool_decide_unpack _); by vm_compute..]).
Qed.

(** C5, as the code has it: the allow-list is [valid_sort_fields] (with
    [company_name], not [company]).  A [sort_by] from it orders the
    returned rows by that column, ascending when [sort_order] is the word
    ASC in any case and descending otherwise, the default included; a
    [sort_by] outside it, of any type, gives what [scraped_at] gives. *)
Theorem search_jobs_order (filters : gmap string pyval) (page per_page : Z)
    (t : table) :
  (∀ field order rs n,
      field ∈ valid_sort_fields →
      dict_get_default filters "sort_by" (PyStr "scraped_at") = PyStr field →
      dict_get_default filters "sort_order" (PyStr "desc") = PyStr order →
      search_jobs filters page per_page t = Ok (rs, n) →
      Sorted (ordered_by field (negb (String.eqb (upper order) "ASC"))) rs)
  ∧ (∀ v,
        (∀ field, field ∈ valid_sort_fields → v ≠ PyStr field) →
        search_jobs (<["sort_by" := v]> filters) page per_page t
        = search_jobs (<["sort_by" := PyStr "scraped_at"]> filters) page per_page t).
Proof.
  split.
  - intros field order rs n Hfield Hby Horder Hrun.
    apply search_jobs_ok in Hrun
      as (params & sort_by & sort_order & Hplan & _ & _ & -> & _).
    unfold search_plan in Hplan.
    rewrite Hby, Horder, (resolve_sort_by_valid field Hfield) in Hplan.
    destruct (build_where filters) as [w | e]; [|done].
    unfold py_upper in Hplan. cbn [mbind result_bind] in Hplan.
    destruct (bind_where w) as [p | e]; [|done].
    injection Hplan as <- <- <-.
    apply limit_offset_sorted. rewrite <- resolve_sort_order_asc.
    eapply Sorted_impl; [apply order_le_ordered_by|].
    apply sort_with_sorted, order_le_total.
  - intros v Hout. apply search_jobs_ext, search_plan_sort_by.
    rewrite (resolve_sort_by_other v Hout). done.
Qed.

(** A search that returns: its count, and its page. *)
Lemma search_jobs_page (filters : gmap string pyval) (page per_page : Z)
    (t : table) (rs : list row) (n : Z) :
  search_jobs filters page per_page t = Ok (rs, n) →
  (∃ params,
      build_where filters ≫= bind_where = Ok params
      ∧ n = Z.of_nat (length (List.filter (where_holds params) (rows t))))
  ∧ (∀ page' per_page' rs' n',
        search_jobs filters page' per_page' t = Ok (rs', n') → n' = n)
  ∧ (∃ selected,
        search_ordered filters t = Ok selected
        ∧ Z.of_nat (length selected) = n
        ∧ rs = limit_offset per_page ((page - 1) * per_page) selected
        ∧ (page = 1%Z → (0 ≤ per_page)%Z → rs = take (Z.to_nat per_page) selected))
  ∧ ((0 ≤ per_page)%Z → (Z.of_nat (length rs) ≤ per_page)%Z).
Proof.
  intros Hrun.
  apply search_jobs_ok in Hrun
    as (params & sort_by & sort_order & Hplan & _ & _ & -> & ->).
  split; [|split; [|split]].
  - exists params. split; [|done].
    unfold search_plan in Hplan.
    destruct (build_where filters) as [w | e]; simpl in *; [|done].
    destruct (py_upper _) as [o | e]; simpl in *; [|done].
    destruct (bind_where w) as [p | e]; simpl in *; [|done]. by simplify_eq.
  - intros page' per_page' rs' n' Hrun'.
    apply search_jobs_ok in Hrun' as (? & ? & ? & Hplan' & _ & _ & _ & ->).
    rewrite Hplan in Hplan'. by simplify_eq.
  - eexists. unfold search_ordered. rewrite Hplan. simpl.
    split; [done|]. split; [|split; [done|]].
    + unfold order_by. by rewrite sort_with_length.
    + intros -> Hpp. unfold limit_offset.
      destruct (Z.ltb_spec per_page 0); [lia|].
      by replace ((1 - 1) * per_page)%Z with 0%Z by lia.
  - apply limit_offset_length.
Qed.



End SearchTheorems.

(** ** The salary filters among other filters *)

Section SalaryAmongFilters.
Context `{Runtime}.

Lemma add_condition_ok (filters : gmap string pyval) (key : string)
    (make : pyval → result (list (sqlexpr pyval)))
    (w w' : list (sqlexpr pyval)) :
  add_condition filters key make w = Ok w' →
  ∃ new, w' = w ++ new
         ∧ ∀ v, filter_value filters key = Some v → make v = Ok new.
Proof.
  unfold add_condition. destruct (filter_value filters key) as [v|].
  - destruct (make v) as [new | e] eqn:Hmake; simpl; [|done].
    intros [= <-]. exists new. split; [done|]. by intros ? [= <-].
  - intros [= <-]. exists []. by rewrite app_nil_r.
Qed.

Lemma limit_offset_elem {A : Type} (limit offset : Z) (l : list A) (x : A) :
  x ∈ limit_offset limit offset l → x ∈ l.
Proof.
  unfold limit_offset. intros Hx.
  destruct (limit <? 0)%Z.
  - by apply (subseteq_drop (Z.to_nat offset) l).
  - by apply (subseteq_drop (Z.to_nat offset) l), (subseteq_take (Z.to_nat limit)).
Qed.

(** Every row that a search returns is a row of the table that satisfies
    the conditions. *)
Lemma search_jobs_rows_selected (filters : gmap string pyval) (page per_page : Z)
    (t : table) (rs : list row) (n : Z) :
  search_jobs filters page per_page t = Ok (rs, n) →
  ∃ params,
    build_where filters ≫= bind_where = Ok params
    ∧ ∀ r, r ∈ rs → r ∈ rows t ∧ where_holds params r = true.
Proof.
  intros Hrun.
  apply search_jobs_ok in Hrun
    as (params & sort_by & sort_order & Hplan & _ & _ & -> & _).
  exists params. split.
  - unfold search_plan in Hplan.
    destruct (build_where filters) as [w | e]; simpl in *; [|done].
    destruct (py_upper _) as [o | e]; simpl in *; [|done].
    destruct (bind_where w) as [p | e]; simpl in *; [|done]. by simplify_eq.
  - intros r Hr. apply limit_offset_elem in Hr.
    unfold order_by in Hr. rewrite sort_with_perm in Hr.
    apply list_elem_of_In, filter_In in Hr as [Hin Hholds].
    split; [by apply list_elem_of_In | done].
Qed.

Lemma bind_where_elem (w : list (sqlexpr pyval)) (p : list (sqlexpr sqlval))
    (e : sqlexpr pyval) :
  bind_where w = Ok p → e ∈ w → ∃ e', bind_expr e = Ok e' ∧ e' ∈ p.
Proof.
  unfold bind_where.
  assert (Hgen : ∀ acc,
             for_each (λ acc e, e' ← bind_expr e; Ok (acc ++ [e'])) w acc = Ok p →
             (∀ x, x ∈ acc → x ∈ p)
             ∧ (e ∈ w → ∃ e', bind_expr e = Ok e' ∧ e' ∈ p)).
  { induction w as [|x w IH]; intros acc Hrun; simpl in Hrun.
    - simplify_eq. split; [done | by intros ?%elem_of_nil].
    - destruct (bind_expr x) as [x' | err] eqn:Hx; simpl in Hrun; [|done].
      destruct (IH _ Hrun) as [Hacc Hin]. split.
      + intros y Hy. apply Hacc, elem_of_app. by left.
      + intros [-> | He]%elem_of_cons; [|by apply Hin].
        exists x'. split; [done|]. apply Hacc, elem_of_app. right. by left. }
  intros Hrun. by apply (Hgen [] Hrun).
Qed.

Lemma where_holds_elem (p : list (sqlexpr sqlval)) (e : sqlexpr sqlval) (r : row) :
  where_holds p r = true → e ∈ p → eval_expr e r = Some true.
Proof.
  unfold where_holds. rewrite forallb_forall. intros Hall He.
  apply list_elem_of_In, Hall in He. by apply bool_decide_eq_true in He.
Qed.

Ltac step_where Hbuild w Hnew :=
  match type of Hbuild with
  | (add_condition ?f ?k ?mk ?w0 ≫= _) = _ =>
      let e := fresh "e" in
      let Hstep := fresh "Hstep" in
      destruct (add_condition f k mk w0) as [w | e] eqn:Hstep;
      [cbn [mbind result_bind] in Hbuild;
       apply add_condition_ok in Hstep as (? & -> & Hnew)
      |done]
  end.

(** The conditions that the two salary filters add, whatever the other
    filters are. *)
Lemma build_where_salary (filters : gmap string pyval) (w : list (sqlexpr pyval)) :
  build_where filters = Ok w →
  (∀ v, filter_value filters "min_salary" = Some v →
        ∃ s, py_float v = Ok s
             ∧ EOr (EGe "min_amount" (PyFloat s)) (EGe "max_amount" (PyFloat s)) ∈ w)
  ∧ (∀ v, filter_value filters "max_salary" = Some v →
          ∃ s, py_float v = Ok s
               ∧ EOr (ELe "min_amount" (PyFloat s)) (ELe "max_amount" (PyFloat s)) ∈ w).
Proof.
  unfold build_where. intros Hbuild.
  step_where Hbuild w1 H1. step_where Hbuild w2 H2. step_where Hbuild w3 H3.
  step_where Hbuild w4 H4. step_where Hbuild w5 H5. step_where Hbuild w6 H6.
  step_where Hbuild w7 H7. step_where Hbuild w8 H8. step_where Hbuild w9 H9.
  apply add_condition_ok in Hbuild as (x10 & -> & _).
  split; intros v Hv.
  - specialize (H8 v Hv). destruct (py_float v) as [s | e]; [|done].
    exists s. split; [done|]. simpl in H8. injection H8 as <-.
    rewrite !elem_of_app. left. left. right. by left.
  - specialize (H9 v Hv). destruct (py_float v) as [s | e]; [|done].
    exists s. split; [done|]. simpl in H9. injection H9 as <-.
    rewrite !elem_of_app. left. right. by left.
Qed.

(** Under any filters, the rows returned for a [min_salary] that is true
    in a condition have an amount that is at least its number, and the
    rows returned for such a [max_salary] have an amount that is at most
    its number. *)
Lemma search_jobs_salary_bounds (filters : gmap string pyval) (page per_page : Z)
    (t : table) (rs : list row) (n : Z) (r : row) :
  search_jobs filters page per_page t = Ok (rs, n) → r ∈ rs →
  stored_amount (col r "min_amount") → stored_amount (col r "max_amount") →
  (∀ v, filter_value filters "min_salary" = Some v →
        ∃ s, py_float v = Ok s
             ∧ (amount_at_least (col r "min_amount") s
                ∨ amount_at_least (col r "max_amount") s))
  ∧ (∀ v, filter_value filters "max_salary" = Some v →
          ∃ s, py_float v = Ok s
               ∧ (amount_at_most (col r "min_amount") s
                  ∨ amount_at_most (col r "max_amount") s)).
Proof.
  intros Hrun Hr Hmin Hmax.
  destruct (search_jobs_rows_selected _ _ _ _ _ _ Hrun) as (params & Hparams & Hsel).
  destruct (Hsel r Hr) as [_ Hholds].
  destruct (build_where filters) as [w | e] eqn:Hbuild; simpl in Hparams; [|done].
  destruct (build_where_salary _ _ Hbuild) as [Hlow Hhigh].
  split; intros v Hv.
  - destruct (Hlow v Hv) as (s & Hs & Hin). exists s. split; [done|].
    destruct (bind_where_elem _ _ _ Hparams Hin) as (e' & He' & Hin').
    simpl in He'. injection He' as <-.
    pose proof (where_holds_elem _ _ _ Hholds Hin') as Heval. simpl in Heval.
    apply sql_or_true in Heval.
    change (with_affinity "min_amount" ?p) with p in Heval.
    change (with_affinity "max_amount" ?p) with p in Heval.
    fold (salary_parameter s) in Heval. by rewrite !sql_ge_amount in Heval.
  - destruct (Hhigh v Hv) as (s & Hs & Hin). exists s. split; [done|].
    destruct (bind_where_elem _ _ _ Hparams Hin) as (e' & He' & Hin').
    simpl in He'. injection He' as <-.
    pose proof (where_holds_elem _ _ _ Hholds Hin') as Heval. simpl in Heval.
    apply sql_or_true in Heval.
    change (with_affinity "min_amount" ?p) with p in Heval.
    change (with_affinity "max_amount" ?p) with p in Heval.
    fold (salary_parameter s) in Heval. by rewrite !sql_le_amount in Heval.
Qed.

End SalaryAmongFilters.

Section StatisticsFacts.
Context `{Runtime}.

Lemma py_truediv_guarded (a b : Z) :
  (0 <? b)%Z = true → ∃ q, py_truediv a b = Ok q.
Proof.
  intros Hb%Z.ltb_lt. unfold py_truediv.
  destruct (Z.eqb_spec b 0); [lia | eauto].
Qed.

Lemma filter_none {A : Type} (f : A → bool) (l : list A) :
  (∀ x, x ∈ l → f x = false) → List.filter f l = [].
Proof.
  induction l as [|x l IH]; intros Hall; simpl; [done|].
  rewrite (Hall x) by left. apply IH. intros y Hy. apply Hall. by right.
Qed.

(** C7: [get_statistics] returns for every table (no division by zero is
    ever reached); when no row has salary data every salary aggregate is
    zero; on the empty table [total_jobs] and [remote_percentage] are zero
    as well and the two breakdowns are empty. *)
Theorem get_statistics_guarded (t : table) :
  ∃ stats,
    get_statistics t = Ok stats
    ∧ total_jobs stats = Z.of_nat (length (rows t))
    ∧ ((∀ r, r ∈ rows t → has_salary r = false) → salary stats = zero_salary_stats)
    ∧ (rows t = [] →
       total_jobs stats = 0%Z ∧ remote_percentage stats = PyInt 0
       ∧ jobs_by_country stats = [] ∧ jobs_by_site stats = []
       ∧ salary stats = zero_salary_stats).
Proof.
  unfold get_statistics. cbv beta iota zeta.
  set (total := Z.of_nat (length (rows t))).
  set (with_salary := List.filter has_salary (rows t)).
  set (n := Z.of_nat (length with_salary)).
  set (remote_count := Z.of_nat (length (List.filter _ (rows t)))).
  set (by_country := group_counts String.leb _).
  set (by_site := group_counts _ _).
  assert (Hnone : (∀ r, r ∈ rows t → has_salary r = false) → (0 <? n)%Z = false).
  { intros Hall. subst n with_salary. by rewrite filter_none. }
  assert (Hempty : rows t = [] →
                   (0 <? total)%Z = false ∧ (0 <? n)%Z = false
                   ∧ by_country = [] ∧ by_site = []).
  { intros Hrows. subst total n with_salary by_country by_site.
    by rewrite Hrows. }
  destruct (0 <? total)%Z eqn:Htotal.
  - destruct (py_truediv_guarded remote_count total Htotal) as [q ->].
    destruct (py_truediv_guarded n total Htotal) as [q' ->].
    destruct (0 <? n)%Z eqn:Hn; simpl;
      (eexists; split; [done|]; simpl; split; [done|]; split;
       [intros Hall; by specialize (Hnone Hall)
       |intros Hrows; by destruct (Hempty Hrows)]).
  - destruct (0 <? n)%Z eqn:Hn; simpl;
      (eexists; split; [done|]; simpl; split; [done|]; split;
       [intros Hall; by specialize (Hnone Hall)|]);
      intros Hrows; destruct (Hempty Hrows) as (_ & ? & -> & ->); try done.
    repeat (split; [done|]). split; [|done].
    subst total. by rewrite Hrows.
Qed.

End StatisticsFacts.

Lemma get_statistics_guarded_witness :
  ∃ stats,
    get_statistics (H := example_runtime) empty_table = Ok stats
    ∧ total_jobs stats = 0%Z ∧ remote_percentage stats = PyInt 0
    ∧ salary stats = zero_salary_stats.
Proof.
  destruct (get_statistics_guarded (H := example_runtime) empty_table)
    as (stats & Hrun & _ & _ & Hempty).
  destruct (Hempty eq_refl) as (Htotal & Hremote & _ & _ & Hsalary).
  by exists stats.
Defined.

(** ** Closed instances *)

(** A closed equation between values with decidable equality, settled by
    running the decision procedure. *)
Ltac by_evaluation := apply (bool_decide_unpack _); vm_compute; exact I.




(** The salary example of the specification: a row with 1000 to 2000 is
    selected by [min_salary=1500] and by [max_salary=1500]. *)
Lemma salary_filters_select_witness :
  (∃ params,
      build_where (H := example_runtime) {[ "min_salary" := PyInt 1500 ]}
        ≫= bind_where = Ok params
      ∧ where_holds (H := example_runtime) params row_zeta = true)
  ∧ (∃ params,
        build_where (H := example_runtime) {[ "max_salary" := PyInt 1500 ]}
          ≫= bind_where = Ok params
        ∧ where_holds (H := example_runtime) params row_zeta = true)
  ∧ search_jobs (H := example_runtime) {[ "min_salary" := PyInt 1500 ]} 1 20 two_rows
    = Ok ([row_zeta], 1%Z)
  ∧ search_jobs (H := example_runtime) {[ "max_salary" := PyInt 1500 ]} 1 20 two_rows
    = Ok ([row_zeta], 1%Z).
Proof.
  destruct (salary_filters_select (H := example_runtime) (PyInt 1500)
              (float_of_Z 1500) eq_refl eq_refl)
    as [(pmin & Hmin & Hsel_min) (pmax & Hmax & Hsel_max)].
  assert (stored_amount (col row_zeta "min_amount")) as Hlo.
  { right. exists (float_of_Z 1000). split; vm_compute; reflexivity. }
  assert (stored_amount (col row_zeta "max_amount")) as Hhi.
  { right. exists (float_of_Z 2000). split; vm_compute; reflexivity. }
  split; [|split; [|split; by_evaluation]].
  - exists pmin. split; [done|]. apply (Hsel_min row_zeta Hlo Hhi).
    right. exists (float_of_Z 2000). split; vm_compute; reflexivity.
  - exists pmax. split; [done|]. apply (Hsel_max row_zeta Hlo Hhi).
    left. exists (float_of_Z 1000). split; vm_compute; reflexivity.
Defined.

(** C4 as stated fails at the filter value 0: the search with
    [min_salary=0] returns a row that has no amount at all. *)
Lemma zero_min_salary_selects_row_without_salary :
  search_jobs (H := example_runtime) {[ "min_salary" := PyInt 0 ]} 1 20
    (Table [row_alpha] 2) = Ok ([row_alpha], 1%Z)
  ∧ py_float (H := example_runtime) (PyInt 0) = Ok (float_of_Z 0)
  ∧ ¬ (amount_at_least (col row_alpha "min_amount") (float_of_Z 0)
       ∨ amount_at_least (col row_alpha "max_amount") (float_of_Z 0)).
Proof.
  split; [by_evaluation|]. split; [by_evaluation|].
  intros [(a & Ha & _) | (a & Ha & _)]; vm_compute in Ha; discriminate.
Qed.

Lemma search_jobs_order_witness :
  Sorted (ordered_by "company_name" false) [row_alpha; row_zeta]
  ∧ search_jobs (H := example_runtime) {[ "sort_by" := PyInt 7 ]} 1 20 two_rows
    = search_jobs (H := example_runtime) {[ "sort_by" := PyStr "scraped_at" ]} 1 20
        two_rows.
Proof.
  destruct (search_jobs_order (H := example_runtime)
              {[ "sort_by" := PyStr "company_name"; "sort_order" := PyStr "asc" ]}
              1 20 two_rows) as [Hsorted _].
  destruct (search_jobs_order (H := example_runtime) ∅ 1 20 two_rows)
    as [_ Hfallback].
  split.
  - apply (Hsorted "company_name" "asc" [row_alpha; row_zeta] 2%Z).
    + repeat constructor.
    + by_evaluation.
    + by_evaluation.
    + by_evaluation.
  - apply (Hfallback (PyInt 7)). intros field _. discriminate.
Defined.

(** C5 as stated fails at [sort_by=company]: the rows come back in the
    order of [scraped_at], which is not the order of the company names. *)
Lemma sort_by_company_is_not_by_company :
  search_jobs (H := example_runtime)
    {[ "sort_by" := PyStr "company"; "sort_order" := PyStr "asc" ]} 1 20 two_rows
  = Ok ([row_zeta; row_alpha], 2%Z)
  ∧ search_jobs (H := example_runtime)
      {[ "sort_by" := PyStr "scraped_at"; "sort_order" := PyStr "asc" ]} 1 20 two_rows
    = Ok ([row_zeta; row_alpha], 2%Z)
  ∧ ¬ Sorted (ordered_by "company_name" false) [row_zeta; row_alpha].
Proof.
  split; [by_evaluation|]. split; [by_evaluation|].
  intros Hsorted. inversion Hsorted as [|? ? _ Hhd]. subst.
  inversion Hhd as [|? ? Hrel]. subst. apply Hrel. vm_compute. reflexivity.
Qed.



(** The end-to-end scenario: one site returns a record in Singapore and a
    record in New York; one row is inserted, after one external call. *)
Example scrape_jobs_end_to_end :
  let '(returned, t, calls) :=
    scrape_jobs (H := example_runtime) (λ _, Ok [job_singapore; job_new_york])
      example_clock "developer" "Singapore" 25 (Some ["indeed"]) None None
      empty_table in
  returned = Ok 1%Z
  ∧ (λ r : row, col r "location") <$> rows t = [SqlText "Singapore"]
  ∧ calls
    = [ScrapeCall "indeed" "developer" "Singapore" 25 None None (Some "Singapore")].
Proof. vm_compute. repeat split. Qed.

Lemma falsy_filter_is_absent_witness :
  search_jobs (H := example_runtime) {[ "min_salary" := PyInt 0 ]} 1 20 two_rows
  = search_jobs (H := example_runtime) ∅ 1 20 two_rows
  ∧ search_jobs (H := example_runtime) {[ "is_remote" := PyBool false ]} 1 20 two_rows
    = search_jobs (H := example_runtime) ∅ 1 20 two_rows
  ∧ search_jobs (H := example_runtime) {[ "title" := PyStr "" ]} 1 20 two_rows
    = search_jobs (H := example_runtime) ∅ 1 20 two_rows.
Proof.
  pose proof (falsy_filter_is_absent (H := example_runtime) ∅) as Habsent.
  split; [|split].
  - rewrite <- (delete_empty (M := gmap string) (A := pyval) "min_salary").
    apply (Habsent "min_salary" (PyInt 0) 1%Z 20%Z two_rows);
      [repeat constructor | reflexivity].
  - rewrite <- (delete_empty (M := gmap string) (A := pyval) "is_remote").
    apply (Habsent "is_remote" (PyBool false) 1%Z 20%Z two_rows);
      [repeat constructor | reflexivity].
  - rewrite <- (delete_empty (M := gmap string) (A := pyval) "title").
    apply (Habsent "title" (PyStr "") 1%Z 20%Z two_rows);
      [repeat constructor | reflexivity].
Defined.

(** ** More on [insert_jobs] *)

Section InsertMore.
Context `{Runtime}.

(** The counters that a run starts from are carried along. *)
Lemma insert_run_counters clock jobs_data t a b :
  foldl (insert_job clock) (InsertState t a b) jobs_data
  = let s := foldl (insert_job clock) (InsertState t 0 0) jobs_data in
    InsertState (jobs_table s) (a + inserted_count s) (b + skipped_count s).
Proof.
  cbv zeta. revert t a b.
  induction jobs_data as [|job_data jobs_data IH]; intros t a b.
  - simpl. f_equal; lia.
  - cbn [foldl]. rewrite !(insert_job_eq clock _ job_data). simpl.
    destruct (plan_job job_data) as [| |values].
    + rewrite IH. rewrite (IH t 0%Z (0 + 1)%Z). simpl. f_equal; lia.
    + apply IH.
    + destruct (blocked values t); [apply IH|].
      rewrite IH. rewrite (IH _ (0 + 1)%Z 0%Z). simpl. f_equal; lia.
Qed.

(** X1: inserting a list of records in one call is the same as inserting
    a first part and then the rest in a second call: the table is the
    same and the returned counts add up. *)
Theorem insert_jobs_app (clock : Z → string)
    (first rest : list (gmap string pyval)) (t : table) :
  insert_jobs clock (first ++ rest) t
  = let '(t1, n1) := insert_jobs clock first t in
    let '(t2, n2) := insert_jobs clock rest t1 in
    (t2, (n1 + n2)%Z).
Proof.
  rewrite !insert_jobs_loop, !insert_loop_flat, foldl_app.
  destruct (foldl (insert_job clock) (InsertState t 0 0) first) as [t1 n1 k1] eqn:E1.
  cbn [jobs_table inserted_count].
  by rewrite (insert_run_counters clock rest t1 n1 k1).
Qed.


Lemma col_stamped_id clock id values : col (stamped clock id values) "id" = SqlInt id.
Proof. unfold col, stamped. by rewrite lookup_insert_eq. Qed.

Lemma col_stamped_scraped_at clock id values :
  col (stamped clock id values) "scraped_at" = SqlText (clock id).
Proof. unfold col, stamped. by rewrite lookup_insert_ne, lookup_insert_eq. Qed.

Lemma col_stamped_other clock id values c :
  c ≠ "id" → c ≠ "scraped_at" → col (stamped clock id values) c = col values c.
Proof. intros ? ?. unfold col, stamped. by rewrite !lookup_insert_ne. Qed.




End InsertMore.

Section InsertKeys.
Context `{Runtime}.

(** X3: the (job_url, site) pairs in the table after [insert_jobs] are
    those that were there before and those of the records that reach the
    INSERT statement, and no others. *)
Theorem insert_jobs_keys (clock : Z → string)
    (jobs_data : list (gmap string pyval)) (t : table) (key : sqlval * sqlval) :
  key ∈ row_key <$> rows (fst (insert_jobs clock jobs_data t)) ↔
  key ∈ row_key <$> rows t
  ∨ ∃ job_data values,
      job_data ∈ jobs_data ∧ plan_job job_data = PlanInsert values
      ∧ row_key values = key.
Proof.
  rewrite insert_jobs_loop, insert_loop_flat. cbn [fst].
  destruct (insert_run clock jobs_data (InsertState t 0 0))
    as ((extra & Hrows & _ & Hfrom) & _ & Hblocked & _).
  cbn [jobs_table] in *. split.
  - rewrite Hrows, fmap_app. intros [Hold | Hnew]%elem_of_app; [by left | right].
    apply list_elem_of_fmap in Hnew as (r & -> & Hr).
    destruct (Hfrom r Hr) as (job_data & id & values & Hin & Hplan & ->).
    exists job_data, values. by rewrite row_key_stamped.
  - intros [Hold | (job_data & values & Hin & Hplan & <-)].
    + rewrite Hrows, fmap_app. apply elem_of_app. by left.
    + destruct (plan_insert_text_key _ _ Hplan) as (url & site & Hkey).
      apply (blocked_iff _ _ url site Hkey). by apply (Hblocked job_data).
Qed.

(** The counters of a run, against the number of records. *)
Lemma insert_run_counts clock jobs_data s :
  let s' := foldl (insert_job clock) s jobs_data in
  (inserted_count s ≤ inserted_count s')%Z
  ∧ (skipped_count s ≤ skipped_count s')%Z
  ∧ (inserted_count s' + skipped_count s'
     + Z.of_nat (length (List.filter record_fails jobs_data))
     ≤ inserted_count s + skipped_count s + Z.of_nat (length jobs_data))%Z.
Proof.
  revert s. induction jobs_data as [|job_data jobs_data IH]; intros s.
  - simpl. split; [lia|]. split; lia.
  - cbn [foldl]. cbv zeta in IH.
    destruct (IH (insert_job clock s job_data)) as (Hi & Hs & Hsum).
    rewrite (insert_job_eq clock s job_data) in Hi, Hs, Hsum |- *.
    assert (Hfails : record_fails job_data
                     = match plan_job job_data with PlanFail => true | _ => false end)
      by done.
    cbn [List.filter]. rewrite Hfails. clear Hfails.
    destruct (plan_job job_data) as [| |values]; cbn [length] in *;
      [simpl in *; split; [lia|]; split; lia.. |].
    destruct (blocked values (jobs_table s)); simpl in *; (split; [lia|]; split; lia).
Qed.

(** X4: the number that [insert_jobs] returns and its count of records
    outside the region are not negative, and the two together leave room
    for the records that were passed over because of an exception: the
    figure logged as duplicates, [len(jobs_data) - inserted_count -
    skipped_count], is never negative and counts those records too. *)
Theorem insert_jobs_counts (clock : Z → string)
    (jobs_data : list (gmap string pyval)) (t : table) :
  let s := insert_loop clock jobs_data t in
  snd (insert_jobs clock jobs_data t) = inserted_count s
  ∧ (0 ≤ inserted_count s)%Z
  ∧ (0 ≤ skipped_count s)%Z
  ∧ (Z.of_nat (length (List.filter record_fails jobs_data))
     ≤ Z.of_nat (length jobs_data) - inserted_count s - skipped_count s)%Z.
Proof.
  cbv zeta. rewrite insert_jobs_loop, insert_loop_flat. cbn [snd].
  destruct (insert_run_counts clock jobs_data (InsertState t 0 0)) as (Hi & Hs & Hsum).
  cbn [inserted_count skipped_count] in *.
  split; [done|]. split; [lia|]. split; lia.
Qed.

End InsertKeys.

(** ** More on the Sanitizer *)

Lemma rstrip_rstrip s : rstrip (rstrip s) = rstrip s.
Proof.
  induction s as [|c s IH]; [done|]. cbn [rstrip].
  destruct (is_space c && str_empty (rstrip s)) eqn:E; [done|].
  cbn [rstrip]. by rewrite IH, E.
Qed.

Lemma lstrip_no_leading_space s : no_leading_space (lstrip s).
Proof.
  induction s as [|c s IH]; [done|]. cbn [lstrip].
  by destruct (is_space c) eqn:E.
Qed.

Lemma rstrip_no_leading_space s : no_leading_space s → no_leading_space (rstrip s).
Proof.
  destruct s as [|c s]; [done|]. cbn [rstrip no_leading_space].
  intros Hc. by rewrite Hc.
Qed.

Lemma lstrip_fixed s : no_leading_space s → lstrip s = s.
Proof. destruct s as [|c s]; [done|]. cbn. by intros ->. Qed.

Lemma strip_strip s : strip (strip s) = strip s.
Proof.
  unfold strip.
  rewrite (lstrip_fixed (rstrip (lstrip s)))
    by apply rstrip_no_leading_space, lstrip_no_leading_space.
  apply rstrip_rstrip.
Qed.

Lemma insert_columns_fields k :
  k ∈ insert_columns ↔
  k ∈ ["site"; "job_url"; "title"] ∨ k ∈ string_fields ∨ k ∈ numeric_fields
  ∨ k = "is_remote".
Proof.
  assert (Hall : Forall (λ k, k ∈ ["site"; "job_url"; "title"] ∨ k ∈ string_fields
                              ∨ k ∈ numeric_fields ∨ k = "is_remote")
                        insert_columns)
    by (apply (bool_decide_unpack _); by vm_compute).
  assert (Hback : Forall (λ k, k ∈ insert_columns)
                    (["site"; "job_url"; "title"] ++ string_fields
                     ++ numeric_fields ++ ["is_remote"]))
    by (apply (bool_decide_unpack _); by vm_compute).
  split.
  - intros Hk. by apply (proj1 (Forall_forall _ _) Hall).
  - intros Hk. apply (proj1 (Forall_forall _ _) Hback).
    rewrite !elem_of_app, list_elem_of_singleton. tauto.
Qed.

Section SanitizerMore.
Context `{Runtime}.

(** The dictionary that the Sanitizer returns has no other keys than the
    fields it fills. *)
Lemma sanitize_job_data_other (job_data sanitized : gmap string pyval) (k : string) :
  sanitize_job_data job_data = Ok sanitized →
  k ∉ insert_columns → sanitized !! k = None.
Proof.
  unfold sanitize_job_data. intros Hrun Hk.
  rewrite insert_columns_fields in Hk.
  match type of Hrun with
  | (for_each ?body numeric_fields ?init ≫= _) = _ =>
      destruct (for_each body numeric_fields init) as [m | e] eqn:Hnum;
      simpl in Hrun; [|done];
      pose proof (for_each_insert_ok
                    (λ field, sanitize_numeric (dict_get job_data field))
                    _ _ _ Hnum k) as Hm;
      clear Hnum
  end.
  simplify_eq.
  rewrite lookup_insert_ne by (intros <-; tauto).
  rewrite decide_False in Hm by tauto. rewrite Hm.
  rewrite foldl_insert_lookup, decide_False by tauto.
  rewrite !lookup_insert_ne, lookup_empty; [done|..];
    intros <-; apply Hk; left; repeat constructor.
Qed.

(** X5: whatever keys the record has, the dictionary that the Sanitizer
    returns has exactly the 34 keys that the INSERT statement of
    [insert_jobs] reads. *)
Theorem sanitize_job_data_keys (job_data sanitized : gmap string pyval) :
  sanitize_job_data job_data = Ok sanitized →
  ∀ k, is_Some (sanitized !! k) ↔ k ∈ insert_columns.
Proof.
  intros Hrun k. split.
  - intros Hsome. destruct (decide (k ∈ insert_columns)) as [|Hk]; [done|].
    rewrite (sanitize_job_data_other _ _ k Hrun Hk) in Hsome. by destruct Hsome.
  - intros Hk. apply insert_columns_fields in Hk.
    destruct (sanitize_job_data_lookup _ _ Hrun) as (Hreq & Hstr & Hnum & Hrem).
    destruct Hk as [Hk | [Hk | [Hk | ->]]].
    + by rewrite Hreq.
    + by rewrite Hstr.
    + destruct (Hnum k Hk) as (v & _ & ->). done.
    + by rewrite Hrem.
Qed.

Lemma sanitize_numeric_again (value v : pyval) :
  sanitize_numeric value = Ok v →
  (v = PyNone ∨ ∃ f, v = PyFloat f) ∧ sanitize_numeric v = Ok v.
Proof.
  unfold sanitize_numeric. destruct value as [|b|z|f|s|repr]; simpl.
  - intros [= <-]. split; [by left | done].
  - intros [= <-]. split; [right; eauto | done].
  - destruct (is_infinite (float_of_Z z)); [done|]. intros [= <-].
    split; [right; eauto | done].
  - intros [= <-]. split; [right; eauto | done].
  - destruct (float_of_str s); intros [= <-]; (split; [eauto | done]).
  - intros [= <-]. split; [by left | done].
Qed.

Lemma sanitize_is_remote_again (value : pyval) :
  (sanitize_is_remote value = PyInt 0 ∨ sanitize_is_remote value = PyInt 1)
  ∧ sanitize_is_remote (sanitize_is_remote value) = sanitize_is_remote value.
Proof.
  assert (H0 : sanitize_is_remote (PyInt 0) = PyInt 0) by (by vm_compute).
  assert (H1 : sanitize_is_remote (PyInt 1) = PyInt 1) by (by vm_compute).
  destruct value as [|[|]|z|f|s|repr]; cbn [sanitize_is_remote];
    try (split; [by (left + right) | done]).
  - destruct (bool_decide _); (split; [by (left + right) | done]).
  - destruct (bool_decide _); (split; [by (left + right) | done]).
Qed.

Lemma sanitize_string_again (value : pyval) :
  sanitize_string (sanitize_string value) = sanitize_string value.
Proof.
  destruct value as [|b|z|f|s|repr]; simpl; try done; by rewrite strip_strip.
Qed.

(** X6: the Sanitizer leaves its own output as it is: sanitizing a
    sanitized record returns the same dictionary. *)
Theorem sanitize_job_data_idempotent (job_data sanitized : gmap string pyval) :
  sanitize_job_data job_data = Ok sanitized →
  sanitize_job_data sanitized = Ok sanitized.
Proof.
  intros Hrun.
  destruct (sanitize_job_data_lookup _ _ Hrun) as (Hreq & Hstr & Hnum & Hrem).
  destruct (sanitize_job_data sanitized) as [again | e] eqn:Hagain.
  - f_equal. apply map_eq. intros k.
    destruct (sanitize_job_data_lookup _ _ Hagain) as (Hreq' & Hstr' & Hnum' & Hrem').
    destruct (decide (k ∈ insert_columns)) as [Hk | Hk].
    + apply insert_columns_fields in Hk as [Hk | [Hk | [Hk | ->]]].
      * rewrite Hreq', Hreq by done. unfold dict_get_default at 1.
        rewrite Hreq by done. simpl. by rewrite strip_strip.
      * rewrite Hstr', Hstr by done. unfold dict_get at 1.
        rewrite Hstr by done. simpl. by rewrite sanitize_string_again.
      * destruct (Hnum k Hk) as (v & Hv & Hlook).
        destruct (Hnum' k Hk) as (v' & Hv' & Hlook').
        rewrite Hlook', Hlook. unfold dict_get in Hv'. rewrite Hlook in Hv'.
        simpl in Hv'. apply sanitize_numeric_again in Hv as [_ Hv]. congruence.
      * rewrite Hrem', Hrem. unfold dict_get at 1. rewrite Hrem. simpl.
        f_equal. apply sanitize_is_remote_again.
    + by rewrite (sanitize_job_data_other _ _ k Hagain Hk),
                 (sanitize_job_data_other _ _ k Hrun Hk).
  - apply sanitize_job_data_raises in Hagain as (_ & k & Hk & Hover).
    destruct (Hnum k Hk) as (v & Hv & Hlook).
    unfold dict_get in Hover. rewrite Hlook in Hover. simpl in Hover.
    apply sanitize_numeric_again in Hv as [[-> | [f ->]] _]; done.
Qed.

End SanitizerMore.

Section InsertTyped.
Context `{Runtime}.

Lemma insert_parameters_lookup (sanitized : gmap string pyval) (values : row)
    (c : string) :
  insert_parameters sanitized = Ok values →
  c ∈ insert_columns →
  ∃ v, sql_bind (dict_get sanitized c) = Ok v ∧ col values c = v.
Proof.
  intros Hrun Hc.
  pose proof (for_each_insert_ok (λ column, sql_bind (dict_get sanitized column))
                _ _ _ Hrun c) as Hval.
  rewrite decide_True in Hval by done. destruct Hval as (v & Hv & Hlook).
  exists v. split; [done|]. unfold col. by rewrite Hlook.
Qed.

(** What the Sanitizer returns can always be bound to the parameters of
    the INSERT statement, and the values bound have the types of their
    columns. *)
Lemma insert_parameters_sanitized (job_data sanitized : gmap string pyval) :
  sanitize_job_data job_data = Ok sanitized →
  ∃ values, insert_parameters sanitized = Ok values ∧ values_typed values.
Proof.
  intros Hrun.
  destruct (sanitize_job_data_lookup _ _ Hrun) as (Hreq & Hstr & Hnum & Hrem).
  assert (Hbind : ∀ c, c ∈ insert_columns →
                       ∃ v, sql_bind (dict_get sanitized c) = Ok v).
  { intros c Hc. unfold dict_get.
    apply insert_columns_fields in Hc as [Hc | [Hc | [Hc | ->]]].
    - rewrite Hreq by done. simpl. eauto.
    - rewrite Hstr by done. simpl.
      destruct (dict_get job_data c); simpl; eauto.
    - destruct (Hnum c Hc) as (v & Hv & ->). simpl.
      apply sanitize_numeric_again in Hv as [[-> | [f ->]] _]; simpl; eauto.
    - rewrite Hrem. simpl.
      destruct (sanitize_is_remote_again (dict_get job_data "is_remote"))
        as [[-> | ->] _]; simpl; eauto. }
  destruct (for_each_insert_total
              (λ column, sql_bind (dict_get sanitized column)) insert_columns ∅ Hbind)
    as [values Hvalues].
  exists values. split; [done|].
  pose proof (λ c, insert_parameters_lookup _ _ c Hvalues) as Hcol.
  split; [|split; [|split]].
  - intros c Hc.
    destruct (Hcol c) as (v & Hv & ->); [apply insert_columns_fields; tauto|].
    unfold dict_get in Hv. rewrite Hreq in Hv by done.
    simpl in Hv. simplify_eq. eexists. split; [done|]. apply strip_strip.
  - intros c Hc.
    destruct (Hcol c) as (v & Hv & ->); [apply insert_columns_fields; tauto|].
    unfold dict_get in Hv. rewrite Hstr in Hv by done. simpl in Hv.
    destruct (dict_get job_data c); simpl in Hv; simplify_eq;
      [by left | right; eexists; split; [done | apply strip_strip] ..].
  - intros c Hc.
    destruct (Hcol c) as (v & Hv & ->); [apply insert_columns_fields; tauto|].
    unfold dict_get in Hv.
    destruct (Hnum c Hc) as (w & Hw & Hlook). rewrite Hlook in Hv. simpl in Hv.
    apply sanitize_numeric_again in Hw as [[-> | [f ->]] _]; simpl in Hv;
      simplify_eq; [by left|].
    destruct (is_nan f) eqn:Hnan; [by left | right; eauto].
  - destruct (Hcol "is_remote") as (v & Hv & ->);
      [apply insert_columns_fields; tauto|].
    unfold dict_get in Hv. rewrite Hrem in Hv. simpl in Hv.
    destruct (sanitize_is_remote_again (dict_get job_data "is_remote"))
      as [[Hr | Hr] _]; rewrite Hr in Hv; simpl in Hv; simplify_eq; tauto.
Qed.

Lemma plan_insert_typed (job_data : gmap string pyval) (values : row) :
  plan_job job_data = PlanInsert values → values_typed values.
Proof.
  unfold plan_job.
  destruct (if py_truthy (dict_get job_data "location") then _ else _)
    as [[|] | e]; try done.
  destruct (sanitize_job_data job_data) as [sanitized | e] eqn:Hsan; simpl; [|done].
  destruct (insert_parameters_sanitized _ _ Hsan) as (values' & -> & Htyped).
  simpl. by intros [= <-].
Qed.

Lemma row_typed_stamped clock id values :
  values_typed values → row_typed (stamped clock id values).
Proof.
  intros (Hreq & Hstr & Hnum & Hrem).
  assert (Hother : ∀ c, c ∈ insert_columns →
                        col (stamped clock id values) c = col values c).
  { intros c Hc. apply col_stamped_other; intros ->; revert Hc;
      apply (bool_decide_unpack _); by vm_compute. }
  split; [|split].
  - split; [|split; [|split]].
    + intros c Hc. rewrite Hother by (apply insert_columns_fields; tauto). auto.
    + intros c Hc. rewrite Hother by (apply insert_columns_fields; tauto). auto.
    + intros c Hc. rewrite Hother by (apply insert_columns_fields; tauto). auto.
    + rewrite Hother by (apply insert_columns_fields; tauto). done.
  - exists id. apply col_stamped_id.
  - eexists. apply col_stamped_scraped_at.
Qed.

(** X7: the rows that [insert_jobs] adds hold values of the declared
    column types whatever the records held: text without white space at
    either end in [site], [job_url] and [title]; such text or NULL in the
    other TEXT columns; a double that is not a NaN, or NULL, in
    [min_amount], [max_amount] and [company_rating]; 0 or 1 in
    [is_remote]; an integer [id] and a text [scraped_at]. *)
Theorem insert_jobs_rows_typed (clock : Z → string)
    (jobs_data : list (gmap string pyval)) (t : table) :
  ∃ extra,
    rows (fst (insert_jobs clock jobs_data t)) = rows t ++ extra
    ∧ Forall row_typed extra.
Proof.
  rewrite insert_jobs_loop, insert_loop_flat. cbn [fst].
  destruct (insert_run clock jobs_data (InsertState t 0 0))
    as ((extra & Hrows & _ & Hfrom) & _).
  cbn [jobs_table] in *. exists extra. split; [done|].
  apply Forall_forall. intros r Hr.
  destruct (Hfrom r Hr) as (job_data & id & values & _ & Hplan & ->).
  by apply row_typed_stamped, (plan_insert_typed job_data).
Qed.




End InsertTyped.

Lemma NoDup_fmap_same {A B : Type} (f : A → B) (l : list A) (x y : A) :
  NoDup (f <$> l) → x ∈ l → y ∈ l → f x = f y → x = y.
Proof.
  induction l as [|z l IH]; [by intros _ ?%elem_of_nil|].
  rewrite fmap_cons, NoDup_cons. intros [Hz Hl].
  intros [-> | Hx]%elem_of_cons [-> | Hy]%elem_of_cons Hf; [done | | | by apply IH].
  - destruct Hz. rewrite Hf. by apply list_elem_of_fmap_2.
  - destruct Hz. rewrite <- Hf. by apply list_elem_of_fmap_2.
Qed.

Section FirstWins.
Context `{Runtime}.

(** X9: of several records for the same (job_url, site) pair the first
    one that reaches the INSERT is the one stored.  When the pair is not
    in the table and no earlier record of the list brings it, the values
    of the record are in the table afterwards, whatever follows in the
    list; and in a table that had no pair twice, the row is the only one
    with that pair. *)
Theorem insert_jobs_first_wins (clock : Z → string)
    (first rest : list (gmap string pyval)) (job_data : gmap string pyval)
    (values : row) (t : table) :
  plan_job job_data = PlanInsert values →
  row_key values ∉ row_key <$> rows t →
  (∀ j v, j ∈ first → plan_job j = PlanInsert v → row_key v ≠ row_key values) →
  let t' := fst (insert_jobs clock (first ++ job_data :: rest) t) in
  ∃ id,
    stamped clock id values ∈ rows t'
    ∧ (table_unique t →
       ∀ r, r ∈ rows t' → row_key r = row_key values → r = stamped clock id values).
Proof.
  intros Hplan Hfresh Hfirst. cbv zeta.
  destruct (plan_insert_text_key _ _ Hplan) as (url & site & Hkey).
  destruct (insert_run clock (first ++ job_data :: rest) (InsertState t 0 0))
    as (_ & _ & _ & Hunique).
  rewrite insert_jobs_loop, insert_loop_flat. cbn [fst].
  revert Hunique. rewrite foldl_app. cbn [foldl].
  destruct (insert_run clock first (InsertState t 0 0))
    as ((extra1 & Hrows1 & _ & Hfrom1) & _).
  set (s1 := foldl (insert_job clock) (InsertState t 0 0) first) in *.
  cbn [jobs_table] in *.
  assert (Hfree : blocked values (jobs_table s1) = false).
  { apply not_true_iff_false. rewrite (blocked_iff _ _ url site Hkey).
    rewrite Hrows1, fmap_app. intros [Hold | Hnew]%elem_of_app; [done|].
    apply list_elem_of_fmap in Hnew as (r & Hr & Hin).
    destruct (Hfrom1 r Hin) as (j & id & v & Hj & Hv & ->).
    rewrite row_key_stamped in Hr. by apply (Hfirst j v). }
  rewrite (insert_job_eq clock s1 job_data), Hplan, Hfree.
  match goal with
  | |- context [foldl (insert_job clock) ?s2 rest] =>
      destruct (insert_run clock rest s2) as ((extra2 & Hrows2 & _) & _);
      set (s3 := foldl (insert_job clock) s2 rest) in *
  end.
  cbn [jobs_table rows] in Hrows2. intros Hunique.
  exists (last_rowid (jobs_table s1) + 1)%Z.
  assert (Hin : stamped clock (last_rowid (jobs_table s1) + 1) values
                ∈ rows (jobs_table s3)).
  { rewrite Hrows2, !elem_of_app. left. right. apply list_elem_of_singleton. done. }
  split; [done|].
  intros Ht r Hr Hsame. destruct (Hunique Ht) as [_ Hnodup].
  apply (NoDup_fmap_same row_key (rows (jobs_table s3))); [done..|].
  by rewrite row_key_stamped.
Qed.

End FirstWins.

Lemma insert_jobs_first_wins_witness :
  ∃ r, r ∈ rows (fst (insert_jobs (H := example_runtime) example_clock
                        ([] ++ job_singapore :: [job_singapore_again]) empty_table))
       ∧ col r "title" = SqlText "Developer".
Proof.
  assert (Htitle : col (match plan_job (H := example_runtime) job_singapore with
                        | PlanInsert v => v
                        | _ => ∅
                        end) "title" = SqlText "Developer")
    by (apply (bool_decide_unpack _); vm_compute; exact I).
  destruct (plan_job (H := example_runtime) job_singapore) as [| |values] eqn:Hplan;
    [discriminate Htitle.. |].
  destruct (insert_jobs_first_wins (H := example_runtime) example_clock
              [] [job_singapore_again] job_singapore values empty_table Hplan)
    as (id & Hin & _).
  - apply not_elem_of_nil.
  - intros j v Hj%elem_of_nil. destruct Hj.
  - eexists. split; [exact Hin|].
    rewrite col_stamped_other by discriminate. exact Htitle.
Defined.

(** ** [strip] and the classifier *)

Lemma is_space_lower_ascii c : is_space (lower_ascii c) = is_space c.
Proof. by destruct c as [[|] [|] [|] [|] [|] [|] [|] [|]]. Qed.

Lemma str_empty_lower s : str_empty (lower s) = str_empty s.
Proof. by destruct s. Qed.

Lemma lower_lstrip s : lower (lstrip s) = lstrip (lower s).
Proof.
  induction s as [|c s IH]; [done|]. cbn [lstrip lower].
  rewrite is_space_lower_ascii. by destruct (is_space c).
Qed.

Lemma lower_rstrip s : lower (rstrip s) = rstrip (lower s).
Proof.
  induction s as [|c s IH]; [done|]. cbn [rstrip lower].
  rewrite is_space_lower_ascii, <- IH, str_empty_lower.
  by destruct (is_space c && str_empty (rstrip s)).
Qed.

Lemma lower_strip s : lower (strip s) = strip (lower s).
Proof. unfold strip. by rewrite lower_rstrip, lower_lstrip. Qed.

Lemma lstrip_keeps (word before after : string) :
  first_char_ok word = true →
  ∃ before', lstrip (before +:+ word +:+ after) = before' +:+ word +:+ after.
Proof.
  intros Hword. induction before as [|c before IH].
  - exists EmptyString. rewrite !append_empty.
    destruct word as [|w word]; [done|]. rewrite append_String. cbn [lstrip].
    simpl in Hword. by destruct (is_space w).
  - rewrite append_String. cbn [lstrip]. destruct (is_space c); [done|].
    exists (String c before). by rewrite append_String.
Qed.

Lemma rstrip_keeps_word (word after : string) :
  last_char_ok word = true →
  ∃ after', rstrip (word +:+ after) = word +:+ after'.
Proof.
  induction word as [|c word IH]; [done|].
  destruct word as [|d word].
  - intros Hc. simpl in Hc. exists (rstrip after).
    rewrite !append_String, !append_empty. cbn [rstrip].
    by destruct (is_space c).
  - intros Hlast. destruct (IH Hlast) as (after' & Hafter).
    exists after'. rewrite append_String. cbn [rstrip]. rewrite Hafter.
    rewrite !append_String. simpl. by rewrite andb_false_r.
Qed.

Lemma rstrip_keeps (word before after : string) :
  last_char_ok word = true →
  ∃ after', rstrip (before +:+ word +:+ after) = before +:+ word +:+ after'.
Proof.
  intros Hword. induction before as [|c before IH].
  - rewrite append_empty. destruct (rstrip_keeps_word word after Hword) as (a & Ha).
    exists a. by rewrite append_empty.
  - destruct IH as (after' & Hafter). exists after'.
    rewrite append_String. cbn [rstrip]. rewrite Hafter.
    assert (str_empty (before +:+ word +:+ after') = false) as ->.
    { destruct before; [|done]. rewrite append_empty. by destruct word. }
    by rewrite andb_false_r, append_String.
Qed.

Lemma str_in_strip (word text : string) :
  first_char_ok word = true → last_char_ok word = true →
  str_in word text = true → str_in word (strip text) = true.
Proof.
  intros Hfirst Hlast. rewrite !str_in_spec. intros (before & after & ->).
  unfold strip.
  destruct (lstrip_keeps word before after Hfirst) as (before' & ->).
  destruct (rstrip_keeps word before' after Hlast) as (after' & ->).
  by exists before', after'.
Qed.

Lemma aliases_no_outer_space :
  Forall (λ entry : string * list string,
            Forall (λ city, first_char_ok (lower city) = true
                            ∧ last_char_ok (lower city) = true) (snd entry))
         SEA_COUNTRIES.
Proof. repeat constructor. Qed.

Lemma result_ok_inj {A : Type} (a b : A) : Ok a = Ok b ↔ a = b.
Proof. split; congruence. Qed.

Lemma validate_sea_country_true (s : string) :
  validate_sea_country (PyStr s) = Ok true ↔
  ∃ alias, is_alias alias ∧ contains_nocase alias s.
Proof.
  rewrite validate_sea_country_str, result_ok_inj, andb_true_iff, alias_scan_spec.
  split; [tauto|]. intros (alias & Ha & Hc). split; [|by exists alias].
  destruct s; [|done].
  apply contains_nocase_empty_text in Hc. by apply is_alias_nonempty in Ha.
Qed.

(** The classifier accepts a string with the white space at its ends
    taken away when it accepts the string. *)
Lemma validate_sea_country_strip (s : string) :
  validate_sea_country (PyStr s) = Ok true →
  validate_sea_country (PyStr (strip s)) = Ok true.
Proof.
  rewrite !validate_sea_country_true. intros (alias & Halias & Hin).
  exists alias. split; [done|].
  destruct Halias as (country & cities & Hentry & Hcity).
  pose proof (proj1 (Forall_forall _ _) aliases_no_outer_space _ Hentry) as Hok.
  destruct (proj1 (Forall_forall _ _) Hok alias Hcity) as [Hfirst Hlast].
  apply str_in_lower_spec. rewrite lower_strip.
  apply str_in_strip; [done..|]. by apply str_in_lower_spec.
Qed.

(** ** The scraper *)

Section ScraperFacts.
Context `{Runtime}.
Variable jobspy_scrape_jobs : scrape_call → result (list (gmap string pyval)).

Lemma validate_not_str (v : pyval) :
  py_truthy v = true → is_str v = false →
  validate_sea_country v = Raise AttributeError.
Proof.
  intros Htruthy Hstr. unfold validate_sea_country. rewrite Htruthy.
  by destruct v.
Qed.

(** The loop that keeps the records of the region. *)
Lemma sea_jobs_loop (jobs_list sea_jobs : list (gmap string pyval)) :
  for_each (λ sea_jobs job,
              keep ← (if py_truthy (dict_get job "location")
                      then validate_sea_country (dict_get job "location")
                      else Ok false);
              Ok (if (keep : bool) then sea_jobs ++ [job] else sea_jobs))
           jobs_list sea_jobs
  = if existsb location_raises jobs_list then Raise AttributeError
    else Ok (sea_jobs ++ List.filter sea_job jobs_list).
Proof.
  revert sea_jobs. induction jobs_list as [|job jobs_list IH]; intros sea_jobs.
  - simpl. by rewrite app_nil_r.
  - cbn [for_each existsb List.filter]. unfold location_raises at 1, sea_job at 1.
    cbv zeta.
    destruct (py_truthy (dict_get job "location")) eqn:Htruthy; cbn [andb].
    + destruct (is_str (dict_get job "location")) eqn:Hstr; cbn [negb orb].
      * destruct (dict_get job "location") as [|b|z|f|s|repr]; try done.
        rewrite validate_sea_country_str.
        destruct (negb (str_empty s) && existsb _ SEA_COUNTRIES);
          cbn [mbind result_bind]; rewrite IH;
          destruct (existsb location_raises jobs_list); try done.
        by rewrite <- app_assoc.
      * by rewrite validate_not_str.
    + cbn [mbind result_bind orb]. by rewrite IH.
Qed.

(** What [scrape_site_with_logging] returns and calls. *)
Lemma scrape_site_with_logging_eq (site search_term location : string)
    (results_wanted : Z) (job_type : option string) (hours_old : option Z) :
  scrape_site_with_logging jobspy_scrape_jobs site search_term location
    results_wanted job_type hours_old
  = let call :=
      site_call site search_term location results_wanted job_type hours_old in
    (match jobspy_scrape_jobs call with
     | Ok jobs_list =>
         if existsb location_raises jobs_list then []
         else List.filter sea_job jobs_list
     | Raise _ => []
     end, [call]).
Proof.
  unfold scrape_site_with_logging, site_call. cbv zeta. f_equal.
  destruct (jobspy_scrape_jobs _) as [[|job jobs_list] | e]; [done | | done].
  cbn [mbind result_bind].
  rewrite (sea_jobs_loop (job :: jobs_list) []).
  by destruct (existsb location_raises (job :: jobs_list)).
Qed.

Lemma scrape_site_sea_jobs (site search_term location : string)
    (results_wanted : Z) (job_type : option string) (hours_old : option Z) :
  Forall (λ job, sea_job job = true)
         (fst (scrape_site_with_logging jobspy_scrape_jobs site search_term location
                 results_wanted job_type hours_old)).
Proof.
  rewrite scrape_site_with_logging_eq. cbn [fst].
  destruct (jobspy_scrape_jobs _) as [jobs_list | e]; [|done].
  destruct (existsb location_raises jobs_list); [done|].
  apply Forall_forall. intros job Hjob.
  apply list_elem_of_In, filter_In in Hjob. tauto.
Qed.

(** X10: [scrape_site_with_logging] calls the external capability once,
    for the one site, with the arguments it was given, and with Singapore
    as the Indeed country exactly when the location mentions it.  It never
    raises.  It returns nothing when the capability raises, and nothing
    when one record has a location that is a true value but not a string;
    otherwise it returns, in their order, the records whose location is
    one that the classifier accepts. *)
Theorem scrape_site_with_logging_spec (site search_term location : string)
    (results_wanted : Z) (job_type : option string) (hours_old : option Z) :
  let call :=
    site_call site search_term location results_wanted job_type hours_old in
  let run :=
    scrape_site_with_logging jobspy_scrape_jobs site search_term location
      results_wanted job_type hours_old in
  snd run = [call]
  ∧ Forall (λ job, sea_job job = true) (fst run)
  ∧ match jobspy_scrape_jobs call with
    | Ok jobs_list =>
        if existsb location_raises jobs_list then fst run = []
        else fst run = List.filter sea_job jobs_list
    | Raise _ => fst run = []
    end.
Proof.
  cbv zeta. split; [by rewrite scrape_site_with_logging_eq|].
  split; [apply scrape_site_sea_jobs|].
  rewrite scrape_site_with_logging_eq. cbn [fst].
  destruct (jobspy_scrape_jobs _) as [jobs_list | e]; [|done].
  by destruct (existsb location_raises jobs_list).
Qed.

(** The loop over the sites: the records kept, and the calls made. *)
Lemma scrape_sites_spec (search_term location : string) (results_per_site : Z)
    (sites : list string) (job_type : option string) (hours_old : option Z) :
  Forall (λ job, sea_job job = true)
         (fst (scrape_sites jobspy_scrape_jobs search_term location
                 results_per_site sites job_type hours_old))
  ∧ snd (scrape_sites jobspy_scrape_jobs search_term location
           results_per_site sites job_type hours_old)
    = (λ site, site_call site search_term location results_per_site
                 job_type hours_old) <$> sites.
Proof.
  unfold scrape_sites.
  set (step := λ (acc : list (gmap string pyval) * list scrape_call) site, _).
  assert (Hgen : ∀ acc,
             (Forall (λ job, sea_job job = true) (fst acc) →
              Forall (λ job, sea_job job = true) (fst (foldl step acc sites)))
             ∧ snd (foldl step acc sites)
               = snd acc ++ ((λ site, site_call site search_term location
                                        results_per_site job_type hours_old)
                             <$> sites)).
  { induction sites as [|site sites IH]; intros acc.
    - simpl. by rewrite app_nil_r.
    - cbn [foldl fmap list_fmap]. destruct (IH (step acc site)) as [Hjobs Hcalls].
      split.
      + intros Hacc. apply Hjobs. unfold step.
        pose proof (scrape_site_sea_jobs site search_term location
                      results_per_site job_type hours_old) as Hsite.
        destruct (scrape_site_with_logging _ _ _ _ _ _ _) as [site_jobs calls].
        cbn [fst] in *. by apply Forall_app.
      + rewrite Hcalls. unfold step.
        rewrite (scrape_site_with_logging_eq site). cbn [snd].
        by rewrite <- app_assoc. }
  destruct (Hgen ([], [])) as [Hjobs Hcalls]. split; [by apply Hjobs|].
  by rewrite Hcalls.
Qed.

Lemma table_extends_refl (t : table) : table_extends t t.
Proof. split; [|done]. exists []. by rewrite app_nil_r. Qed.

Lemma table_extends_trans (t1 t2 t3 : table) :
  table_extends t1 t2 → table_extends t2 t3 → table_extends t1 t3.
Proof.
  intros [(extra1 & Hrows1 & Hsea1) Hu1] [(extra2 & Hrows2 & Hsea2) Hu2].
  split; [|tauto]. exists (extra1 ++ extra2).
  split; [by rewrite Hrows2, Hrows1, app_assoc | by apply Forall_app].
Qed.

(** The location that a record of the region is stored with. *)
Lemma plan_insert_sea_location (job_data : gmap string pyval) (values : row) :
  plan_job job_data = PlanInsert values →
  sea_job job_data = true →
  sea_location (col values "location").
Proof.
  unfold plan_job, sea_job. intros Hplan Hsea.
  apply andb_true_iff in Hsea as [Htruthy Hvalid]. rewrite Htruthy in Hplan.
  destruct (validate_sea_country (dict_get job_data "location"))
    as [[|] | e] eqn:Hclass; try done. clear Hvalid. simpl in Hplan.
  destruct (sanitize_job_data job_data) as [sanitized | e] eqn:Hsan;
    simpl in Hplan; [|done].
  destruct (insert_parameters sanitized) as [values' | e] eqn:Hpar;
    simpl in Hplan; [|done].
  simplify_eq.
  destruct (sanitize_job_data_lookup _ _ Hsan) as (_ & Hstr & _).
  destruct (insert_parameters_lookup _ _ "location" Hpar) as (v & Hv & ->);
    [apply insert_columns_fields; right; left; repeat constructor|].
  unfold dict_get in Hv at 1. rewrite Hstr in Hv by repeat constructor.
  destruct (dict_get job_data "location") as [|b|z|f|s|repr] eqn:Hloc;
    try done; try (by destruct b); try (by unfold validate_sea_country in Hclass;
                                         rewrite Htruthy in Hclass).
  simpl in Hv. simplify_eq. exists (strip s). split; [done|].
  by apply validate_sea_country_strip.
Qed.

(** What [scrape_jobs] does to the table, whatever its arguments. *)
Lemma scrape_jobs_extends (clock : Z → string)
    (search_term location : string) (results_per_site : Z)
    (sites : option (list string)) (job_type : option string)
    (hours_old : option Z) (t : table) :
  table_extends t
    (snd (fst (scrape_jobs jobspy_scrape_jobs clock search_term location
                 results_per_site sites job_type hours_old t))).
Proof.
  unfold scrape_jobs.
  destruct (validate_search_params search_term location results_per_site)
    as [[|] error_msg]; cbn [negb]; [|apply table_extends_refl].
  pose proof (scrape_sites_spec search_term location results_per_site
                (default ["indeed"; "linkedin"] sites) job_type hours_old)
    as [Hjobs _].
  destruct (scrape_sites _ _ _ _ _ _ _) as [all_jobs calls]. cbn [fst] in Hjobs.
  destruct (default ["indeed"; "linkedin"] sites) as [|site sites'];
    [apply table_extends_refl|].
  destruct all_jobs as [|job all_jobs]; [apply table_extends_refl|].
  rewrite insert_jobs_loop, insert_loop_flat.
  destruct (insert_run clock (job :: all_jobs) (InsertState t 0 0))
    as ((extra & Hrows & _ & Hfrom) & _ & _ & Hunique).
  cbn [jobs_table fst snd] in *. split; [|done]. exists extra. split; [done|].
  apply Forall_forall. intros r Hr.
  destruct (Hfrom r Hr) as (job_data & id & values & Hin & Hplan & ->).
  rewrite col_stamped_other by done.
  apply (plan_insert_sea_location job_data); [done|].
  by apply (proj1 (Forall_forall _ _) Hjobs).
Qed.

(** What [scrape_jobs] returns when the validation accepts its
    parameters and there is a site to scrape. *)
Lemma scrape_jobs_valid (clock : Z → string)
    (search_term location : string) (results_per_site : Z)
    (sites : option (list string)) (job_type : option string)
    (hours_old : option Z) (t : table) :
  fst (validate_search_params search_term location results_per_site) = true →
  default ["indeed"; "linkedin"] sites ≠ [] →
  ∃ inserted t',
    scrape_jobs jobspy_scrape_jobs clock search_term location results_per_site
      sites job_type hours_old t
    = (Ok inserted, t',
       (λ site, site_call site search_term location results_per_site
                  job_type hours_old) <$> default ["indeed"; "linkedin"] sites)
    ∧ (∃ extra, rows t' = rows t ++ extra
                ∧ Z.of_nat (length extra) = inserted)
    ∧ (table_unique t → table_unique t').
Proof.
  intros Hvalid Hsites. unfold scrape_jobs.
  destruct (validate_search_params search_term location results_per_site)
    as [is_valid error_msg]. cbn [fst] in Hvalid. subst is_valid. cbn [negb].
  pose proof (scrape_sites_spec search_term location results_per_site
                (default ["indeed"; "linkedin"] sites) job_type hours_old)
    as [_ Hcalls].
  destruct (scrape_sites _ _ _ _ _ _ _) as [all_jobs calls]. cbn [snd] in Hcalls.
  subst calls.
  destruct (default ["indeed"; "linkedin"] sites) as [|site sites'] eqn:Hdefault;
    [done|].
  destruct all_jobs as [|job all_jobs].
  - exists 0%Z, t. split; [done|]. split; [|done].
    exists []. by rewrite app_nil_r.
  - rewrite insert_jobs_loop, insert_loop_flat.
    destruct (insert_run clock (job :: all_jobs) (InsertState t 0 0))
      as ((extra & Hrows & Hcount & _) & _ & _ & Hunique).
    cbn [jobs_table inserted_count] in *.
    eexists _, _. split; [done|]. split; [|done].
    exists extra. split; [done | lia].
Qed.

(** X11: with parameters that the validation accepts, [scrape_jobs]
    raises [ZeroDivisionError] when it is given an empty list of sites,
    having called nothing and changed nothing; with any other list it
    returns, having called the capability once for each site in the order
    of the list, each time with the search term, the location, the number
    of results and the two optional filters it was given.  The number it
    returns is the number of rows the table has gained, and a table with
    no (job_url, site) pair twice stays so. *)
Theorem scrape_jobs_accepted (clock : Z → string)
    (search_term location : string) (results_per_site : Z)
    (sites : option (list string)) (job_type : option string)
    (hours_old : option Z) (t : table) :
  fst (validate_search_params search_term location results_per_site) = true →
  match default ["indeed"; "linkedin"] sites with
  | [] =>
      scrape_jobs jobspy_scrape_jobs clock search_term location results_per_site
        sites job_type hours_old t
      = (Raise ZeroDivisionError, t, [])
  | sites' =>
      ∃ inserted t',
        scrape_jobs jobspy_scrape_jobs clock search_term location results_per_site
          sites job_type hours_old t
        = (Ok inserted, t',
           (λ site, site_call site search_term location results_per_site
                      job_type hours_old) <$> sites')
        ∧ (∃ extra, rows t' = rows t ++ extra
                    ∧ Z.of_nat (length extra) = inserted)
        ∧ (table_unique t → table_unique t')
  end.
Proof.
  intros Hvalid.
  pose proof (scrape_jobs_valid clock search_term location results_per_site
                sites job_type hours_old t Hvalid) as Hrun.
  destruct (default ["indeed"; "linkedin"] sites) as [|site sites'] eqn:Hdefault.
  - unfold scrape_jobs.
    destruct (validate_search_params search_term location results_per_site)
      as [is_valid error_msg]. cbn [fst] in Hvalid. subst is_valid.
    by rewrite Hdefault.
  - by apply Hrun.
Qed.

(** X12: whatever the external capability returns and whatever its
    parameters, every row that [scrape_jobs] adds to the table holds in
    [location] a text that the classifier accepts. *)
Theorem scrape_jobs_stores_sea_locations (clock : Z → string)
    (search_term location : string) (results_per_site : Z)
    (sites : option (list string)) (job_type : option string)
    (hours_old : option Z) (t : table) :
  let t' := snd (fst (scrape_jobs jobspy_scrape_jobs clock search_term location
                        results_per_site sites job_type hours_old t)) in
  ∃ extra,
    rows t' = rows t ++ extra
    ∧ Forall (λ r, sea_location (col r "location")) extra.
Proof. apply scrape_jobs_extends. Qed.

End ScraperFacts.

Lemma scrape_jobs_accepted_witness :
  ∃ inserted t',
    scrape_jobs (H := example_runtime) (λ _, Ok [job_singapore]) example_clock
      "developer" "Singapore" 25 (Some ["indeed"]) None (Some 336%Z) empty_table
    = (Ok inserted, t',
       [ScrapeCall "indeed" "developer" "Singapore" 25 None (Some 336%Z)
          (Some "Singapore")])
    ∧ (∃ extra, rows t' = rows empty_table ++ extra
                ∧ Z.of_nat (length extra) = inserted)
    ∧ (table_unique empty_table → table_unique t').
Proof.
  exact (scrape_jobs_accepted (H := example_runtime) (λ _, Ok [job_singapore])
           example_clock "developer" "Singapore" 25 (Some ["indeed"]) None
           (Some 336%Z) empty_table eq_refl).
Defined.

(** ** The scheduler *)

(** The configured locations pass the validation of [scrape_jobs]. *)
Lemma config_locations_valid (country : string) (config : country_config) :
  config_of SEA_SCRAPING_CONFIG country = Some config →
  ¬ blank (config_location config) ∧ names_country (config_location config).
Proof.
  intros Hconfig.
  assert (Hvalid : fst (validate_search_params "x" (config_location config) 1) = true).
  { unfold SEA_SCRAPING_CONFIG in Hconfig. cbn [config_of] in Hconfig.
    repeat match type of Hconfig with
           | (if ?b then _ else _) = _ =>
               destruct b; [injection Hconfig as <-; by vm_compute|]
           end.
    done. }
  apply validate_search_params_spec in Hvalid. tauto.
Qed.

Section SchedulerFacts.
Context `{Runtime}.
Variable jobspy_scrape_jobs : scrape_call → result (list (gmap string pyval)).

(** How a call of [scrape_jobs] ends. *)
Lemma scrape_jobs_outcome (clock : Z → string)
    (search_term location : string) (results_per_site : Z)
    (sites : list string) (job_type : option string)
    (hours_old : option Z) (t : table) :
  let run := scrape_jobs jobspy_scrape_jobs clock search_term location
               results_per_site (Some sites) job_type hours_old t in
  match fst (fst run) with
  | Ok inserted =>
      fst (validate_search_params search_term location results_per_site) = true
      ∧ sites ≠ [] ∧ (0 ≤ inserted)%Z
      ∧ snd run = (λ site, site_call site search_term location results_per_site
                             job_type hours_old) <$> sites
  | Raise _ =>
      (fst (validate_search_params search_term location results_per_site) = false
       ∨ sites = [])
      ∧ snd (fst run) = t ∧ snd run = []
  end.
Proof.
  cbv zeta.
  destruct (fst (validate_search_params search_term location results_per_site))
    eqn:Hvalid.
  - destruct sites as [|site sites].
    + unfold scrape_jobs.
      destruct (validate_search_params search_term location results_per_site)
        as [is_valid error_msg]. cbn [fst] in Hvalid. subst is_valid.
      simpl. tauto.
    + destruct (scrape_jobs_valid jobspy_scrape_jobs clock search_term location
                  results_per_site (Some (site :: sites)) job_type hours_old t
                  Hvalid)
        as (inserted & t' & -> & (extra & _ & Hcount) & _); [done|].
      cbn [fst snd default]. split; [done|]. split; [done|]. split; [lia | done].
  - unfold scrape_jobs.
    destruct (validate_search_params search_term location results_per_site)
      as [is_valid error_msg]. cbn [fst] in Hvalid. subst is_valid.
    simpl. tauto.
Qed.

(** X13: [run_scraping_job] succeeds exactly when the country is one of
    the configuration, the search term is not blank, the number of results
    is between 1 and 200 and there is a site to scrape.  When it fails it
    has called nothing and changed nothing; when it succeeds it has called
    the capability once for each site, in order, for the configured
    location of the country and for postings of the last 336 hours.  In
    both cases the table has only gained rows of the region. *)
Theorem run_scraping_job_spec (clock : Z → string) (country search_term : string)
    (sites : list string) (max_results : Z) (t : table) :
  let run := run_scraping_job jobspy_scrape_jobs clock country search_term sites
               max_results t in
  let success := fst (fst run) in
  (success = true ↔
   is_Some (config_of SEA_SCRAPING_CONFIG country)
   ∧ ¬ blank search_term ∧ (0 < max_results ≤ 200)%Z ∧ sites ≠ [])
  ∧ (success = false → snd (fst run) = t ∧ snd run = [])
  ∧ (success = true →
     ∃ config,
       config_of SEA_SCRAPING_CONFIG country = Some config
       ∧ snd run = (λ site, site_call site search_term (config_location config)
                              max_results None (Some 336%Z)) <$> sites)
  ∧ table_extends t (snd (fst run)).
Proof.
  cbv zeta. unfold run_scraping_job.
  destruct (config_of SEA_SCRAPING_CONFIG country) as [config|] eqn:Hconfig.
  - destruct (config_locations_valid _ _ Hconfig) as [Hblank Hnames].
    pose proof (scrape_jobs_outcome clock search_term (config_location config)
                  max_results sites None (Some 336%Z) t) as Hout.
    pose proof (scrape_jobs_extends jobspy_scrape_jobs clock search_term
                  (config_location config) max_results (Some sites) None
                  (Some 336%Z) t) as Hext.
    pose proof (validate_search_params_spec search_term (config_location config)
                  max_results) as Hspec.
    cbv zeta in Hout.
    destruct (scrape_jobs _ _ _ _ _ _ _ _ _) as [[outcome t'] calls].
    cbn [fst snd] in *.
    destruct outcome as [inserted | e].
    + destruct Hout as (Hvalid & Hsites & Hcount & ->).
      apply Z.leb_le in Hcount. rewrite Hcount.
      split; [|split; [done|split; [|done]]].
      * split; [|done]. intros _. split; [done|]. apply Hspec in Hvalid. tauto.
      * intros _. by exists config.
    + destruct Hout as (Hbad & -> & ->).
      split; [|split; [done|split; [done|done]]].
      split; [done|]. intros (_ & Hterm & Hmax & Hsites).
      destruct Hbad as [Hbad | Hbad]; [|done].
      assert (fst (validate_search_params search_term (config_location config)
                     max_results) = true) by (apply Hspec; tauto).
      congruence.
  - cbn [fst snd]. split; [|split; [done|split; [done|apply table_extends_refl]]].
    split; [done|]. by intros [[? ?] _].
Qed.

End SchedulerFacts.

Lemma config_entries_ready : Forall entry_ready SEA_SCRAPING_CONFIG.
Proof.
  unfold SEA_SCRAPING_CONFIG.
  repeat (apply Forall_cons; split;
          [split; [by vm_compute|]; split; [|done];
           repeat (apply Forall_cons; split; [by vm_compute|]); apply Forall_nil_2
          |]).
  apply Forall_nil_2.
Qed.

Section DailyScraping.
Context `{Runtime}.
Variable jobspy_scrape_jobs : scrape_call → result (list (gmap string pyval)).

(** A job of a ready entry goes through. *)
Lemma run_scraping_job_ready (clock : Z → string) (country search_term : string)
    (config : country_config) (t : table) :
  config_of SEA_SCRAPING_CONFIG country = Some config →
  fst (validate_search_params search_term (config_location config)
         max_results_per_site) = true →
  config_sites config ≠ [] →
  ∃ t',
    run_scraping_job jobspy_scrape_jobs clock country search_term
      (config_sites config) max_results_per_site t
    = (true, t',
       (λ site, site_call site search_term (config_location config)
                  max_results_per_site None (Some 336%Z)) <$> config_sites config)
    ∧ table_extends t t'.
Proof.
  intros Hconfig Hvalid Hsites. unfold run_scraping_job. rewrite Hconfig.
  pose proof (scrape_jobs_extends jobspy_scrape_jobs clock search_term
                (config_location config) max_results_per_site
                (Some (config_sites config)) None (Some 336%Z) t) as Hext.
  destruct (scrape_jobs_valid jobspy_scrape_jobs clock search_term
              (config_location config) max_results_per_site
              (Some (config_sites config)) None (Some 336%Z) t Hvalid Hsites)
    as (inserted & t' & Hrun & (extra & _ & Hcount) & _).
  rewrite Hrun in Hext |- *. cbn [fst snd default] in *.
  exists t'. split; [|done].
  assert ((0 <=? inserted)%Z = true) as -> by (apply Z.leb_le; lia). done.
Qed.

(** The loop over the search terms of a ready entry. *)
Lemma daily_terms_ready (clock : Z → string) (country : string)
    (config : country_config) (terms : list string) (s : daily_state) :
  config_of SEA_SCRAPING_CONFIG country = Some config →
  Forall (λ search_term,
            fst (validate_search_params search_term (config_location config)
                   max_results_per_site) = true) terms →
  config_sites config ≠ [] →
  let s' := foldl (daily_step jobspy_scrape_jobs clock country config) s terms in
  successful_jobs s' = (successful_jobs s + Z.of_nat (length terms))%Z
  ∧ failed_jobs s' = failed_jobs s
  ∧ scheduled_jobs s' = (scheduled_jobs s + Z.of_nat (length terms))%Z
  ∧ daily_calls s'
    = daily_calls s
      ++ (search_term ← terms;
          site ← config_sites config;
          [site_call site search_term (config_location config)
             max_results_per_site None (Some 336%Z)])
  ∧ table_extends (daily_table s) (daily_table s').
Proof.
  intros Hconfig Hterms Hsites. revert s.
  induction Hterms as [|search_term terms Hterm Hterms IH]; intros s.
  - simpl. rewrite app_nil_r.
    split; [lia|]. split; [done|]. split; [lia|]. split; [done|].
    apply table_extends_refl.
  - cbn [foldl]. cbv zeta in IH.
    destruct (run_scraping_job_ready clock country search_term config
                (daily_table s) Hconfig Hterm Hsites) as (t' & Hrun & Hext).
    assert (Hstep : daily_step jobspy_scrape_jobs clock country config s search_term
                    = DailyState t'
                        (daily_calls s
                         ++ ((λ site, site_call site search_term
                                        (config_location config)
                                        max_results_per_site None (Some 336%Z))
                             <$> config_sites config))
                        (successful_jobs s + 1) (failed_jobs s)
                        (scheduled_jobs s + 1))
      by (unfold daily_step; by rewrite Hrun).
    rewrite Hstep.
    match goal with
    | |- context [foldl _ ?s1 terms] =>
        destruct (IH s1) as (Hs & Hf & Hn & Hc & Ht)
    end.
    cbn [successful_jobs failed_jobs scheduled_jobs daily_calls daily_table]
      in Hs, Hf, Hn, Hc, Ht.
    split; [rewrite Hs; cbn [length]; lia|]. split; [done|].
    split; [rewrite Hn; cbn [length]; lia|]. split.
    + rewrite Hc, bind_cons, <- app_assoc. by f_equal.
    + by apply (table_extends_trans _ t').
Qed.

(** The loop over the entries of a configuration that are all ready. *)
Lemma daily_loop_ready (clock : Z → string)
    (config : list (string * country_config)) (s : daily_state) :
  Forall entry_ready config →
  let s' := daily_loop jobspy_scrape_jobs clock config s in
  successful_jobs s' = (successful_jobs s + daily_jobs_of config)%Z
  ∧ failed_jobs s' = failed_jobs s
  ∧ scheduled_jobs s' = (scheduled_jobs s + daily_jobs_of config)%Z
  ∧ daily_calls s' = daily_calls s ++ daily_calls_of config
  ∧ table_extends (daily_table s) (daily_table s').
Proof.
  intros Hready. revert s.
  induction Hready as [|[country entry] config (Hconfig & Hterms & Hsites) _ IH];
    intros s.
  - simpl. rewrite app_nil_r. unfold daily_jobs_of. simpl.
    split; [lia|]. split; [done|]. split; [lia|]. split; [done|].
    apply table_extends_refl.
  - unfold daily_loop. cbn [foldl fst snd] in *. cbv zeta in IH.
    destruct (daily_terms_ready clock country entry (config_search_terms entry) s
                Hconfig Hterms Hsites) as (Hs1 & Hf1 & Hn1 & Hc1 & Ht1).
    set (s1 := foldl (daily_step jobspy_scrape_jobs clock country entry) s
                 (config_search_terms entry)) in *.
    destruct (IH s1) as (Hs2 & Hf2 & Hn2 & Hc2 & Ht2).
    unfold daily_loop in Hs2, Hf2, Hn2, Hc2, Ht2.
    unfold daily_jobs_of, daily_calls_of in *. rewrite !bind_cons, length_app.
    cbn [fst snd].
    split; [rewrite Hs2, Hs1; lia|]. split; [congruence|].
    split; [rewrite Hn2, Hn1; lia|]. split.
    + by rewrite Hc2, Hc1, <- app_assoc.
    + by apply (table_extends_trans _ (daily_table s1)).
Qed.

(** X14: whatever the external capability returns or raises and whatever
    the table holds, the daily run schedules 16 jobs, all 16 succeed and
    none fails, with a success rate of 100.0; it makes 32 calls of the
    capability, for each country in the order of the configuration, for
    each search term of the country, for each of its sites, every one for
    25 results of the last 336 hours at the configured location; and the
    table only gains rows of the region. *)
Theorem run_daily_scraping_summary (clock : Z → string) (t : table) :
  let run := run_daily_scraping jobspy_scrape_jobs clock t in
  fst (fst run) = Ok (DailySummary 16 16 0 (PyFloat (float_of_Z 100)))
  ∧ snd run = daily_calls_of SEA_SCRAPING_CONFIG
  ∧ length (snd run) = 32
  ∧ table_extends t (snd (fst run)).
Proof.
  cbv zeta. unfold run_daily_scraping.
  destruct (daily_loop_ready clock SEA_SCRAPING_CONFIG (DailyState t [] 0 0 0)
              config_entries_ready) as (Hs & Hf & Hn & Hc & Ht).
  set (s := daily_loop jobspy_scrape_jobs clock SEA_SCRAPING_CONFIG
              (DailyState t [] 0 0 0)) in *.
  cbn [fst snd successful_jobs failed_jobs scheduled_jobs daily_calls daily_table]
    in *.
  assert (Hjobs : daily_jobs_of SEA_SCRAPING_CONFIG = 16%Z) by (by vm_compute).
  rewrite Hs, Hf, Hn, Hc, Hjobs. cbn [app].
  split; [by vm_compute|]. split; [done|]. split; [by vm_compute | done].
Qed.

End DailyScraping.

(** ** Cleaning up *)

Lemma filter_sublist {A : Type} (f : A → bool) (l : list A) :
  List.filter f l `sublist_of` l.
Proof.
  induction l as [|x l IH]; simpl; [done|].
  destruct (f x); by constructor.
Qed.

Lemma filter_filter_same {A : Type} (f : A → bool) (l : list A) :
  List.filter f (List.filter f l) = List.filter f l.
Proof.
  induction l as [|x l IH]; simpl; [done|].
  destruct (f x) eqn:Hx; simpl; [|done]. by rewrite Hx, IH.
Qed.

Lemma filter_filter_negb {A : Type} (f : A → bool) (l : list A) :
  List.filter f (List.filter (λ x, negb (f x)) l) = [].
Proof.
  induction l as [|x l IH]; simpl; [done|].
  destruct (f x) eqn:Hx; simpl; [done|]. by rewrite Hx.
Qed.

Lemma Forall_sublist {A : Type} (P : A → Prop) (l k : list A) :
  l `sublist_of` k → Forall P k → Forall P l.
Proof.
  intros Hsub Hk. apply Forall_forall. intros x Hx.
  apply (proj1 (Forall_forall _ _) Hk). by apply (sublist_subseteq l k).
Qed.

Lemma StronglySorted_sublist {A : Type} (R : A → A → Prop) (l k : list A) :
  l `sublist_of` k → StronglySorted R k → StronglySorted R l.
Proof.
  induction 1 as [|x l k Hsub IH|x l k Hsub IH]; intros Hk; [done| |].
  - apply StronglySorted_inv in Hk as [Hk Hx]. constructor; [by apply IH|].
    by eapply Forall_sublist.
  - apply StronglySorted_inv in Hk as [Hk _]. by apply IH.
Qed.

Lemma table_unique_sublist (t t' : table) :
  rows t' `sublist_of` rows t → table_unique t → table_unique t'.
Proof.
  intros Hsub [Htext Hnodup]. split.
  - by eapply Forall_sublist.
  - eapply sublist_NoDup; [done|]. by apply fmap_sublist.
Qed.

Lemma table_ids_sublist (t t' : table) :
  rows t' `sublist_of` rows t → last_rowid t' = last_rowid t →
  table_ids t → table_ids t'.
Proof.
  intros Hsub Hlast [Hbound Hsorted]. split.
  - rewrite Hlast. by eapply Forall_sublist.
  - by eapply StronglySorted_sublist.
Qed.

Section CleanupFacts.
Context `{Runtime}.

Lemma cleanup_old_jobs_eq (days : Z) (t : table) :
  cleanup_old_jobs days t
  = match cutoff_date days with
    | None => Raise OverflowError
    | Some text =>
        Ok (Table (List.filter (λ r, negb (older_than (SqlText text) r)) (rows t))
                  (last_rowid t),
            Z.of_nat (length (List.filter (older_than (SqlText text)) (rows t))))
    end.
Proof. unfold cleanup_old_jobs. by destruct (cutoff_date days). Qed.

(** X15: [cleanup_old_jobs] deletes and does nothing else.  The number it
    returns and the number of rows left add up to the number of rows
    before; the rows left are rows of before, as they were and in their
    order; a row without a time stamp is never deleted; the AUTOINCREMENT
    counter stays, so that no rowid is given out again; a table with no
    (job_url, site) pair twice, or with ids that grow along the rows, stays
    so; and a second clean-up for the same number of days at the same time
    deletes nothing. *)
Theorem cleanup_old_jobs_spec (days : Z) (t t' : table) (deleted : Z) :
  cleanup_old_jobs days t = Ok (t', deleted) →
  (deleted + Z.of_nat (length (rows t')) = Z.of_nat (length (rows t)))%Z
  ∧ rows t' `sublist_of` rows t
  ∧ (∀ r, r ∈ rows t → is_null (col r "scraped_at") = true → r ∈ rows t')
  ∧ last_rowid t' = last_rowid t
  ∧ (table_unique t → table_unique t')
  ∧ (table_ids t → table_ids t')
  ∧ cleanup_old_jobs days t' = Ok (t', 0%Z).
Proof.
  rewrite !cleanup_old_jobs_eq.
  destruct (cutoff_date days) as [text|]; [|done].
  intros [= <- <-]. cbn [rows last_rowid].
  pose proof (filter_sublist (λ r, negb (older_than (SqlText text) r)) (rows t))
    as Hsub.
  split; [|split; [done|split; [|split; [done|split; [|split]]]]].
  - pose proof (filter_length (older_than (SqlText text)) (rows t)). lia.
  - intros r Hr Hnull. apply list_elem_of_In, filter_In.
    split; [by apply list_elem_of_In|].
    unfold older_than, sql_lt. destruct (col r "scraped_at"); done.
  - by apply table_unique_sublist.
  - by apply table_ids_sublist.
  - by rewrite filter_filter_same, filter_filter_negb.
Qed.





End CleanupFacts.

Lemma cleanup_old_jobs_spec_witness :
  (1 + Z.of_nat (length (rows (Table [row_alpha] 2)))
   = Z.of_nat (length (rows old_and_new)))%Z
  ∧ rows (Table [row_alpha] 2) `sublist_of` rows old_and_new
  ∧ (∀ r, r ∈ rows old_and_new → is_null (col r "scraped_at") = true →
          r ∈ rows (Table [row_alpha] 2))
  ∧ last_rowid (Table [row_alpha] 2) = last_rowid old_and_new
  ∧ (table_unique old_and_new → table_unique (Table [row_alpha] 2))
  ∧ (table_ids old_and_new → table_ids (Table [row_alpha] 2))
  ∧ cleanup_old_jobs (H := example_runtime) 14 (Table [row_alpha] 2)
    = Ok (Table [row_alpha] 2, 0%Z).
Proof.
  apply (cleanup_old_jobs_spec (H := example_runtime) 14 old_and_new).
  apply (bool_decide_unpack _). vm_compute. exact I.
Defined.


(** ** The options of the filters *)

Lemma SFcompare_refl (f : spec_float) : default Eq (SFcompare f f) = Eq.
Proof.
  pose proof (SFcompare_antisym f f) as Ha.
  destruct (SFcompare f f) as [[| |]|]; done.
Qed.

Lemma order_compare_refl (v : sqlval) : order_compare v v = Eq.
Proof.
  pose proof (order_compare_antisym v v) as Ha.
  destruct (order_compare v v); done.
Qed.

Lemma order_compare_text_eq (v : sqlval) (s : string) :
  order_compare v (SqlText s) = Eq → v = SqlText s.
Proof.
  destruct v as [|x|f|u]; simpl; try done.
  intros Hc. f_equal. apply String.compare_eq_iff.
  by destruct (String.compare u s).
Qed.

Lemma order_leb_total (a b : sqlval) : order_leb a b = true ∨ order_leb b a = true.
Proof.
  unfold order_leb. rewrite (order_compare_antisym a b).
  destruct (order_compare a b); simpl; auto.
Qed.

Lemma sql_distinct_sublist (l : list sqlval) : sql_distinct l `sublist_of` l.
Proof.
  induction l as [|x l IH]; simpl; [done|]. constructor.
  etrans; [apply filter_sublist | done].
Qed.

Lemma sql_distinct_NoDup (l : list sqlval) : NoDup (sql_distinct l).
Proof.
  induction l as [|x l IH]; simpl; [constructor|]. constructor.
  - intros Hx. apply list_elem_of_In, filter_In in Hx as [_ Hx].
    by rewrite order_compare_refl in Hx.
  - eapply sublist_NoDup; [exact IH | apply filter_sublist].
Qed.

Lemma sql_distinct_text (l : list sqlval) (s : string) :
  SqlText s ∈ l → SqlText s ∈ sql_distinct l.
Proof.
  induction l as [|x l IH]; simpl; [done|].
  intros [<- | Hin]%elem_of_cons; [by left|].
  destruct (order_compare x (SqlText s)) eqn:Hc.
  - apply order_compare_text_eq in Hc as ->. by left.
  - right. apply list_elem_of_In, filter_In.
    split; [by apply list_elem_of_In, IH | by rewrite Hc].
  - right. apply list_elem_of_In, filter_In.
    split; [by apply list_elem_of_In, IH | by rewrite Hc].
Qed.

Lemma distinct_column_subseteq (c : string) (not_null : bool) (limit : option nat)
    (l : list row) (v : sqlval) :
  v ∈ distinct_column c not_null limit l →
  (∃ r, r ∈ l ∧ col r c = v) ∧ (not_null = true → is_null v = false).
Proof.
  unfold distinct_column. intros Hv.
  assert (Hsorted : v ∈ sort_with order_leb
                          (sql_distinct
                             (if not_null
                              then List.filter (λ v, negb (is_null v))
                                     ((λ r : row, col r c) <$> l)
                              else (λ r : row, col r c) <$> l))).
  { destruct limit as [n|]; [|done]. by eapply subseteq_take. }
  rewrite sort_with_perm in Hsorted.
  apply (sublist_subseteq _ _ (sql_distinct_sublist _)) in Hsorted.
  destruct not_null.
  - apply list_elem_of_In, filter_In in Hsorted as [Hin Hnull].
    apply list_elem_of_In, list_elem_of_fmap in Hin as (r & -> & Hr).
    split; [by exists r|]. intros _. by apply negb_true_iff.
  - apply list_elem_of_fmap in Hsorted as (r & -> & Hr).
    split; [by exists r | done].
Qed.

Lemma distinct_column_options (c : string) (not_null : bool) (limit : option nat)
    (l : list row) :
  options_of c l (distinct_column c not_null limit l).
Proof.
  split; [|split].
  - unfold distinct_column.
    assert (Hall : ∀ values, NoDup (sort_with order_leb (sql_distinct values))).
    { intros values. rewrite sort_with_perm. apply sql_distinct_NoDup. }
    destruct limit as [n|]; [|apply Hall].
    eapply sublist_NoDup; [apply Hall | apply sublist_take].
  - unfold distinct_column.
    assert (Hall : ∀ values, Sorted (λ a b, order_compare a b ≠ Gt)
                               (sort_with order_leb (sql_distinct values))).
    { intros values. eapply Sorted_impl; [|apply sort_with_sorted, order_leb_total].
      intros a b. unfold order_leb. by destruct (order_compare a b). }
    destruct limit as [n|]; [apply Sorted_take|]; apply Hall.
  - intros v Hv. by apply (distinct_column_subseteq c not_null limit l v).
Qed.

Lemma distinct_column_complete (c : string) (not_null : bool) (l : list row)
    (r : row) (s : string) :
  r ∈ l → col r c = SqlText s → SqlText s ∈ distinct_column c not_null None l.
Proof.
  intros Hr Hcol. unfold distinct_column. rewrite sort_with_perm.
  apply sql_distinct_text.
  assert (Hin : SqlText s ∈ (λ r' : row, col r' c) <$> l)
    by (apply list_elem_of_fmap; by exists r).
  destruct not_null; [|done].
  apply list_elem_of_In, filter_In. split; [by apply list_elem_of_In | done].
Qed.

(** X17: the four lists of [get_filter_options].  Each holds values of
    its column of the table, none of them twice, in ascending order.
    There is no NULL among the companies, the locations and the job types;
    there are at most 100 companies and at most 50 locations; and every
    text that occurs as a job type or as a site is listed. *)
Theorem get_filter_options_spec (t : table) :
  let options := get_filter_options t in
  options_of "company_name" (rows t) (companies options)
  ∧ options_of "location" (rows t) (locations options)
  ∧ options_of "job_type" (rows t) (job_types options)
  ∧ options_of "site" (rows t) (sites options)
  ∧ Forall (λ v, is_null v = false)
           (companies options ++ locations options ++ job_types options)
  ∧ length (companies options) ≤ 100
  ∧ length (locations options) ≤ 50
  ∧ ∀ r s, r ∈ rows t →
           (col r "job_type" = SqlText s → SqlText s ∈ job_types options)
           ∧ (col r "site" = SqlText s → SqlText s ∈ sites options).
Proof.
  cbv zeta. unfold get_filter_options. cbn [companies locations job_types sites].
  split; [apply distinct_column_options|].
  split; [apply distinct_column_options|].
  split; [apply distinct_column_options|].
  split; [apply distinct_column_options|].
  split; [|split; [|split]].
  - rewrite !Forall_app. split; [|split]; apply Forall_forall; intros v Hv;
      by apply distinct_column_subseteq in Hv as [_ Hv]; apply Hv.
  - unfold distinct_column. rewrite length_take. lia.
  - unfold distinct_column. rewrite length_take. lia.
  - intros r s Hr. split; intros Hcol; by eapply distinct_column_complete.
Qed.

(** ** Pages *)



Section Pages.
Context `{Runtime}.




End Pages.


(** ** The pagination of [get_jobs] *)

Section ApiFacts.
Context `{Runtime}.

(** An answer of [get_jobs], taken apart. *)
Lemma get_jobs_ok (max_results_per_request : Z) (args : gmap string string)
    (t : table) (jobs : list row) (pg : pagination) :
  get_jobs max_results_per_request args t = Ok (jobs, pg) →
  ∃ page requested n,
    let per_page := Z.min requested max_results_per_request in
    int_arg args "page" 1 = Ok page
    ∧ int_arg args "per_page" 20 = Ok requested
    ∧ search_jobs (request_filters args) page per_page t = Ok (jobs, n)
    ∧ per_page ≠ 0%Z
    ∧ pg = Pagination page per_page n ((n + per_page - 1) / per_page)
             (page <? (n + per_page - 1) / per_page)%Z (1 <? page)%Z.
Proof.
  unfold get_jobs. intros Hrun.
  destruct (int_arg args "page" 1) as [page | e]; [|done].
  destruct (int_arg args "per_page" 20) as [requested | e]; [|done].
  cbn [mbind result_bind] in Hrun.
  destruct (search_jobs _ page _ t) as [[jobs' n] | e] eqn:Hsearch; [|done].
  cbn [mbind result_bind] in Hrun.
  destruct (Z.eqb_spec (Z.min requested max_results_per_request) 0); [done|].
  cbn [mbind result_bind] in Hrun. injection Hrun as <- <-.
  by exists page, requested, n.
Qed.

(** X19: the pagination that [get_jobs] reports, for a page size above 0
    and a page number from 1.  [total_pages] is the total divided by the
    page size and rounded up; the page has rows exactly when its number is
    at most [total_pages]; [has_next] tells that a later page exists, and
    then the page is full; the last page holds the remainder; [has_prev]
    tells that the page is not the first. *)
Theorem get_jobs_pagination (max_results_per_request : Z)
    (args : gmap string string) (t : table) (jobs : list row) (pg : pagination) :
  get_jobs max_results_per_request args t = Ok (jobs, pg) →
  (0 < pg_per_page pg)%Z → (1 ≤ pg_page pg)%Z →
  ((pg_total_pages pg - 1) * pg_per_page pg < pg_total_count pg
   ≤ pg_total_pages pg * pg_per_page pg)%Z
  ∧ (jobs ≠ [] ↔ (pg_page pg ≤ pg_total_pages pg)%Z)
  ∧ (pg_has_next pg = true ↔ (pg_page pg < pg_total_pages pg)%Z)
  ∧ (pg_has_next pg = true → Z.of_nat (length jobs) = pg_per_page pg)
  ∧ (pg_page pg = pg_total_pages pg →
     Z.of_nat (length jobs)
     = (pg_total_count pg - (pg_total_pages pg - 1) * pg_per_page pg)%Z)
  ∧ (pg_has_prev pg = true ↔ (1 < pg_page pg)%Z).
Proof.
  intros (page & requested & n & Hpage & Hrequested & Hsearch & Hnonzero & ->)
    %get_jobs_ok.
  cbn [pg_per_page pg_page pg_total_pages pg_total_count pg_has_next pg_has_prev].
  set (per_page := Z.min requested max_results_per_request) in *.
  intros Hpp Hp.
  destruct (search_jobs_page _ _ _ _ _ _ Hsearch)
    as (_ & _ & (selected & _ & Hlen & -> & _) & _).
  set (total_pages := ((n + per_page - 1) / per_page)%Z).
  assert (Hceil : (per_page * total_pages ≤ n + per_page - 1
                   < per_page * total_pages + per_page)%Z).
  { pose proof (Z.mul_div_le (n + per_page - 1) per_page Hpp).
    pose proof (Z.mul_succ_div_gt (n + per_page - 1) per_page Hpp).
    fold total_pages in H0, H1. lia. }
  assert (Hlength : Z.of_nat (length (limit_offset per_page ((page - 1) * per_page)
                                        selected))
                    = Z.max 0 (Z.min per_page (n - (page - 1) * per_page))).
  { unfold limit_offset. destruct (Z.ltb_spec per_page 0); [lia|].
    rewrite length_take, length_drop. nia. }
  split; [nia|]. split; [|split; [|split; [|split]]].
  - rewrite <- length_zero_iff_nil.
    assert (length (limit_offset per_page ((page - 1) * per_page) selected) ≠ 0
            ↔ (0 < n - (page - 1) * per_page)%Z) as -> by lia.
    nia.
  - apply Z.ltb_lt.
  - intros Hnext%Z.ltb_lt. rewrite Hlength. nia.
  - intros ->. rewrite Hlength. nia.
  - apply Z.ltb_lt.
Qed.

End ApiFacts.

Lemma get_jobs_pagination_witness :
  ((1 - 1) * 20 < 2 ≤ 1 * 20)%Z
  ∧ ([row_alpha; row_zeta] ≠ [] ↔ (1 ≤ 1)%Z)
  ∧ (false = true ↔ (1 < 1)%Z)
  ∧ (false = true → Z.of_nat (length [row_alpha; row_zeta]) = 20%Z)
  ∧ (1%Z = 1%Z → Z.of_nat (length [row_alpha; row_zeta]) = (2 - (1 - 1) * 20)%Z)
  ∧ (false = true ↔ (1 < 1)%Z).
Proof.
  apply (get_jobs_pagination (H := example_runtime) 200 ∅ two_rows
           [row_alpha; row_zeta] (Pagination 1 20 2 1 false false)).
  - apply (bool_decide_unpack _). vm_compute. exact I.
  - done.
  - done.
Defined.

(** ** The breakdowns of the statistics *)

Lemma sum_counts_perm {A : Type} (l k : list (A * Z)) :
  l ≡ₚ k → sum_counts l = sum_counts k.
Proof.
  induction 1 as [|p l k _ IH|p q l|l k m _ IH1 _ IH2]; simpl.
  - done.
  - by rewrite IH.
  - lia.
  - congruence.
Qed.

Section GroupCounts.
Context {A : Type} `{EqDecision A}.

Lemma count_eq_cons (x y : A) (l : list A) :
  count_eq x (y :: l) = ((if bool_decide (y = x) then 1 else 0) + count_eq x l)%Z.
Proof.
  unfold count_eq. simpl. destruct (bool_decide (y = x)); simpl; lia.
Qed.

Lemma count_eq_pos (x : A) (l : list A) : x ∈ l → (0 < count_eq x l)%Z.
Proof.
  induction l as [|y l IH]; [by intros ?%elem_of_nil|].
  rewrite count_eq_cons. intros [-> | Hin]%elem_of_cons.
  - rewrite bool_decide_eq_true_2 by done. unfold count_eq. lia.
  - specialize (IH Hin). destruct (bool_decide (y = x)); lia.
Qed.

Lemma sum_counts_cons (y : A) (l ks : list A) :
  NoDup ks →
  sum_counts ((λ k, (k, count_eq k (y :: l))) <$> ks)
  = ((if bool_decide (y ∈ ks) then 1 else 0)
     + sum_counts ((λ k, (k, count_eq k l)) <$> ks))%Z.
Proof.
  induction 1 as [|k ks Hk Hks IH]; [done|].
  cbn [fmap list_fmap sum_counts foldr snd]. fold (sum_counts (A := A)).
  change (foldr _ 0%Z ?l) with (sum_counts l). rewrite IH, count_eq_cons.
  destruct (decide (y = k)) as [-> | Hne].
  - rewrite (bool_decide_eq_true_2 (k = k)) by done.
    rewrite (bool_decide_eq_true_2 (k ∈ k :: ks)) by left.
    rewrite (bool_decide_eq_false_2 (k ∈ ks)) by done. lia.
  - rewrite (bool_decide_eq_false_2 (y = k)) by done.
    destruct (decide (y ∈ ks)) as [Hin | Hnin].
    + rewrite (bool_decide_eq_true_2 (y ∈ ks)) by done.
      rewrite (bool_decide_eq_true_2 (y ∈ k :: ks)) by (by right). lia.
    + rewrite (bool_decide_eq_false_2 (y ∈ ks)) by done.
      rewrite (bool_decide_eq_false_2 (y ∈ k :: ks))
        by (intros [? | ?]%elem_of_cons; done).
      lia.
Qed.

Lemma sum_counts_all (l ks : list A) :
  NoDup ks → (∀ y, y ∈ l → y ∈ ks) →
  sum_counts ((λ k, (k, count_eq k l)) <$> ks) = Z.of_nat (length l).
Proof.
  intros Hks. induction l as [|y l IH]; intros Hall.
  - clear Hall Hks. induction ks as [|k ks IHk]; [done|].
    cbn [fmap list_fmap]. unfold sum_counts in *. cbn [foldr snd].
    by rewrite IHk.
  - rewrite sum_counts_cons by done.
    rewrite bool_decide_eq_true_2 by (apply Hall; left).
    rewrite IH by (intros z Hz; apply Hall; by right).
    cbn [length]. lia.
Qed.

(** The groups of [GROUP BY] with their counts. *)
Lemma group_counts_breakdown (key_le : A → A → bool) (keys : list A) :
  breakdown (Z.of_nat (length keys)) (group_counts key_le keys)
  ∧ ∀ p, p ∈ group_counts key_le keys → fst p ∈ keys.
Proof.
  unfold group_counts.
  set (ks := remove_dups (sort_with key_le keys)).
  assert (Hks : NoDup ks) by apply NoDup_remove_dups.
  assert (Hin : ∀ y, y ∈ ks ↔ y ∈ keys).
  { intros y. unfold ks. by rewrite elem_of_remove_dups, sort_with_perm. }
  clearbody ks.
  assert (Hfst : fst <$> ((λ k, (k, count_eq k keys)) <$> ks) = ks).
  { clear. induction ks as [|k ks IH]; [done|].
    rewrite !fmap_cons. simpl. by rewrite IH. }
  set (pairs := (λ k, (k, count_eq k keys)) <$> ks) in *.
  assert (Hperm : sort_with (λ a b : A * Z, (snd b <=? snd a)%Z) pairs ≡ₚ pairs)
    by apply sort_with_perm.
  split; [split; [|split; [|split]]|].
  - rewrite (sum_counts_perm _ _ Hperm). apply sum_counts_all; [done|].
    intros y. apply Hin.
  - by rewrite Hperm, Hfst.
  - rewrite Hperm. apply Forall_forall. intros p Hp.
    apply list_elem_of_fmap in Hp as (k & -> & Hk). simpl.
    by apply count_eq_pos, Hin.
  - eapply Sorted_impl; [|apply sort_with_sorted].
    + intros a b Hab. by apply Z.leb_le.
    + intros a b. destruct (Z.leb_spec (snd b) (snd a)); [by left|].
      right. apply Z.leb_le. lia.
  - intros p Hp. rewrite Hperm in Hp.
    apply list_elem_of_fmap in Hp as (k & -> & Hk). simpl. by apply Hin.
Qed.

End GroupCounts.

Section StatisticsMore.
Context `{Runtime}.

Lemma country_bucket_names (r : row) :
  country_bucket r
  ∈ ["Singapore"; "Indonesia"; "Malaysia"; "Thailand"; "Vietnam"; "Other"].
Proof.
  unfold country_bucket.
  repeat match goal with
         | |- context [if ?b then _ else _] => destruct b
         end; repeat constructor.
Qed.

(** X20: the breakdowns of [get_statistics].  For every table the counts
    by country and the counts by site each add up to [total_jobs], which
    is the number of rows; no country and no site is listed twice or with
    a count of 0; the larger counts come first; a country is one of the
    five of the region or [Other]; and the number of jobs with salary data
    is between 0 and [total_jobs]. *)
Theorem get_statistics_breakdown (t : table) :
  ∃ stats,
    get_statistics t = Ok stats
    ∧ total_jobs stats = Z.of_nat (length (rows t))
    ∧ breakdown (total_jobs stats) (jobs_by_country stats)
    ∧ breakdown (total_jobs stats) (jobs_by_site stats)
    ∧ Forall (λ p, fst p ∈ ["Singapore"; "Indonesia"; "Malaysia"; "Thailand";
                            "Vietnam"; "Other"])
             (jobs_by_country stats)
    ∧ Forall (λ p, ∃ r, r ∈ rows t ∧ col r "site" = fst p) (jobs_by_site stats)
    ∧ (0 ≤ jobs_with_salary (salary stats) ≤ total_jobs stats)%Z.
Proof.
  unfold get_statistics. cbv beta iota zeta.
  set (total := Z.of_nat (length (rows t))).
  set (with_salary := List.filter has_salary (rows t)).
  set (n := Z.of_nat (length with_salary)).
  set (remote_count := Z.of_nat (length (List.filter _ (rows t)))).
  destruct (group_counts_breakdown String.leb (country_bucket <$> rows t))
    as [Hcountry Hcountries].
  destruct (group_counts_breakdown
              (λ a b, match order_compare a b with Gt => false | _ => true end)
              ((λ r : row, col r "site") <$> rows t))
    as [Hsite Hsites].
  rewrite length_fmap in Hcountry. rewrite length_fmap in Hsite.
  fold total in Hcountry, Hsite.
  set (by_country := group_counts String.leb _) in *.
  set (by_site := group_counts _ ((λ r : row, col r "site") <$> rows t)) in *.
  assert (Hnames : Forall (λ p, fst p ∈ ["Singapore"; "Indonesia"; "Malaysia";
                                         "Thailand"; "Vietnam"; "Other"])
                          by_country).
  { apply Forall_forall. intros p Hp. specialize (Hcountries p Hp).
    apply list_elem_of_fmap in Hcountries as (r & -> & _).
    apply country_bucket_names. }
  assert (Hfrom : Forall (λ p, ∃ r, r ∈ rows t ∧ col r "site" = fst p) by_site).
  { apply Forall_forall. intros p Hp. specialize (Hsites p Hp).
    apply list_elem_of_fmap in Hsites as (r & -> & Hr). by exists r. }
  assert (Hn : (0 ≤ n ≤ total)%Z).
  { subst n total with_salary.
    pose proof (filter_length_le has_salary (rows t)). lia. }
  destruct (0 <? total)%Z eqn:Htotal.
  - destruct (py_truediv_guarded remote_count total Htotal) as [q ->].
    destruct (py_truediv_guarded n total Htotal) as [q' ->].
    destruct (0 <? n)%Z eqn:Hpos; simpl;
      (eexists; split; [done|]; simpl; repeat (split; [done|]); lia).
  - destruct (0 <? n)%Z eqn:Hpos; simpl;
      (eexists; split; [done|]; simpl; repeat (split; [done|]); lia).
Qed.

End StatisticsMore.

(** ** The validation and the classifier *)

(** The names of the five countries are aliases of the classifier. *)
Lemma country_is_alias (country : string) :
  country ∈ ["Indonesia"; "Malaysia"; "Thailand"; "Vietnam"; "Singapore"] →
  is_alias country.
Proof.
  intros Hc. unfold is_alias.
  repeat (apply elem_of_cons in Hc as [-> | Hc];
          [eexists _, _; split; [|by left]; unfold SEA_COUNTRIES;
           repeat (first [by left | right]) |]).
  by apply elem_of_nil in Hc.
Qed.

Lemma names_country_accepted (location : string) :
  names_country location → validate_sea_country (PyStr location) = Ok true.
Proof.
  intros (country & Hc & Hin). apply validate_sea_country_true.
  exists country. split; [by apply country_is_alias | done].
Qed.

Section CallsValid.
Context `{Runtime}.
Variable jobspy_scrape_jobs : scrape_call → result (list (gmap string pyval)).

(** X21: what [scrape_jobs] never asks of the external capability.
    Whatever its arguments, every call it makes is for the search term,
    the location and the number of results it was given, and these have
    passed the validation: the search term is not blank, the number of
    results is between 1 and 200, and the location is one that the
    classifier accepts. *)
Theorem scrape_jobs_calls_valid (clock : Z → string)
    (search_term location : string) (results_per_site : Z)
    (sites : option (list string)) (job_type : option string)
    (hours_old : option Z) (t : table) :
  Forall (λ call,
            call_search_term call = search_term
            ∧ call_location call = location
            ∧ call_results_wanted call = results_per_site
            ∧ ¬ blank search_term
            ∧ (0 < results_per_site ≤ 200)%Z
            ∧ validate_sea_country (PyStr location) = Ok true)
         (snd (scrape_jobs jobspy_scrape_jobs clock search_term location
                 results_per_site sites job_type hours_old t)).
Proof.
  unfold scrape_jobs.
  pose proof (validate_search_params_spec search_term location results_per_site)
    as Hspec.
  destruct (validate_search_params search_term location results_per_site)
    as [[|] error_msg]; cbn [negb fst] in *; [|by constructor].
  destruct Hspec as [Hspec _]. destruct (Hspec eq_refl) as (Hterm & _ & Hn & Hloc).
  pose proof (scrape_sites_spec jobspy_scrape_jobs search_term location
                results_per_site (default ["indeed"; "linkedin"] sites)
                job_type hours_old) as [_ Hcalls].
  destruct (scrape_sites _ _ _ _ _ _ _) as [all_jobs calls]. cbn [snd] in Hcalls.
  assert (Hall : Forall (λ call,
                           call_search_term call = search_term
                           ∧ call_location call = location
                           ∧ call_results_wanted call = results_per_site
                           ∧ ¬ blank search_term
                           ∧ (0 < results_per_site ≤ 200)%Z
                           ∧ validate_sea_country (PyStr location) = Ok true)
                        calls).
  { rewrite Hcalls. apply Forall_fmap, Forall_forall. intros site _. simpl.
    repeat (split; [done|]). by apply names_country_accepted. }
  destruct (default ["indeed"; "linkedin"] sites); [done|].
  destruct all_jobs; [done|]. by destruct (insert_jobs _ _ _).
Qed.

End CallsValid.

(** X22: [get_sea_location_for_scraping] maps each of the five countries
    to the location that the scraping configuration has for it, and
    leaves every other string as it is.  Applying it twice is applying it
    once, and a string that names one of the five countries is mapped to
    a string that does, so that the validation of [scrape_jobs] accepts
    the one when it accepts the other. *)
Theorem get_sea_location_for_scraping_spec (country : string) :
  (∀ config, config_of SEA_SCRAPING_CONFIG country = Some config →
             get_sea_location_for_scraping country = config_location config)
  ∧ (config_of SEA_SCRAPING_CONFIG country = None →
     get_sea_location_for_scraping country = country)
  ∧ get_sea_location_for_scraping (get_sea_location_for_scraping country)
    = get_sea_location_for_scraping country
  ∧ (names_country country → names_country (get_sea_location_for_scraping country)).
Proof.
  assert (Hfive : ∀ c, c ∈ ["Indonesia"; "Malaysia"; "Thailand"; "Vietnam"; "Singapore"] →
            (∀ config, config_of SEA_SCRAPING_CONFIG c = Some config →
                       get_sea_location_for_scraping c = config_location config)
            ∧ get_sea_location_for_scraping (get_sea_location_for_scraping c)
              = get_sea_location_for_scraping c
            ∧ names_country (get_sea_location_for_scraping c)).
  { intros c Hc.
    repeat (apply elem_of_cons in Hc as [-> | Hc];
            [split; [by intros config [= <-]|]; split; [by vm_compute|];
             apply country_scan_spec; by vm_compute |]).
    by apply elem_of_nil in Hc. }
  destruct (decide (country ∈ ["Indonesia"; "Malaysia"; "Thailand"; "Vietnam";
                               "Singapore"])) as [Hin | Hout].
  - destruct (Hfive country Hin) as (Hconfig & Htwice & Hnames).
    split; [done|]. split; [|done].
    intros Hnone. exfalso. revert Hnone.
    repeat (apply elem_of_cons in Hin as [-> | Hin]; [done|]).
    by apply elem_of_nil in Hin.
  - assert (Hsame : get_sea_location_for_scraping country = country).
    { unfold get_sea_location_for_scraping, location_map.
      rewrite !lookup_insert_ne, lookup_singleton_ne; [done|..];
        intros <-; apply Hout; repeat constructor. }
    rewrite !Hsame. split; [|done].
    intros config Hconfig. exfalso. apply Hout.
    unfold SEA_SCRAPING_CONFIG in Hconfig. cbn [config_of] in Hconfig.
    repeat match type of Hconfig with
           | (if String.eqb ?a country then _ else _) = _ =>
               destruct (String.eqb_spec a country) as [<- | _];
               [repeat constructor|]
           end.
    done.
Qed.

(** ** The [LIKE] filters *)

Lemma like_match_percent (pattern text : string) :
  like_match (String "%" pattern) text = true ↔
  ∃ before after, text = before +:+ after ∧ like_match pattern after = true.
Proof.
  cbn [like_match]. change (Ascii.eqb "%" "%") with true. cbv iota.
  induction text as [|c text IH].
  - rewrite orb_false_r. split.
    + intros Hm. by exists EmptyString, EmptyString.
    + intros ([|b before] & after & Heq & Hm); [|by rewrite append_String in Heq].
      rewrite append_empty in Heq. by subst.
  - rewrite orb_true_iff, IH. split.
    + intros [Hm | (before & after & -> & Hm)].
      * by exists EmptyString, (String c text).
      * exists (String c before), after. by rewrite append_String.
    + intros ([|b before] & after & Heq & Hm).
      * left. rewrite append_empty in Heq. by subst.
      * right. rewrite append_String in Heq. simplify_eq. by exists before, after.
Qed.

Lemma like_match_plain (v text : string) :
  plain_text v = true →
  like_match (v +:+ "%") text = true ↔
  ∃ middle after, text = middle +:+ after ∧ lower middle = lower v.
Proof.
  intros Hplain. revert text. induction v as [|c v IH]; intros text.
  - rewrite append_empty, like_match_percent. split.
    + intros _. by exists EmptyString, text.
    + intros _. exists text, EmptyString. split; [|done].
      clear. induction text as [|d text IHt]; [done|].
      by rewrite append_String, <- IHt.
  - cbn [plain_text] in Hplain.
    apply andb_true_iff in Hplain as [Hc Hplain].
    apply andb_true_iff in Hc as [Hpercent Hunder].
    apply negb_true_iff in Hpercent, Hunder.
    rewrite append_String. cbn [like_match]. rewrite Hpercent, Hunder.
    destruct text as [|d text].
    + split; [done|]. intros ([|m middle] & after & Heq & Hlow); [done|].
      by rewrite append_String in Heq.
    + cbn [orb]. rewrite andb_true_iff, Ascii.eqb_eq, (IH Hplain). split.
      * intros [Hcd (middle & after & -> & Hlow)].
        exists (String d middle), after. rewrite append_String. split; [done|].
        cbn [lower]. by rewrite Hlow, Hcd.
      * intros ([|m middle] & after & Heq & Hlow); [done|].
        rewrite append_String in Heq. cbn [lower] in Hlow. simplify_eq.
        split; [done|]. by exists middle, after.
Qed.

Lemma like_match_contains (v text : string) :
  plain_text v = true →
  like_match ("%" +:+ v +:+ "%") text = true ↔ contains_nocase v text.
Proof.
  intros Hplain. rewrite append_String, append_empty, like_match_percent.
  unfold contains_nocase. split.
  - intros (before & rest & -> & Hm).
    apply (like_match_plain v rest Hplain) in Hm as (middle & after & -> & Hlow).
    exists before, middle, after. split; [done|]. by apply lower_eq_iff.
  - intros (before & middle & after & -> & Heq).
    exists before, (middle +:+ after). split; [done|].
    apply (like_match_plain v _ Hplain). exists middle, after.
    split; [done|]. by apply lower_eq_iff.
Qed.

Section LikeFilters.
Context `{Runtime}.

Lemma build_where_text_filter (key column : string) (v : string) :
  (key, column) ∈ text_filters → v ≠ EmptyString →
  build_where {[ key := PyStr v ]}
  = Ok [ELike column (PyStr ("%" +:+ v +:+ "%"))].
Proof.
  intros Hkey Hv. unfold build_where, add_condition.
  rewrite !filter_value_singleton.
  assert (py_truthy (PyStr v) = true) as -> by (by destruct v).
  unfold text_filters in Hkey.
  repeat (apply elem_of_cons in Hkey as [[= -> ->] | Hkey];
          [by repeat (first [rewrite decide_True by done
                            | rewrite decide_False by done]) |]).
  by apply elem_of_nil in Hkey.
Qed.

(** X23: the four text filters of [search_jobs] are searches for a
    substring without regard to the case of letters.  For a value that is
    not empty and has neither [%] nor [_], the filter [title] selects the
    rows whose title contains the value up to case, and [company],
    [location] and [country] do the same on the columns [company_name],
    [location] and, again, [location]; a row without a value in the column
    is never selected. *)
Theorem search_jobs_text_filter (key column : string) (v : string) :
  (key, column) ∈ text_filters → v ≠ EmptyString → plain_text v = true →
  ∃ params,
    build_where {[ key := PyStr v ]} ≫= bind_where = Ok params
    ∧ (∀ (r : row) (s : string),
          col r column = SqlText s →
          (where_holds params r = true ↔ contains_nocase v s))
    ∧ (∀ r : row, col r column = SqlNull → where_holds params r = false).
Proof.
  intros Hkey Hv Hplain. rewrite (build_where_text_filter key column v Hkey Hv).
  exists [ELike column (SqlText ("%" +:+ v +:+ "%"))]. split; [done|]. split.
  - intros r s Hcol. unfold where_holds. cbn [forallb eval_expr].
    rewrite Hcol. cbn [sql_to_text]. rewrite andb_true_r, bool_decide_eq_true.
    rewrite <- (like_match_contains v s Hplain). split; congruence.
  - intros r Hcol. unfold where_holds. cbn [forallb eval_expr].
    by rewrite Hcol.
Qed.

End LikeFilters.

Lemma search_jobs_text_filter_witness :
  ∃ params,
    build_where (H := example_runtime) {[ "title" := PyStr "DEV" ]} ≫= bind_where
    = Ok params
    ∧ where_holds (H := example_runtime) params row_zeta = true.
Proof.
  destruct (search_jobs_text_filter (H := example_runtime) "title" "title" "DEV")
    as (params & Hparams & Hsel & _).
  - by left.
  - done.
  - done.
  - exists params. split; [done|].
    apply (Hsel row_zeta "Developer"); [by vm_compute|].
    exists "", "Dev", "eloper". split; [done|]. apply lower_eq_iff. by vm_compute.
Defined.

(** ** The filters by equality *)

Lemma sql_eq_text_iff (v : sqlval) (s : string) :
  sql_eq v (SqlText s) = Some true ↔ v = SqlText s.
Proof.
  destruct v as [|x|f|u]; simpl; try (split; done).
  rewrite sql_eq_text_true. split; congruence.
Qed.

Section EqualityFilters.
Context `{Runtime}.

Lemma build_where_equality (key : string) (v : string) :
  key ∈ ["job_type"; "site"] → v ≠ EmptyString →
  build_where {[ key := PyStr v ]} = Ok [EEq key (PyStr v)].
Proof.
  intros Hkey Hv. unfold build_where, add_condition.
  rewrite !filter_value_singleton.
  assert (py_truthy (PyStr v) = true) as -> by (by destruct v).
  repeat (apply elem_of_cons in Hkey as [-> | Hkey];
          [by repeat (first [rewrite decide_True by done
                            | rewrite decide_False by done]) |]).
  by apply elem_of_nil in Hkey.
Qed.

Lemma build_where_is_remote (v : string) :
  v ≠ EmptyString →
  build_where {[ "is_remote" := PyStr v ]}
  = Ok [EEq "is_remote" (PyInt (if String.eqb (lower v) "true" then 1 else 0))].
Proof.
  intros Hv. unfold build_where, add_condition.
  rewrite !filter_value_singleton.
  assert (py_truthy (PyStr v) = true) as -> by (by destruct v).
  by repeat (first [rewrite decide_True by done | rewrite decide_False by done]).
Qed.

(** X24: the filters by equality.  A [job_type] or [site] filter with a
    text that is not empty selects the rows that hold exactly that text
    in the column, letter case included.  An [is_remote] filter with a
    text that is not empty selects the remote rows when the text is
    [true] in any letter case, and the rows that are not remote for every
    other text, [1] and [yes] included. *)
Theorem search_jobs_equality_filters (v : string) :
  v ≠ EmptyString →
  (∀ key, key ∈ ["job_type"; "site"] →
          ∃ params,
            build_where {[ key := PyStr v ]} ≫= bind_where = Ok params
            ∧ ∀ r : row, where_holds params r = true ↔ col r key = SqlText v)
  ∧ (∃ params,
        build_where {[ "is_remote" := PyStr v ]} ≫= bind_where = Ok params
        ∧ ∀ r : row,
            col r "is_remote" = SqlInt 0 ∨ col r "is_remote" = SqlInt 1 →
            (where_holds params r = true
             ↔ col r "is_remote"
               = SqlInt (if String.eqb (lower v) "true" then 1 else 0))).
Proof.
  intros Hv. split.
  - intros key Hkey. rewrite (build_where_equality key v Hkey Hv).
    exists [EEq key (SqlText v)]. split; [done|].
    intros r. unfold where_holds. cbn [forallb eval_expr].
    rewrite andb_true_r, bool_decide_eq_true.
    assert (with_affinity key (SqlText v) = SqlText v) as ->
      by (unfold with_affinity; by destruct (bool_decide _)).
    apply sql_eq_text_iff.
  - rewrite (build_where_is_remote v Hv).
    destruct (String.eqb (lower v) "true").
    + exists [EEq "is_remote" (SqlInt 1)]. split; [done|].
      intros r [Hr | Hr]; unfold where_holds; cbn [forallb eval_expr];
        rewrite Hr, andb_true_r, bool_decide_eq_true; by vm_compute.
    + exists [EEq "is_remote" (SqlInt 0)]. split; [done|].
      intros r [Hr | Hr]; unfold where_holds; cbn [forallb eval_expr];
        rewrite Hr, andb_true_r, bool_decide_eq_true; by vm_compute.
Qed.

End EqualityFilters.

Lemma search_jobs_equality_filters_witness :
  ∃ params,
    build_where (H := example_runtime) {[ "is_remote" := PyStr "yes" ]}
      ≫= bind_where = Ok params
    ∧ where_holds (H := example_runtime) params row_zeta = true.
Proof.
  destruct (search_jobs_equality_filters (H := example_runtime) "yes")
    as [_ (params & Hparams & Hsel)]; [done|].
  exists params. split; [done|].
  apply (Hsel row_zeta); [left|]; by vm_compute.
Defined.

(** ** Filters narrow *)

Lemma bind_where_snoc (w : list (sqlexpr pyval)) (acc : list (sqlexpr sqlval)) :
  for_each (λ acc e, e' ← bind_expr e; Ok (acc ++ [e'])) w acc
  = p ← bind_where w; Ok (acc ++ p).
Proof.
  unfold bind_where. revert acc. induction w as [|e w IH]; intros acc.
  - simpl. by rewrite app_nil_r.
  - cbn [for_each]. destruct (bind_expr e) as [e' | err]; [|done].
    cbn [mbind result_bind]. rewrite (IH (acc ++ [e'])), (IH ([] ++ [e'])).
    destruct (for_each _ w []) as [p | err]; [|done].
    cbn [mbind result_bind]. by rewrite <- !app_assoc.
Qed.

Lemma bind_where_cons (e : sqlexpr pyval) (w : list (sqlexpr pyval)) :
  bind_where (e :: w) = e' ← bind_expr e; p ← bind_where w; Ok (e' :: p).
Proof.
  unfold bind_where at 1. cbn [for_each].
  destruct (bind_expr e) as [e' | err]; [|done]. cbn [mbind result_bind].
  by rewrite bind_where_snoc.
Qed.

Lemma bind_where_sublist (w wg : list (sqlexpr pyval)) (pg : list (sqlexpr sqlval)) :
  w `sublist_of` wg → bind_where wg = Ok pg →
  ∃ p, bind_where w = Ok p ∧ p `sublist_of` pg.
Proof.
  intros Hsub. revert pg.
  induction Hsub as [|e w wg Hsub IH|e w wg Hsub IH]; intros pg.
  - intros _. exists []. split; [done | apply sublist_nil_l].
  - rewrite !bind_where_cons. destruct (bind_expr e) as [e' | err]; [|done].
    cbn [mbind result_bind].
    destruct (bind_where wg) as [pg' | err]; [|done].
    cbn [mbind result_bind]. intros [= <-].
    destruct (IH pg' eq_refl) as (p & -> & Hp). exists (e' :: p).
    split; [done | by constructor].
  - rewrite bind_where_cons. destruct (bind_expr e) as [e' | err]; [|done].
    cbn [mbind result_bind].
    destruct (bind_where wg) as [pg' | err]; [|done].
    cbn [mbind result_bind]. intros [= <-].
    destruct (IH pg' eq_refl) as (p & -> & Hp). exists p.
    split; [done | by constructor].
Qed.

Section Narrowing.
Context `{Runtime}.

Lemma where_holds_sublist (p pg : list (sqlexpr sqlval)) (r : row) :
  p `sublist_of` pg → where_holds pg r = true → where_holds p r = true.
Proof.
  unfold where_holds. rewrite !forallb_forall. intros Hsub Hall e He.
  apply Hall, list_elem_of_In, (sublist_subseteq p pg Hsub). by apply list_elem_of_In.
Qed.

Lemma add_condition_narrow (f g : gmap string pyval) (key : string)
    (make : pyval → result (list (sqlexpr pyval)))
    (w wg wg' : list (sqlexpr pyval)) :
  filter_value f key = filter_value g key ∨ filter_value f key = None →
  w `sublist_of` wg →
  add_condition g key make wg = Ok wg' →
  ∃ w', add_condition f key make w = Ok w' ∧ w' `sublist_of` wg'.
Proof.
  unfold add_condition. intros Hvalue Hsub.
  destruct (filter_value g key) as [v|] eqn:Hg.
  - destruct (make v) as [new | e] eqn:Hmake; [|done].
    cbn [mbind result_bind]. intros [= <-].
    destruct Hvalue as [-> | ->].
    + rewrite Hmake. cbn [mbind result_bind]. eexists. split; [done|].
      by apply sublist_app.
    + eexists. split; [done|]. by apply sublist_inserts_r.
  - intros [= <-]. destruct Hvalue as [-> | ->]; by eexists.
Qed.

Ltac narrow_step Hbuild Hvalue Hsub :=
  match type of Hbuild with
  | (add_condition ?g ?k ?mk ?wg ≫= _) = _ =>
      let wg' := fresh "wg" in
      let e := fresh "e" in
      let Hstep := fresh "Hstep" in
      let w' := fresh "w" in
      let Hw := fresh "Hw" in
      destruct (add_condition g k mk wg) as [wg' | e] eqn:Hstep; [|done];
      cbn [mbind result_bind] in Hbuild;
      destruct (add_condition_narrow _ _ k mk _ _ _ (Hvalue k) Hsub Hstep)
        as (w' & Hw & Hsub');
      rewrite Hw; cbn [mbind result_bind];
      clear Hsub Hstep Hw; rename Hsub' into Hsub
  end.

Lemma build_where_narrow (f g : gmap string pyval) (wg : list (sqlexpr pyval)) :
  (∀ key, filter_value f key = filter_value g key ∨ filter_value f key = None) →
  build_where g = Ok wg →
  ∃ w, build_where f = Ok w ∧ w `sublist_of` wg.
Proof.
  intros Hvalue. unfold build_where. intros Hbuild.
  assert (Hsub : ([] : list (sqlexpr pyval)) `sublist_of` []) by done.
  narrow_step Hbuild Hvalue Hsub. narrow_step Hbuild Hvalue Hsub.
  narrow_step Hbuild Hvalue Hsub. narrow_step Hbuild Hvalue Hsub.
  narrow_step Hbuild Hvalue Hsub. narrow_step Hbuild Hvalue Hsub.
  narrow_step Hbuild Hvalue Hsub. narrow_step Hbuild Hvalue Hsub.
  narrow_step Hbuild Hvalue Hsub.
  by apply (add_condition_narrow f g _ _ _ _ _ (Hvalue _) Hsub).
Qed.

Lemma filter_value_insert_fresh (f : gmap string pyval) (key key' : string)
    (v : pyval) :
  f !! key = None →
  filter_value f key' = filter_value (<[key := v]> f) key'
  ∨ filter_value f key' = None.
Proof.
  intros Hfresh. unfold filter_value, dict_get.
  destruct (decide (key = key')) as [<- | Hne].
  - right. by rewrite Hfresh.
  - left. by rewrite lookup_insert_ne.
Qed.

(** X25: the filters of [search_jobs] are joined by AND, so that one
    filter more can only narrow the result.  When the search with a
    further filter returns, the search without it returns too, with a
    total that is not smaller, and every row that the filters with the
    further one select is selected without it. *)
Theorem search_jobs_filter_narrows (filters : gmap string pyval) (key : string)
    (v : pyval) (page per_page : Z) (t : table) (rs' : list row) (n' : Z) :
  key ∈ filter_keys → filters !! key = None →
  search_jobs (<[key := v]> filters) page per_page t = Ok (rs', n') →
  ∃ rs n selected selected',
    search_jobs filters page per_page t = Ok (rs, n)
    ∧ (n' ≤ n)%Z
    ∧ search_ordered filters t = Ok selected
    ∧ search_ordered (<[key := v]> filters) t = Ok selected'
    ∧ selected' ⊆ selected.
Proof.
  intros Hkey Hfresh Hrun.
  apply search_jobs_ok in Hrun
    as (pg & sort_by & sort_order & Hplan & Hpp & Hoff & -> & ->).
  assert (key ≠ "sort_by" ∧ key ≠ "sort_order") as [Hby Horder].
  { split; intros ->; revert Hkey; apply (bool_decide_unpack _); by vm_compute. }
  assert (∃ p, search_plan filters = Ok (p, sort_by, sort_order)
               ∧ p `sublist_of` pg) as (p & Hplan' & Hsub).
  { unfold search_plan, dict_get_default in Hplan |- *.
    rewrite !lookup_insert_ne in Hplan by done.
    destruct (build_where (<[key := v]> filters)) as [wg | e] eqn:Hbuild; [|done].
    cbn [mbind result_bind] in Hplan.
    destruct (build_where_narrow filters (<[key := v]> filters) wg) as (w & -> & Hw);
      [intros key'; by apply filter_value_insert_fresh | done |].
    cbn [mbind result_bind].
    destruct (py_upper _) as [o | e]; [|done]. cbn [mbind result_bind] in Hplan |- *.
    destruct (bind_where wg) as [pg' | e] eqn:Hbind; [|done].
    cbn [mbind result_bind] in Hplan. injection Hplan as <- <- <-.
    destruct (bind_where_sublist w wg pg' Hw Hbind) as (p & -> & Hp).
    by exists p. }
  assert (Hincl : ∀ r, r ∈ List.filter (where_holds pg) (rows t) →
                       r ∈ List.filter (where_holds p) (rows t)).
  { intros r Hr. apply list_elem_of_In, filter_In in Hr as [Hin Hholds].
    apply list_elem_of_In, filter_In. split; [done|].
    by apply (where_holds_sublist p pg). }
  eexists _, _, _, _. split; [|split; [|split; [|split]]].
  - apply search_jobs_ok. by exists p, sort_by, sort_order.
  - assert (List.filter (where_holds pg) (rows t)
            = List.filter (where_holds pg) (List.filter (where_holds p) (rows t)))
      as ->.
    { clear Hincl. induction (rows t) as [|r l IH]; [done|]. simpl.
      destruct (where_holds pg r) eqn:Hg.
      - rewrite (where_holds_sublist p pg r Hsub Hg). simpl. by rewrite Hg, IH.
      - destruct (where_holds p r); simpl; [by rewrite Hg|]; done. }
    pose proof (filter_length_le (where_holds pg)
                  (List.filter (where_holds p) (rows t))). lia.
  - unfold search_ordered. by rewrite Hplan'.
  - unfold search_ordered. by rewrite Hplan.
  - intros r. unfold order_by. rewrite !sort_with_perm. apply Hincl.
Qed.

End Narrowing.

Lemma search_jobs_filter_narrows_witness :
  ∃ rs n selected selected',
    search_jobs (H := example_runtime) ∅ 1 20 two_rows = Ok (rs, n)
    ∧ (1 ≤ n)%Z
    ∧ search_ordered (H := example_runtime) ∅ two_rows = Ok selected
    ∧ search_ordered (H := example_runtime) (<["site" := PyStr "indeed"]> ∅) two_rows
      = Ok selected'
    ∧ selected' ⊆ selected.
Proof.
  apply (search_jobs_filter_narrows (H := example_runtime) ∅ "site" (PyStr "indeed")
           1 20 two_rows [row_zeta] 1).
  - apply (bool_decide_unpack _). vm_compute. exact I.
  - done.
  - apply (bool_decide_unpack _). vm_compute. exact I.
Defined.

(** ** Cleaning up and inserting again *)

Section CleanupInsert.
Context `{Runtime}.



End CleanupInsert.


Lemma sanitize_job_data_keys_witness :
  ∃ sanitized,
    sanitize_job_data (H := example_runtime) job_singapore = Ok sanitized
    ∧ ∀ k, is_Some (sanitized !! k) ↔ k ∈ insert_columns.
Proof.
  destruct (sanitize_job_data_returns (H := example_runtime) job_singapore)
    as [sanitized Hrun].
  - intros k Hk. revert k Hk. apply Forall_forall.
    apply (bool_decide_unpack _). vm_compute. exact I.
  - exists sanitized. split; [exact Hrun|].
    exact (sanitize_job_data_keys (H := example_runtime) job_singapore sanitized Hrun).
Defined.

Lemma sanitize_job_data_idempotent_witness :
  ∃ sanitized,
    sanitize_job_data (H := example_runtime) job_singapore = Ok sanitized
    ∧ sanitize_job_data (H := example_runtime) sanitized = Ok sanitized.
Proof.
  destruct (sanitize_job_data_returns (H := example_runtime) job_singapore)
    as [sanitized Hrun].
  - intros k Hk. revert k Hk. apply Forall_forall.
    apply (bool_decide_unpack _). vm_compute. exact I.
  - exists sanitized. split; [exact Hrun|].
    exact (sanitize_job_data_idempotent (H := example_runtime) job_singapore
             sanitized Hrun).
Defined.
